(** * bigsscuit.modules.data.hmm

    A shallow embedding of [modules/data/hmm.py]: the profile-file parser
    [HMM.from_file], the member-level save [HMM.__save__] and the group-level
    reconciliation [HMMDatabase.save], together with the properties of the
    natural-language specification that concern them.

    Python objects are modelled as records, exceptions as an error type, the
    database handle as an explicit state threaded through a small
    state-and-exception monad. *)

From Stdlib Require Import String Ascii ZArith List Bool Lia.
Import ListNotations.

Open Scope string_scope.
Open Scope Z_scope.

(** ** Exceptions and results *)

(** The exceptions the module can raise: failed [assert], [list[0]] on an
    empty list, [dict[key]] on a missing key, [int()] on a non-numeric
    string, and the explicit [raise Exception(msg)]. *)
Inductive exn : Type :=
| AssertionError
| IndexError
| KeyError (key : string)
| ValueError
| Exception (msg : string).

Inductive result (A : Type) : Type :=
| Ok (a : A)
| Raise (e : exn).

Arguments Ok {A} a.
Arguments Raise {A} e.

Definition is_ok {A} (r : result A) : bool :=
  match r with Ok _ => true | Raise _ => false end.

Definition bind_result {A B} (r : result A) (k : A -> result B) : result B :=
  match r with
  | Ok a => k a
  | Raise e => Raise e
  end.

(** ** Python string primitives used by the parser

    Text is modelled as [string]: characters are the code points below 256. *)
Module Py.

(** [str.isspace] on one character (code points below 256). *)
Definition isspace (c : ascii) : bool :=
  let n := nat_of_ascii c in
  ((9 <=? n) && (n <=? 13))%nat || ((28 <=? n) && (n <=? 32))%nat
  || (n =? 133)%nat || (n =? 160)%nat.

(** [file.readlines()]: the text cut after every newline, terminators kept.
    The argument is the decoded content as the text-mode file delivers it. *)
Fixpoint readlines (s : string) : list string :=
  match s with
  | EmptyString => []
  | String c s' =>
      if (c =? "010")%char then String c EmptyString :: readlines s'
      else match readlines s' with
           | [] => [String c EmptyString]
           | l :: ls => String c l :: ls
           end
  end.

(** [str.rstrip()] with no argument: trailing whitespace removed. *)
Fixpoint rstrip (s : string) : string :=
  match s with
  | EmptyString => EmptyString
  | String c s' =>
      match rstrip s' with
      | EmptyString => if isspace c then EmptyString else String c EmptyString
      | r => String c r
      end
  end.

(** [str.startswith(p)]. *)
Definition startswith (s p : string) : bool := String.prefix p s.

(** [str.split(sep)] for a one-character separator: never empty, and
    adjacent separators delimit empty fields. *)
Fixpoint split (sep : ascii) (s : string) : list string :=
  match s with
  | EmptyString => [EmptyString]
  | String c s' =>
      if (c =? sep)%char then EmptyString :: split sep s'
      else match split sep s' with
           | [] => [String c EmptyString]
           | w :: ws => String c w :: ws
           end
  end.

(** [l[-1]] on a list of strings known to be non-empty. *)
Definition last_item (l : list string) : string := List.last l EmptyString.

Definition digit_val (c : ascii) : option Z :=
  let n := nat_of_ascii c in
  if ((48 <=? n) && (n <=? 57))%nat then Some (Z.of_nat n - 48) else None.

(** Decimal digits with single underscores allowed between digits. *)
Fixpoint digits (acc : Z) (after_digit : bool) (s : string) : option Z :=
  match s with
  | EmptyString => if after_digit then Some acc else None
  | String c s' =>
      if (c =? "_")%char then
        if after_digit then digits acc false s' else None
      else match digit_val c with
           | Some d => digits (10 * acc + d) true s'
           | None => None
           end
  end.

(** The characters [int()] skips around a number, among the code points
    below 256: the white space of C's [isspace] (tab to carriage return,
    and the space), and U+0085 and U+00A0, which it first turns into
    spaces.  The separators U+001C to U+001F are white space to
    [str.isspace] but not to [int()]: [int("\x1f7")] is a [ValueError]. *)
Definition int_space (c : ascii) : bool :=
  let n := nat_of_ascii c in
  ((9 <=? n) && (n <=? 13))%nat || (n =? 32)%nat
  || (n =? 133)%nat || (n =? 160)%nat.

(** The string without the leading characters that satisfy [p]. *)
Fixpoint skip_leading (p : ascii -> bool) (s : string) : string :=
  match s with
  | EmptyString => EmptyString
  | String c s' => if p c then skip_leading p s' else s
  end.

(** The string without the trailing characters that satisfy [p]. *)
Fixpoint skip_trailing (p : ascii -> bool) (s : string) : string :=
  match s with
  | EmptyString => EmptyString
  | String c s' =>
      match skip_trailing p s' with
      | EmptyString => if p c then EmptyString else String c EmptyString
      | r => String c r
      end
  end.

(** The number of digits of a string, underscores not counted. *)
Definition digit_count (s : string) : Z :=
  Z.of_nat
    (length (filter (fun c => match digit_val c with
                              | Some _ => true
                              | None => false
                              end)
                    (list_ascii_of_string s))).

(** [sys.int_info.default_max_str_digits]: the longest digit string an
    interpreter with the conversion limit (CPython 3.11, and the security
    releases of the versions before) converts in its default
    configuration. *)
Definition max_str_digits : Z := 4300.

(** [int(s)] on a string, base 10: the white space of [int_space] around
    the number is skipped, then come an optional sign and the digits, with
    single underscores between digits; a number of more than
    [max_str_digits] digits, and anything else, is a [ValueError]. *)
Definition int (s : string) : result Z :=
  let t := skip_leading int_space (skip_trailing int_space s) in
  let unsigned (u : string) (k : Z -> Z) :=
    match digits 0 false u with
    | Some n =>
        if digit_count u <=? max_str_digits then Ok (k n)
        else Raise ValueError
    | None => Raise ValueError
    end in
  match t with
  | String c u =>
      if (c =? "+")%char then unsigned u (fun n => n)
      else if (c =? "-")%char then unsigned u Z.opp
      else unsigned t (fun n => n)
  | EmptyString => Raise ValueError
  end.

End Py.

(** ** One hmm model: [HMMDatabase.HMM] *)

Record HMM : Type := mkHMM {
  id : Z;
  parent_id : Z;
  db_id : Z;
  accession : option string;
  name : string;
  model_length : Z
}.

Definition set_id (v : Z) (h : HMM) : HMM :=
  mkHMM v (parent_id h) (db_id h) (accession h) (name h) (model_length h).

Definition set_parent_id (v : Z) (h : HMM) : HMM :=
  mkHMM (id h) v (db_id h) (accession h) (name h) (model_length h).

Definition set_db_id (v : Z) (h : HMM) : HMM :=
  mkHMM (id h) (parent_id h) v (accession h) (name h) (model_length h).

(** The [properties] dict the parser accumulates: the three keys it can
    hold, each present or absent.  [no_properties] is [{}]. *)
Record properties : Type := mkProps {
  p_name : option string;
  p_accession : option string;
  p_model_length : option Z
}.

Definition no_properties : properties := mkProps None None None.

(** [properties != {}]. *)
Definition nonempty (p : properties) : bool :=
  match p_name p, p_accession p, p_model_length p with
  | None, None, None => false
  | _, _, _ => true
  end.

(** [HMM.__init__] on a parser dict: [id], [parent_id] and [db_id] default
    to -1, [accession] to [None]; ["name"] and ["model_length"] are
    subscripted, in that order, and raise [KeyError] when missing. *)
Definition HMM_init (p : properties) : result HMM :=
  match p_name p with
  | None => Raise (KeyError "name")
  | Some n =>
      match p_model_length p with
      | None => Raise (KeyError "model_length")
      | Some len => Ok (mkHMM (-1) (-1) (-1) (p_accession p) n len)
      end
  end.

(** ** The parser: [HMM.from_file] *)

(** One iteration of the loop over the lines: the state is the dict under
    construction and the records emitted so far. *)
Definition parse_line (raw : string) (st : properties * list HMM)
  : result (properties * list HMM) :=
  let '(props, results) := st in
  let line := Py.rstrip raw in
  if Py.startswith line "NAME" then
    Ok (mkProps (Some (Py.last_item (Py.split " " line)))
                (p_accession props) (p_model_length props), results)
  else if Py.startswith line "ACC" then
    Ok (mkProps (p_name props)
                (Some (Py.last_item (Py.split " " line)))
                (p_model_length props), results)
  else if Py.startswith line "LENG" then
    bind_result (Py.int (Py.rstrip (Py.last_item (Py.split " " line))))
      (fun len => Ok (mkProps (p_name props) (p_accession props) (Some len),
                      results))
  else if (line =? "//")%string then
    bind_result (HMM_init props)
      (fun h => Ok (no_properties, (results ++ [h])%list))
  else Ok st.

Arguments parse_line : simpl never.

Fixpoint parse_lines (lines : list string) (st : properties * list HMM)
  : result (properties * list HMM) :=
  match lines with
  | [] => Ok st
  | raw :: rest => bind_result (parse_line raw st) (parse_lines rest)
  end.

(** After the loop: a dict that is not [{}] is turned into a last record. *)
Definition finish (st : properties * list HMM) : result (list HMM) :=
  let '(props, results) := st in
  if nonempty props then
    bind_result (HMM_init props) (fun h => Ok (results ++ [h])%list)
  else Ok results.

(** [from_file], on the content of the file at [hmm_path]. *)
Definition from_file (content : string) : result (list HMM) :=
  bind_result (parse_lines (Py.readlines content) (no_properties, []))
              finish.

(** ** The database handle

    The class [Database] of [modules/data/database.py] is used here through
    [select] and [insert] only; the three relations and the two operations
    follow the specification's description of the persistence gateway. *)

(** Modelled from the spec: the rows of the relations [hmm_db], [hmm] and
    [subpfam], which [database.py] and its schema define. *)
Record hmm_db_row : Type := mkHmmDbRow {
  r_db_id : Z;
  r_md5_biosyn_pfam : string;
  r_md5_sub_pfam : string
}.

Record hmm_row : Type := mkHmmRow {
  r_id : Z;
  r_hmm_db_id : Z;
  r_name : string;
  r_accession : option string;
  r_model_length : Z
}.

Record subpfam_row : Type := mkSubpfamRow {
  r_hmm_id : Z;
  r_parent_hmm_id : Z
}.

(** Modelled from the spec: the state behind the [Database] handle, one list
    of rows per relation ([hmm_db], [hmm], [subpfam]), in insertion order. *)
Record Database : Type := mkDatabase {
  hmm_db_table : list hmm_db_row;
  hmm_table : list hmm_row;
  subpfam_table : list subpfam_row
}.

(** Number of rows held, over all relations. *)
Definition row_count (db : Database) : nat :=
  (length (hmm_db_table db) + length (hmm_table db)
   + length (subpfam_table db))%nat.

(** Modelled from the spec: the identifier [Database.insert] hands out, one
    more than the largest identifier in the relation (1 when it is empty). *)
Definition next_id (ids : list Z) : Z := 1 + fold_right Z.max 0 ids.

(** Computations against the handle: the state is threaded, and an
    exception leaves the state as it was when it was raised (every insert
    is committed on its own). *)
Definition M (A : Type) : Type := Database -> Database * result A.

Definition ret {A} (a : A) : M A := fun db => (db, Ok a).

Definition raise {A} (e : exn) : M A := fun db => (db, Raise e).

Definition bind {A B} (m : M A) (k : A -> M B) : M B :=
  fun db =>
    match m db with
    | (db', Ok a) => k a db'
    | (db', Raise e) => (db', Raise e)
    end.

Declare Scope M_scope.
Delimit Scope M_scope with M.
Notation "x <- m ;; k" := (bind m (fun x => k))
  (at level 100, m at next level, right associativity) : M_scope.
Notation "m ;; k" := (bind m (fun _ => k))
  (at level 100, right associativity) : M_scope.
Open Scope M_scope.

(** [assert cond]. *)
Definition assert (cond : bool) : M unit :=
  if cond then ret tt else raise AssertionError.

(** [rows[0]]. *)
Definition first_row {A} (rows : list A) : M A :=
  match rows with
  | r :: _ => ret r
  | [] => raise IndexError
  end.

(** A [for] loop that updates each element of a list in turn. *)
Fixpoint for_each {A B} (f : A -> M B) (l : list A) : M (list B) :=
  match l with
  | [] => ret []
  | a :: l' => b <- f a ;; bs <- for_each f l' ;; ret (b :: bs)
  end.

Definition option_string_eqb (o : option string) (s : string) : bool :=
  match o with
  | Some t => (t =? s)%string
  | None => false
  end.

(** Modelled from the spec: [select("hmm_db", "WHERE md5_biosyn_pfam=? AND
    md5_sub_pfam=?", ...)].  A select reads and leaves the state alone. *)
Definition select_hmm_db (md5_biosyn md5_sub : string) : M (list hmm_db_row) :=
  fun db =>
    (db, Ok (filter (fun r => (r_md5_biosyn_pfam r =? md5_biosyn)%string
                              && (r_md5_sub_pfam r =? md5_sub)%string)
                    (hmm_db_table db))).

Definition hmm_by_name (nm : string) (gid : Z) (db : Database)
  : list hmm_row :=
  filter (fun r => (r_name r =? nm)%string && (r_hmm_db_id r =? gid))
         (hmm_table db).

Definition hmm_by_accession (acc : string) (gid : Z) (db : Database)
  : list hmm_row :=
  filter (fun r => option_string_eqb (r_accession r) acc
                   && (r_hmm_db_id r =? gid))
         (hmm_table db).

(** The join of [hmm] and [subpfam]: one [hmm] row per matching pair. *)
Definition hmm_join_subpfam (parent : Z) (nm : string) (gid : Z)
  (db : Database) : list hmm_row :=
  flat_map
    (fun h =>
       map (fun _ => h)
           (filter (fun s => (r_id h =? r_hmm_id s)
                             && (r_parent_hmm_id s =? parent)
                             && (r_name h =? nm)%string
                             && (r_hmm_db_id h =? gid))
                   (subpfam_table db)))
    (hmm_table db).

(** Modelled from the spec: [select("hmm", "WHERE name=? AND db_id=?", ...)]. *)
Definition select_hmm_by_name (nm : string) (gid : Z) : M (list hmm_row) :=
  fun db => (db, Ok (hmm_by_name nm gid db)).

(** Modelled from the spec: [select("hmm", "WHERE accession=? AND db_id=?",
    ...)]; a row without accession matches no parameter. *)
Definition select_hmm_by_accession (acc : string) (gid : Z)
  : M (list hmm_row) :=
  fun db => (db, Ok (hmm_by_accession acc gid db)).

(** Modelled from the spec: [select("hmm,subpfam", "WHERE
    hmm.id=subpfam.hmm_id AND parent_hmm_id=? AND hmm.name=? AND
    hmm.db_id=?", ...)]. *)
Definition select_hmm_subpfam (parent : Z) (nm : string) (gid : Z)
  : M (list hmm_row) :=
  fun db => (db, Ok (hmm_join_subpfam parent nm gid db)).

(** Modelled from the spec: [insert("hmm_db", {...})], returning the new
    row's identifier. *)
Definition insert_hmm_db (md5_biosyn md5_sub : string) : M Z :=
  fun db =>
    let i := next_id (map r_db_id (hmm_db_table db)) in
    (mkDatabase (hmm_db_table db ++ [mkHmmDbRow i md5_biosyn md5_sub])
                (hmm_table db) (subpfam_table db),
     Ok i).

(** Modelled from the spec: [insert("hmm", {...})]. *)
Definition insert_hmm (gid : Z) (nm : string) (acc : option string)
  (len : Z) : M Z :=
  fun db =>
    let i := next_id (map r_id (hmm_table db)) in
    (mkDatabase (hmm_db_table db)
                (hmm_table db ++ [mkHmmRow i gid nm acc len])
                (subpfam_table db),
     Ok i).

(** Modelled from the spec: [insert("subpfam", {...})]; the relation has no
    identifier column of its own and the caller drops the result. *)
Definition insert_subpfam (hmm_id parent_hmm_id : Z) : M unit :=
  fun db =>
    (mkDatabase (hmm_db_table db) (hmm_table db)
                (subpfam_table db ++ [mkSubpfamRow hmm_id parent_hmm_id]),
     Ok tt).

(** ** [HMM.__save__] *)

Definition conflict_message (nm : string) : string :=
  ("conflicting HMM entry for " ++ nm)%string.

Definition HMM_save (self : HMM) : M HMM :=
  assert (-1 <? db_id self) ;;
  existing <- select_hmm_by_name (name self) (db_id self) ;;
  match existing with
  | existing0 :: _ =>
      assert (length existing =? 1)%nat ;;
      if negb (model_length self =? r_model_length existing0) then
        raise (Exception (conflict_message (name self)))
      else ret (set_id (r_id existing0) self)
  | [] =>
      i <- insert_hmm (db_id self) (name self) (accession self)
                      (model_length self) ;;
      let self := set_id i self in
      (if -1 <? parent_id self
       then insert_subpfam (id self) (parent_id self)
       else ret tt) ;;
      ret self
  end.

(** ** [HMMDatabase] and [HMMDatabase.save] *)

(** An [hmm_db] entry.  [sub_pfams] is a dict from parent accession to the
    list of its sub-models: keys are distinct and are visited in insertion
    order, so it is kept as an association list. *)
Record HMMDatabase : Type := mkHMMDatabase {
  hmmdb_id : Z;
  md5_biosyn_pfam : string;
  md5_sub_pfam : string;
  biosyn_pfams : list HMM;
  sub_pfams : list (string * list HMM)
}.

(** Lines 47-70: the [hmm_db] row is there; every identifier is looked up. *)
Definition rehydrate_biosyn (gid : Z) (biosyn_pfam : HMM) : M HMM :=
  rows <- select_hmm_by_name (name biosyn_pfam) gid ;;
  r <- first_row rows ;;
  ret (set_id (r_id r) biosyn_pfam).

Definition rehydrate_sub (gid parent : Z) (sub_pfam : HMM) : M HMM :=
  let sub_pfam := set_parent_id parent sub_pfam in
  rows <- select_hmm_subpfam parent (name sub_pfam) gid ;;
  r <- first_row rows ;;
  ret (set_id (r_id r) sub_pfam).

Definition rehydrate_family (gid : Z) (entry : string * list HMM)
  : M (string * list HMM) :=
  let '(parent_acc, subs) := entry in
  rows <- select_hmm_by_accession parent_acc gid ;;
  r <- first_row rows ;;
  subs' <- for_each (rehydrate_sub gid (r_id r)) subs ;;
  ret (parent_acc, subs').

(** Lines 82-96: the cascading insert below a new [hmm_db] row. *)
Definition insert_biosyn (gid : Z) (biosyn_pfam : HMM) : M HMM :=
  HMM_save (set_db_id gid biosyn_pfam).

Definition insert_sub (gid parent : Z) (sub_pfam : HMM) : M HMM :=
  HMM_save (set_parent_id parent (set_db_id gid sub_pfam)).

Definition insert_family (gid : Z) (entry : string * list HMM)
  : M (string * list HMM) :=
  let '(parent_acc, subs) := entry in
  rows <- select_hmm_by_accession parent_acc gid ;;
  r <- first_row rows ;;
  subs' <- for_each (insert_sub gid (r_id r)) subs ;;
  ret (parent_acc, subs').

Definition save (self : HMMDatabase) : M HMMDatabase :=
  existing <- select_hmm_db (md5_biosyn_pfam self) (md5_sub_pfam self) ;;
  match existing with
  | existing0 :: _ =>
      assert (length existing =? 1)%nat ;;
      let gid := r_db_id existing0 in
      biosyn <- for_each (rehydrate_biosyn gid) (biosyn_pfams self) ;;
      subs <- for_each (rehydrate_family gid) (sub_pfams self) ;;
      ret (mkHMMDatabase gid (md5_biosyn_pfam self) (md5_sub_pfam self)
                         biosyn subs)
  | [] =>
      gid <- insert_hmm_db (md5_biosyn_pfam self) (md5_sub_pfam self) ;;
      biosyn <- for_each (insert_biosyn gid) (biosyn_pfams self) ;;
      subs <- for_each (insert_family gid) (sub_pfams self) ;;
      ret (mkHMMDatabase gid (md5_biosyn_pfam self) (md5_sub_pfam self)
                         biosyn subs)
  end.

(** ** [HMMDatabase.load_folder]

    The loader reads the folder through [open], [glob.glob] and [os.path];
    the file system is a parameter of the model: what [open] finds at a
    path, and what [glob.glob] returns for a pattern. *)

Record FileSystem : Type := mkFileSystem {
  read : string -> option string;
  glob : string -> list string
}.

(** The outcomes of the loader: a value, an exception of the module, or
    the [OSError] of an [open] that finds no file. *)
Inductive outcome (A : Type) : Type :=
| Done (a : A)
| Failed (e : exn)
| NoFile (path : string).

Arguments Done {A} a.
Arguments Failed {A} e.
Arguments NoFile {A} path.

Module Path.

(** [str.endswith(p)]. *)
Fixpoint endswith (s p : string) : bool :=
  (s =? p)%string
  || match s with
     | EmptyString => false
     | String _ s' => endswith s' p
     end.

(** One step of [posixpath.join]: an absolute component replaces what came
    before, otherwise it is appended after one separator. *)
Definition join2 (path b : string) : string :=
  if Py.startswith b "/" then b
  else if (path =? "")%string || endswith path "/" then (path ++ b)%string
  else (path ++ "/" ++ b)%string.

(** [posixpath.join(a, *p)]. *)
Definition join (a : string) (p : list string) : string :=
  fold_left join2 p a.

(** [posixpath.basename]: what follows the last slash. *)
Definition basename (p : string) : string := Py.last_item (Py.split "/" p).

End Path.

(** [s.split(sep)[0]] for a separator that is not empty: the part of [s]
    before the first occurrence of [sep], all of [s] when there is none. *)
Fixpoint before (sep s : string) : string :=
  match s with
  | EmptyString => EmptyString
  | String c s' =>
      if String.prefix sep s then EmptyString else String c (before sep s')
  end.

(** [file.readline()] on a file just opened: the first line with its
    terminator, the empty string when the file is empty. *)
Definition readline (content : string) : string :=
  match Py.readlines content with
  | line :: _ => line
  | [] => EmptyString
  end.

(** [d[key] = value] on a dict kept as an association list: the value of a
    key that is there is replaced where it stands, a new key goes last. *)
Fixpoint dict_set {V} (key : string) (value : V) (d : list (string * V))
  : list (string * V) :=
  match d with
  | [] => [(key, value)]
  | (k, v) :: d' =>
      if (k =? key)%string then (k, value) :: d'
      else (k, v) :: dict_set key value d'
  end.

(** [from_file] on a path: the file is opened, then parsed. *)
Definition from_path (fs : FileSystem) (hmm_path : string)
  : outcome (list HMM) :=
  match read fs hmm_path with
  | None => NoFile hmm_path
  | Some content =>
      match from_file content with
      | Ok results => Done results
      | Raise e => Failed e
      end
  end.

(** Line 120: the key a file of sub-models is filed under. *)
Definition parent_acc_of (sub_pfam_hmm : string) : string :=
  before ".subpfams.hmm" (Path.basename sub_pfam_hmm).

(** Lines 118-122: the loop that fills the dict of sub-models. *)
Fixpoint load_sub_pfams (fs : FileSystem) (sub_pfam_hmms : list string)
  (sub_pfams : list (string * list HMM))
  : outcome (list (string * list HMM)) :=
  match sub_pfam_hmms with
  | [] => Done sub_pfams
  | sub_pfam_hmm :: rest =>
      match from_path fs sub_pfam_hmm with
      | Done results =>
          load_sub_pfams fs rest
            (dict_set (parent_acc_of sub_pfam_hmm) results sub_pfams)
      | Failed e => Failed e
      | NoFile path => NoFile path
      end
  end.

(** [load_folder], with the state of the database threaded as in [M]. *)
Definition load_folder (fs : FileSystem) (db_folder_path : string)
  (immediately_commits : bool) (db : Database)
  : Database * outcome HMMDatabase :=
  let biosyn_pfam_hmm :=
    Path.join db_folder_path
      ["biosynthetic_pfams"; "Pfam-A.biosynthetic.hmm"] in
  let md5_biosyn_path :=
    Path.join db_folder_path ["biosynthetic_pfams"; "biopfam.md5sum"] in
  let md5_sub_path :=
    Path.join db_folder_path ["sub_pfams"; "corepfam.md5sum"] in
  match read fs md5_biosyn_path with
  | None => (db, NoFile md5_biosyn_path)
  | Some biopfam =>
      let md5_biosyn := Py.rstrip (readline biopfam) in
      let sub_pfam_hmms :=
        glob fs (Path.join db_folder_path
                   ["sub_pfams"; "hmm"; "*.subpfams.hmm"]) in
      match read fs md5_sub_path with
      | None => (db, NoFile md5_sub_path)
      | Some corepfam =>
          let md5_sub := Py.rstrip (readline corepfam) in
          match from_path fs biosyn_pfam_hmm with
          | Failed e => (db, Failed e)
          | NoFile path => (db, NoFile path)
          | Done biosyn =>
              match load_sub_pfams fs sub_pfam_hmms [] with
              | Failed e => (db, Failed e)
              | NoFile path => (db, NoFile path)
              | Done subs =>
                  let result :=
                    mkHMMDatabase (-1) md5_biosyn md5_sub biosyn subs in
                  if immediately_commits then
                    match save result db with
                    | (db', Ok saved) => (db', Done saved)
                    | (db', Raise e) => (db', Failed e)
                    end
                  else (db, Done result)
              end
          end
      end
  end.

(** * Vocabulary of the properties

    Predicates and auxiliary functions the statements below are written
    with. *)

Definition nl : string := String "010" EmptyString.
Definition tab : string := String "009" EmptyString.

(** The state before the first line: [properties = {}], [results = []]. *)
Definition initial : properties * list HMM := (no_properties, []).

(** A text that ends in a line holding just the terminator. *)
Definition terminated (content : string) : Prop :=
  exists body, content = (body ++ nl ++ "//" ++ nl)%string.

(** [v] is what follows the last space of [line] (all of [line] when it
    has none). *)
Definition last_space_field (line v : string) : Prop :=
  ~ In " "%char (list_ascii_of_string v)
  /\ (line = v \/ exists pre, line = (pre ++ " " ++ v)%string).

(** Records emitted earlier are carried along in front. *)
Definition prepend (pre : list HMM) (st : properties * list HMM)
  : result (properties * list HMM) :=
  Ok (fst st, (pre ++ snd st)%list).

(** [db'] holds the rows of [db] and possibly more: no [hmm_db] row added,
    [hmm] and [subpfam] rows appended, and a name that had exactly one row
    under [gid] still has exactly that row. *)
Definition grows (gid : Z) (db db' : Database) : Prop :=
  hmm_db_table db' = hmm_db_table db
  /\ (exists hs, hmm_table db' = (hmm_table db ++ hs)%list)
  /\ (exists ss, subpfam_table db' = (subpfam_table db ++ ss)%list)
  /\ (forall nm row, hmm_by_name nm gid db = [row] ->
                     hmm_by_name nm gid db' = [row]).

(** The model [p] carries the identifier of the one row of its name under
    [gid]. *)
Definition resolved (gid : Z) (db : Database) (p : HMM) : Prop :=
  exists row, hmm_by_name (name p) gid db = [row] /\ r_id row = id p.

(** Every [hmm] row points to an [hmm_db] row. *)
Definition referential_integrity (db : Database) : Prop :=
  forall r, In r (hmm_table db) ->
            In (r_hmm_db_id r) (map r_db_id (hmm_db_table db)).

(** The names of all the models of an entry, top-level ones first. *)
Definition member_names (self : HMMDatabase) : list string :=
  (map name (biosyn_pfams self)
   ++ map name (concat (map snd (sub_pfams self))))%list.

(** The database after a fresh [hmm] row for [h] has been inserted, with
    its relation row when [h] has a parent. *)
Definition with_new_hmm (h : HMM) (db : Database) : Database :=
  let i := next_id (map r_id (hmm_table db)) in
  mkDatabase (hmm_db_table db)
    (hmm_table db
     ++ [mkHmmRow i (db_id h) (name h) (accession h) (model_length h)])
    (if -1 <? parent_id h
     then subpfam_table db ++ [mkSubpfamRow i (parent_id h)]
     else subpfam_table db).

(** A loop over a list whose body only computes a result. *)
Fixpoint map_result {A B} (g : A -> result B) (l : list A) : result (list B) :=
  match l with
  | [] => Ok []
  | a :: l' =>
      bind_result (g a)
        (fun b => bind_result (map_result g l') (fun bs => Ok (b :: bs)))
  end.

(** The results of the three kinds of lookup in a given database. *)
Definition lookup_biosyn (gid : Z) (db : Database) (b : HMM) : result HMM :=
  match hmm_by_name (name b) gid db with
  | r :: _ => Ok (set_id (r_id r) b)
  | [] => Raise IndexError
  end.

Definition lookup_sub (gid parent : Z) (db : Database) (s : HMM)
  : result HMM :=
  match hmm_join_subpfam parent (name s) gid db with
  | r :: _ => Ok (set_id (r_id r) (set_parent_id parent s))
  | [] => Raise IndexError
  end.

Definition lookup_family (gid : Z) (db : Database) (entry : string * list HMM)
  : result (string * list HMM) :=
  match hmm_by_accession (fst entry) gid db with
  | r :: _ =>
      bind_result (map_result (lookup_sub gid (r_id r) db) (snd entry))
        (fun subs => Ok (fst entry, subs))
  | [] => Raise IndexError
  end.

Definition lookup_all (gid : Z) (db : Database) (self : HMMDatabase)
  : result HMMDatabase :=
  bind_result (map_result (lookup_biosyn gid db) (biosyn_pfams self))
    (fun biosyn =>
       bind_result (map_result (lookup_family gid db) (sub_pfams self))
         (fun subs =>
            Ok (mkHMMDatabase gid (md5_biosyn_pfam self) (md5_sub_pfam self)
                              biosyn subs))).

(** What a row keeps of a model besides the identifiers. *)
Definition key (p : HMM) : string * option string := (name p, accession p).

(** Every [hmm] row under [gid] has its name and accession among [ks], and
    an identifier the handle gave out. *)
Definition covered (gid : Z) (ks : list (string * option string))
  (db : Database) : Prop :=
  forall r, In r (hmm_table db) -> r_hmm_db_id r = gid ->
            0 < r_id r /\ In (r_name r, r_accession r) ks.

(** The model [p] has its [hmm] row under [gid] and the [subpfam] row that
    ties it to its parent. *)
Definition linked (gid : Z) (db : Database) (p : HMM) : Prop :=
  In (mkSubpfamRow (id p) (parent_id p)) (subpfam_table db)
  /\ exists row, In row (hmm_table db) /\ r_id row = id p
                 /\ r_name row = name p /\ r_hmm_db_id row = gid.

(** What the loops of the inserting branch leave in a model: the group,
    the parent when there is one, and an identifier. *)
Definition biosyn_saved (gid : Z) (b b' : HMM) : Prop :=
  b' = set_id (id b') (set_db_id gid b).

Definition sub_saved (gid parent : Z) (s s' : HMM) : Prop :=
  s' = set_id (id s') (set_parent_id parent (set_db_id gid s)).

Definition family_saved (gid : Z) (db : Database)
  (entry entry' : string * list HMM) : Prop :=
  fst entry' = fst entry
  /\ exists prow rest,
       hmm_by_accession (fst entry) gid db = prow :: rest
       /\ Forall2 (sub_saved gid (r_id prow)) (snd entry) (snd entry')
       /\ Forall (resolved gid db) (snd entry').

(** The identifier a new [hmm_db] row gets, and the database with it. *)
Definition new_hmm_db_id (db : Database) : Z :=
  next_id (map r_db_id (hmm_db_table db)).

Definition with_new_hmm_db (self : HMMDatabase) (db : Database) : Database :=
  mkDatabase
    (hmm_db_table db
     ++ [mkHmmDbRow (new_hmm_db_id db) (md5_biosyn_pfam self)
                    (md5_sub_pfam self)])
    (hmm_table db) (subpfam_table db).


(** Two models that differ at most in their identifiers. *)
Definition same_record (p q : HMM) : Prop :=
  name p = name q /\ accession p = accession q
  /\ model_length p = model_length q.

(** Two entries with the same checksums and, position by position, the
    same records under the same keys. *)
Definition same_records (g h : HMMDatabase) : Prop :=
  md5_biosyn_pfam g = md5_biosyn_pfam h
  /\ md5_sub_pfam g = md5_sub_pfam h
  /\ Forall2 same_record (biosyn_pfams g) (biosyn_pfams h)
  /\ Forall2 (fun e f => fst e = fst f /\ Forall2 same_record (snd e) (snd f))
             (sub_pfams g) (sub_pfams h).

(** The identifiers an entry carries: its own, [id] of every top-level
    model, and [id] and [parent_id] of every sub-model, by key. *)
Definition identifiers (g : HMMDatabase)
  : Z * list Z * list (string * list (Z * Z)) :=
  (hmmdb_id g,
   map id (biosyn_pfams g),
   map (fun e => (fst e, map (fun s => (id s, parent_id s)) (snd e)))
       (sub_pfams g)).

(** Two outcomes of the same kind: results related by [R], or the same
    exception. *)
Definition alike {A} (R : A -> A -> Prop) (r1 r2 : result A) : Prop :=
  match r1, r2 with
  | Ok x, Ok y => R x y
  | Raise e1, Raise e2 => e1 = e2
  | _, _ => False
  end.

(** Same records and same identifiers: [id] for a top-level model, [id]
    and [parent_id] for a sub-model. *)
Definition same_top (p q : HMM) : Prop := same_record p q /\ id p = id q.

Definition same_sub (p q : HMM) : Prop :=
  same_record p q /\ id p = id q /\ parent_id p = parent_id q.

Definition same_family (e f : string * list HMM) : Prop :=
  fst e = fst f /\ Forall2 same_sub (snd e) (snd f).

(** The same records with the same identifiers. *)
Definition same_entry (g h : HMMDatabase) : Prop :=
  identifiers g = identifiers h /\ same_records g h.

(** A record as the parser makes it: no identifier assigned yet. *)
Definition unassigned (h : HMM) : Prop :=
  id h = -1 /\ parent_id h = -1 /\ db_id h = -1.

(** A line the loop of the parser passes over: it opens with none of the
    three keywords and is not the terminator. *)
Definition unrecognised (raw : string) : Prop :=
  Py.startswith (Py.rstrip raw) "NAME" = false
  /\ Py.startswith (Py.rstrip raw) "ACC" = false
  /\ Py.startswith (Py.rstrip raw) "LENG" = false
  /\ Py.rstrip raw <> "//".

(** A piece of text without newline. *)
Definition one_line (line : string) : Prop :=
  ~ In "010"%char (list_ascii_of_string line).

(** The number of terminator lines among the lines of a file. *)
Definition count_terminators (lines : list string) : nat :=
  length (filter (fun raw => (Py.rstrip raw =? "//")%string) lines).

(** A line that sets a field of the dict: it opens with one of the three
    keywords. *)
Definition sets_field (raw : string) : bool :=
  Py.startswith (Py.rstrip raw) "NAME"
  || Py.startswith (Py.rstrip raw) "ACC"
  || Py.startswith (Py.rstrip raw) "LENG".

(** Whether a block is open after the lines, given whether one was open
    before them: a line that sets a field opens a block, a terminator line
    closes it, any other line leaves it as it is. *)
Fixpoint block_open (lines : list string) (open : bool) : bool :=
  match lines with
  | [] => open
  | raw :: rest =>
      block_open rest
        (if sets_field raw then true
         else if (Py.rstrip raw =? "//")%string then false
         else open)
  end.

(** The rows matching a pair of checksums. *)
Definition hmm_db_by_checksums (md5_biosyn md5_sub : string) (db : Database)
  : list hmm_db_row :=
  filter (fun r => (r_md5_biosyn_pfam r =? md5_biosyn)%string
                   && (r_md5_sub_pfam r =? md5_sub)%string)
         (hmm_db_table db).

(** One row inserted the way [save] and [__save__] insert: an [hmm_db] row
    for checksums that have none, an [hmm] row under a stored entry for a
    name that has none there, a [subpfam] row for a stored model;
    identifiers are the next ones of their relation. *)
Inductive insertion : Database -> Database -> Prop :=
| insertion_hmm_db (db : Database) (md5_biosyn md5_sub : string) :
    hmm_db_by_checksums md5_biosyn md5_sub db = [] ->
    insertion db
      (mkDatabase
         (hmm_db_table db
          ++ [mkHmmDbRow (next_id (map r_db_id (hmm_db_table db)))
                         md5_biosyn md5_sub])
         (hmm_table db) (subpfam_table db))
| insertion_hmm (db : Database) (gid : Z) (nm : string)
    (acc : option string) (len : Z) :
    In gid (map r_db_id (hmm_db_table db)) ->
    hmm_by_name nm gid db = [] ->
    insertion db
      (mkDatabase (hmm_db_table db)
         (hmm_table db
          ++ [mkHmmRow (next_id (map r_id (hmm_table db))) gid nm acc len])
         (subpfam_table db))
| insertion_subpfam (db : Database) (i parent : Z) :
    In i (map r_id (hmm_table db)) ->
    insertion db
      (mkDatabase (hmm_db_table db) (hmm_table db)
         (subpfam_table db ++ [mkSubpfamRow i parent])).

(** Any number of such insertions, one after the other. *)
Inductive insertions : Database -> Database -> Prop :=
| insertions_none (db : Database) : insertions db db
| insertions_more (db1 db2 db3 : Database) :
    insertions db1 db2 -> insertion db2 db3 -> insertions db1 db3.

(** [db'] holds the rows of [db], in their places, and possibly more after
    them. *)
Definition extends (db db' : Database) : Prop :=
  (exists gs, hmm_db_table db' = (hmm_db_table db ++ gs)%list)
  /\ (exists hs, hmm_table db' = (hmm_table db ++ hs)%list)
  /\ (exists ss, subpfam_table db' = (subpfam_table db ++ ss)%list).

(** Every [subpfam] row is the row of a model in [hmm]. *)
Definition subpfam_integrity (db : Database) : Prop :=
  forall s, In s (subpfam_table db) ->
            In (r_hmm_id s) (map r_id (hmm_table db)).

(** No name has two rows under one entry. *)
Definition names_unique (db : Database) : Prop :=
  forall nm gid, (length (hmm_by_name nm gid db) <= 1)%nat.

(** No pair of checksums has two rows. *)
Definition checksums_unique (db : Database) : Prop :=
  forall md5_biosyn md5_sub,
    (length (hmm_db_by_checksums md5_biosyn md5_sub db) <= 1)%nat.

(** No identifier is used twice in [hmm_db], nor in [hmm]. *)
Definition ids_unique (db : Database) : Prop :=
  NoDup (map r_db_id (hmm_db_table db)) /\ NoDup (map r_id (hmm_table db)).

(** The state the loops of the inserting branch run in: names are unique
    and the entry [gid] is stored. *)
Definition stored_under (gid : Z) (d : Database) : Prop :=
  names_unique d /\ In gid (map r_db_id (hmm_db_table d)).

(** The models of a list that carry a parent. *)
Definition with_parent (hs : list HMM) : list HMM :=
  filter (fun h => -1 <? parent_id h) hs.

(** All the sub-models of an entry, key after key. *)
Definition all_sub_pfams (self : HMMDatabase) : list HMM :=
  concat (map snd (sub_pfams self)).

(** Two entries with the same checksums and, position by position, models
    of the same names under the same keys; accessions and model lengths may
    differ. *)
Definition same_names (g h : HMMDatabase) : Prop :=
  md5_biosyn_pfam g = md5_biosyn_pfam h
  /\ md5_sub_pfam g = md5_sub_pfam h
  /\ Forall2 (fun p q => name p = name q) (biosyn_pfams g) (biosyn_pfams h)
  /\ Forall2 (fun e f => fst e = fst f
                         /\ Forall2 (fun p q => name p = name q)
                                    (snd e) (snd f))
             (sub_pfams g) (sub_pfams h).

(** [sep] occurs somewhere in [s]. *)
Definition occurs (sep s : string) : Prop :=
  exists pre post, s = (pre ++ sep ++ post)%string.

(** A file name: no slash in it. *)
Definition no_slash (s : string) : Prop :=
  ~ In "/"%char (list_ascii_of_string s).

(** The pattern [load_folder] hands to [glob.glob]. *)
Definition sub_pfam_pattern (db_folder_path : string) : string :=
  Path.join db_folder_path ["sub_pfams"; "hmm"; "*.subpfams.hmm"].

(** The path of the file of top-level models. *)
Definition biosyn_pfam_path (db_folder_path : string) : string :=
  Path.join db_folder_path ["biosynthetic_pfams"; "Pfam-A.biosynthetic.hmm"].

(** The entry of the dict that a file of sub-models gives. *)
Definition entry_of_file (fs : FileSystem) (path : string)
  (entry : string * list HMM) : Prop :=
  fst entry = parent_acc_of path /\ from_path fs path = Done (snd entry).

(** A folder as [generate_databases.py] lays it out: two checksum files,
    the file of top-level models and two files of sub-models. *)
Definition sample_folder : FileSystem :=
  mkFileSystem
    (fun p =>
       if (p =? "db/biosynthetic_pfams/biopfam.md5sum")%string
       then Some ("0a1b" ++ nl)%string
       else if (p =? "db/sub_pfams/corepfam.md5sum")%string
       then Some ("2c3d" ++ nl)%string
       else if (p =? "db/biosynthetic_pfams/Pfam-A.biosynthetic.hmm")%string
       then Some ("NAME  AMP-binding" ++ nl ++ "ACC   PF00501.28" ++ nl
                  ++ "LENG  423" ++ nl ++ "//" ++ nl
                  ++ "NAME  ketoacyl-synt" ++ nl ++ "ACC   PF00109.26" ++ nl
                  ++ "LENG  253" ++ nl ++ "//" ++ nl)%string
       else if (p =? "db/sub_pfams/hmm/PF00501.28.subpfams.hmm")%string
       then Some ("NAME  AMP-binding_c0" ++ nl ++ "LENG  410" ++ nl
                  ++ "//" ++ nl)%string
       else if (p =? "db/sub_pfams/hmm/PF00109.26.subpfams.hmm")%string
       then Some ("NAME  ketoacyl-synt_c0" ++ nl ++ "LENG  250" ++ nl
                  ++ "//" ++ nl)%string
       else None)
    (fun pattern =>
       if (pattern =? "db/sub_pfams/hmm/*.subpfams.hmm")%string
       then ["db/sub_pfams/hmm/PF00501.28.subpfams.hmm";
             "db/sub_pfams/hmm/PF00109.26.subpfams.hmm"]
       else []).

(** * Properties of the parser *)

Section ParserLemmas.

Lemma append_assoc (a b c : string) : ((a ++ b) ++ c = a ++ (b ++ c))%string.
Proof. induction a as [|x a IH]; simpl; [reflexivity | now rewrite IH]. Qed.

Lemma append_nil_r (a : string) : (a ++ "")%string = a.
Proof. induction a as [|x a IH]; simpl; [reflexivity | now rewrite IH]. Qed.

Lemma readlines_nl_nonempty (s : string) : Py.readlines (s ++ nl) <> [].
Proof.
  destruct s as [|c s]; simpl; [discriminate|].
  destruct (c =? "010")%char; [discriminate|].
  destruct (Py.readlines (s ++ nl)); discriminate.
Qed.

Lemma readlines_app_nl (s t : string) :
  Py.readlines (s ++ nl ++ t) = (Py.readlines (s ++ nl) ++ Py.readlines t)%list.
Proof.
  induction s as [|c s IH]; [reflexivity|].
  change (Py.readlines (String c s ++ nl ++ t))
    with (if (c =? "010")%char
          then String c EmptyString :: Py.readlines (s ++ nl ++ t)
          else match Py.readlines (s ++ nl ++ t) with
               | [] => [String c EmptyString]
               | l :: ls => String c l :: ls
               end).
  change (Py.readlines (String c s ++ nl))
    with (if (c =? "010")%char
          then String c EmptyString :: Py.readlines (s ++ nl)
          else match Py.readlines (s ++ nl) with
               | [] => [String c EmptyString]
               | l :: ls => String c l :: ls
               end).
  rewrite IH. pose proof (readlines_nl_nonempty s) as Hne.
  destruct (c =? "010")%char; [reflexivity|].
  destruct (Py.readlines (s ++ nl)) as [|l ls]; [contradiction | reflexivity].
Qed.

Lemma parse_lines_app (l1 l2 : list string) (st : properties * list HMM) :
  parse_lines (l1 ++ l2) st = bind_result (parse_lines l1 st) (parse_lines l2).
Proof.
  revert st; induction l1 as [|raw l1 IH]; intros st; simpl; [reflexivity|].
  destruct (parse_line raw st) as [st'|e]; simpl; [apply IH | reflexivity].
Qed.

Lemma parse_line_prepend (pre : list HMM) (raw : string) (p : properties)
  (rs : list HMM) :
  parse_line raw (p, (pre ++ rs)%list)
  = bind_result (parse_line raw (p, rs)) (prepend pre).
Proof.
  unfold parse_line.
  destruct (Py.startswith (Py.rstrip raw) "NAME"); [reflexivity|].
  destruct (Py.startswith (Py.rstrip raw) "ACC"); [reflexivity|].
  destruct (Py.startswith (Py.rstrip raw) "LENG").
  - destruct (Py.int _); reflexivity.
  - destruct (Py.rstrip raw =? "//")%string; [|reflexivity].
    destruct (HMM_init p); simpl; [|reflexivity].
    unfold prepend; simpl. now rewrite app_assoc.
Qed.

Lemma parse_lines_prepend (pre : list HMM) (lines : list string)
  (p : properties) (rs : list HMM) :
  parse_lines lines (p, (pre ++ rs)%list)
  = bind_result (parse_lines lines (p, rs)) (prepend pre).
Proof.
  revert p rs; induction lines as [|raw lines IH]; intros p rs; simpl.
  - reflexivity.
  - rewrite parse_line_prepend.
    destruct (parse_line raw (p, rs)) as [[p' rs']|e]; simpl;
      [apply IH | reflexivity].
Qed.

Lemma finish_prepend (pre : list HMM) (st : properties * list HMM) :
  bind_result (prepend pre st) finish
  = bind_result (finish st) (fun rs => Ok (pre ++ rs)%list).
Proof.
  destruct st as [p rs]; unfold prepend, finish; simpl.
  destruct (nonempty p); [|reflexivity].
  destruct (HMM_init p); simpl; [now rewrite app_assoc | reflexivity].
Qed.

(** The terminator line, met with a dict that makes a record. *)
Lemma parse_terminator (st : properties * list HMM) :
  parse_line ("//" ++ nl) st
  = bind_result (HMM_init (fst st))
      (fun h => Ok (no_properties, (snd st ++ [h])%list)).
Proof. destruct st as [p rs]; reflexivity. Qed.

(** After a terminated text that parses, the dict is [{}] again and the
    records are those [from_file] returns. *)
Lemma parse_lines_terminated (content : string) (rs : list HMM) :
  terminated content -> from_file content = Ok rs ->
  parse_lines (Py.readlines content) initial = Ok (no_properties, rs).
Proof.
  intros [body ->] H. unfold from_file in H. unfold initial.
  rewrite readlines_app_nl, parse_lines_app in *.
  destruct (parse_lines (Py.readlines (body ++ nl)) (no_properties, []))
    as [st|e]; simpl in *; [|discriminate].
  change (Py.readlines ("//" ++ nl)) with ["//" ++ nl]%string in *.
  simpl parse_lines in *. rewrite parse_terminator in *.
  destruct (HMM_init (fst st)) as [h|e]; simpl in *; [|discriminate].
  now inversion H.
Qed.

Lemma terminated_ends_nl (content : string) :
  terminated content -> exists s, content = (s ++ nl)%string.
Proof.
  intros [body ->]. exists (body ++ nl ++ "//")%string.
  now rewrite !append_assoc.
Qed.

(** Parsing a text put after a terminated one that parses to [rs]. *)
Lemma parse_lines_after_terminated (pre tail : string) (rs : list HMM) :
  terminated pre -> from_file pre = Ok rs ->
  parse_lines (Py.readlines (pre ++ tail)) initial
  = bind_result (parse_lines (Py.readlines tail) initial) (prepend rs).
Proof.
  intros Ht Hp. pose proof (parse_lines_terminated _ _ Ht Hp) as Hst.
  destruct (terminated_ends_nl _ Ht) as [s ->].
  rewrite append_assoc, readlines_app_nl, parse_lines_app, Hst. simpl.
  rewrite <- (app_nil_r rs) at 1. apply parse_lines_prepend.
Qed.

Lemma from_file_after_terminated (pre tail : string) (rs : list HMM) :
  terminated pre -> from_file pre = Ok rs ->
  from_file (pre ++ tail)
  = bind_result (from_file tail) (fun rs' => Ok (rs ++ rs')%list).
Proof.
  intros Ht Hp. unfold from_file. fold initial.
  rewrite (parse_lines_after_terminated _ _ _ Ht Hp).
  destruct (parse_lines (Py.readlines tail) initial) as [st|e];
    cbn [bind_result]; [apply finish_prepend | reflexivity].
Qed.

End ParserLemmas.

Section SplitLemmas.

Lemma split_nonempty (sep : ascii) (s : string) : Py.split sep s <> [].
Proof.
  destruct s as [|c s]; simpl; [discriminate|].
  destruct (c =? sep)%char; [discriminate|].
  destruct (Py.split sep s); discriminate.
Qed.

(** Joining the fields with the separator gives the string back. *)
Lemma split_concat (s : string) :
  String.concat " " (Py.split " " s) = s.
Proof.
  induction s as [|c s IH]; [reflexivity|].
  cbn [Py.split]. pose proof (split_nonempty " " s) as Hne.
  destruct (Ascii.eqb_spec c " ") as [->|Hc].
  - destruct (Py.split " " s) as [|w ws]; [contradiction|].
    change (String.concat " " ("" :: w :: ws))
      with ("" ++ " " ++ String.concat " " (w :: ws))%string.
    now rewrite IH.
  - destruct (Py.split " " s) as [|w ws]; [contradiction|].
    destruct ws as [|w' ws].
    + simpl in *. now rewrite IH.
    + change (String.concat " " (String c w :: w' :: ws))
        with (String c (w ++ " " ++ String.concat " " (w' :: ws)))%string.
      change (String.concat " " (w :: w' :: ws))
        with (w ++ " " ++ String.concat " " (w' :: ws))%string in IH.
      now rewrite IH.
Qed.

Lemma split_space_free (s : string) :
  Forall (fun w => ~ In " "%char (list_ascii_of_string w)) (Py.split " " s).
Proof.
  induction s as [|c s IH]; cbn [Py.split].
  - constructor; [intros [] | constructor].
  - destruct (Ascii.eqb_spec c " ") as [->|Hc].
    + constructor; [intros [] | exact IH].
    + destruct (Py.split " " s) as [|w ws]; inversion IH; subst.
      * constructor; [|constructor]. simpl. intros [E|[]]. now apply Hc.
      * constructor; [|assumption]. simpl. intros [E|E]; [now apply Hc | tauto].
Qed.

Lemma last_space_field_concat (l : list string) :
  l <> [] ->
  Forall (fun w => ~ In " "%char (list_ascii_of_string w)) l ->
  last_space_field (String.concat " " l) (Py.last_item l).
Proof.
  unfold Py.last_item.
  induction l as [|x l IH]; [contradiction|]; intros _ Hall.
  inversion Hall as [|? ? Hx Hl]; subst.
  destruct l as [|y l].
  - split; [exact Hx | now left].
  - destruct (IH ltac:(discriminate) Hl) as [Hv [E|[pre E]]].
    + split; [exact Hv|]. right. exists x.
      change (String.concat " " (x :: y :: l))
        with (x ++ " " ++ String.concat " " (y :: l))%string.
      now rewrite E.
    + split; [exact Hv|]. right. exists (x ++ " " ++ pre)%string.
      change (String.concat " " (x :: y :: l))
        with (x ++ " " ++ String.concat " " (y :: l))%string.
      rewrite E. now rewrite !append_assoc.
Qed.

(** [line.split(" ")[-1]] is what follows the last space of [line]. *)
Lemma split_last_space_field (line : string) :
  last_space_field line (Py.last_item (Py.split " " line)).
Proof.
  rewrite <- (split_concat line) at 1.
  apply last_space_field_concat; [apply split_nonempty | apply split_space_free].
Qed.

Lemma in_append_space (a b : string) :
  In " "%char (list_ascii_of_string (a ++ " " ++ b)).
Proof. induction a as [|c a IH]; simpl; [now left | now right]. Qed.

(** The field after the last space is determined by the line. *)
Lemma last_space_field_unique (line v v' : string) :
  last_space_field line v -> last_space_field line v' -> v = v'.
Proof.
  intros [Hv [E|[pre E]]] [Hv' [E'|[pre' E']]]; subst.
  - reflexivity.
  - exfalso. apply Hv. apply in_append_space.
  - exfalso. apply Hv'. apply in_append_space.
  - revert pre' E'. induction pre as [|c pre IH]; intros [|c' pre'] E'.
    + now inversion E'.
    + exfalso. inversion E'; subst. apply Hv. apply in_append_space.
    + exfalso. inversion E'; subst. apply Hv'. apply in_append_space.
    + inversion E'; subst. eapply IH; eassumption.
Qed.

Lemma rstrip_idempotent (s : string) : Py.rstrip (Py.rstrip s) = Py.rstrip s.
Proof.
  induction s as [|c s IH]; [reflexivity|]. cbn [Py.rstrip].
  destruct (Py.rstrip s) as [|d r] eqn:E.
  - destruct (Py.isspace c) eqn:Ec; [reflexivity|].
    cbn [Py.rstrip]. now rewrite Ec.
  - cbn [Py.rstrip] in *. now rewrite IH.
Qed.

(** The end of a string without trailing whitespace has none either. *)
Lemma rstrip_fixed_suffix (a b : string) :
  Py.rstrip (a ++ b) = (a ++ b)%string -> Py.rstrip b = b.
Proof.
  induction a as [|c a IH]; cbn [append]; [auto|].
  cbn [Py.rstrip]. destruct (Py.rstrip (a ++ b)) as [|d r] eqn:E.
  - destruct (Py.isspace c); [discriminate|].
    intros H. injection H as H. destruct a; [|discriminate H].
    cbn [append] in H. now subst b.
  - intros H. injection H as H. apply IH. exact H.
Qed.

(** The field after the last space of a stripped line is stripped: the
    [rstrip()] that the code applies to it before [int()] changes
    nothing. *)
Lemma last_space_field_stripped (raw v : string) :
  last_space_field (Py.rstrip raw) v -> Py.rstrip v = v.
Proof.
  intros [_ [E|[pre E]]].
  - rewrite <- E. apply rstrip_idempotent.
  - apply (rstrip_fixed_suffix (pre ++ " ")).
    rewrite append_assoc, <- E. apply rstrip_idempotent.
Qed.

(** [int()] fails with [ValueError] and with nothing else. *)
Lemma int_raises_ValueError (s : string) (e : exn) :
  Py.int s = Raise e -> e = ValueError.
Proof.
  unfold Py.int.
  destruct (Py.skip_leading _ _) as [|c u]; [now inversion 1|].
  destruct (c =? "+")%char; [|destruct (c =? "-")%char];
    match goal with |- context [Py.digits ?a ?b ?u] =>
      destruct (Py.digits a b u) end;
    try match goal with |- context [Py.digit_count ?u <=? ?m] =>
      destruct (Py.digit_count u <=? m) end; now inversion 1.
Qed.

Lemma startswith_ACC_not_NAME (line : string) :
  Py.startswith line "ACC" = true -> Py.startswith line "NAME" = false.
Proof.
  unfold Py.startswith. destruct line as [|a line]; [discriminate|].
  cbn [prefix].
  destruct (ascii_dec "A" a) as [<-|]; [|discriminate]. intros _.
  destruct (ascii_dec "N" "A"); [discriminate | reflexivity].
Qed.

Lemma startswith_LENG_not_NAME_ACC (line : string) :
  Py.startswith line "LENG" = true ->
  Py.startswith line "NAME" = false /\ Py.startswith line "ACC" = false.
Proof.
  unfold Py.startswith. destruct line as [|a line]; [discriminate|].
  cbn [prefix].
  destruct (ascii_dec "L" a) as [<-|]; [|discriminate]. intros _.
  destruct (ascii_dec "N" "L"); [discriminate|].
  destruct (ascii_dec "A" "L"); [discriminate|]. now split.
Qed.

End SplitLemmas.

(** * The parser: claims *)

Lemma from_file_empty : from_file "" = Ok [].
Proof. reflexivity. Qed.

(** C7. The text [NAME foo\nACC PF00001\nLENG 120\n//\n] parses to exactly
    one record, with name "foo", accession "PF00001" and model length 120;
    and two terminated blocks, each parsing to one record, put one after the
    other parse to exactly these two records, in the order of the file. *)
Theorem from_file_round_trip :
  from_file ("NAME foo" ++ nl ++ "ACC PF00001" ++ nl ++ "LENG 120" ++ nl
             ++ "//" ++ nl)
  = Ok [mkHMM (-1) (-1) (-1) (Some "PF00001") "foo" 120]
  /\ forall (b1 b2 : string) (h1 h2 : HMM),
       terminated b1 -> terminated b2 ->
       from_file b1 = Ok [h1] -> from_file b2 = Ok [h2] ->
       from_file (b1 ++ b2) = Ok [h1; h2].
Proof.
  split; [reflexivity|].
  intros b1 b2 h1 h2 T1 _ P1 P2.
  rewrite (from_file_after_terminated _ _ _ T1 P1), P2. reflexivity.
Qed.

Lemma from_file_round_trip_witness :
  let b1 := ("NAME foo" ++ nl ++ "ACC PF00001" ++ nl ++ "LENG 120" ++ nl
             ++ "//" ++ nl)%string in
  let b2 := ("NAME bar" ++ nl ++ "LENG 50" ++ nl ++ "//" ++ nl)%string in
  from_file (b1 ++ b2)
  = Ok [mkHMM (-1) (-1) (-1) (Some "PF00001") "foo" 120;
        mkHMM (-1) (-1) (-1) None "bar" 50].
Proof.
  intros b1 b2.
  apply (proj2 from_file_round_trip b1 b2).
  - exists ("NAME foo" ++ nl ++ "ACC PF00001" ++ nl ++ "LENG 120")%string.
    reflexivity.
  - exists ("NAME bar" ++ nl ++ "LENG 50")%string. reflexivity.
  - reflexivity.
  - reflexivity.
Defined.

(** C8, as stated, fails: a trailing block that sets a name but no model
    length has a field set, yet no trailing record comes out; building the
    record raises [KeyError]. *)
Lemma trailing_block_without_length_raises :
  parse_lines (Py.readlines ("NAME bar" ++ nl)) initial
  = Ok (mkProps (Some "bar") None None, [])
  /\ from_file ("NAME bar" ++ nl) = Raise (KeyError "model_length").
Proof. split; reflexivity. Qed.

(** C8, amended. Take a text made of a part that is empty or terminated and
    parses to [rs], followed by a block without terminator whose lines set
    the fields [props].  If the block sets no field, the result is [rs] and
    nothing more.  If it sets some field, a last record is built from it: it
    is emitted after [rs] when both the name and the model length are set,
    and [KeyError] is raised when one of them is missing. *)
Theorem from_file_trailing_block (pre tail : string) (rs : list HMM)
  (props : properties) :
  pre = "" \/ terminated pre ->
  from_file pre = Ok rs ->
  parse_lines (Py.readlines tail) initial = Ok (props, []) ->
  from_file (pre ++ tail)
  = if nonempty props then
      match p_name props, p_model_length props with
      | Some n, Some len =>
          Ok (rs ++ [mkHMM (-1) (-1) (-1) (p_accession props) n len])%list
      | None, _ => Raise (KeyError "name")
      | Some _, None => Raise (KeyError "model_length")
      end
    else Ok rs.
Proof.
  intros Hpre Hp Ht.
  assert (E : from_file (pre ++ tail)
              = bind_result (from_file tail) (fun rs' => Ok (rs ++ rs')%list)).
  { destruct Hpre as [->|T].
    - rewrite from_file_empty in Hp. inversion Hp; subst. simpl.
      destruct (from_file tail); reflexivity.
    - now apply from_file_after_terminated. }
  rewrite E. unfold from_file. fold initial. rewrite Ht.
  cbn [bind_result finish]. destruct (nonempty props).
  - unfold HMM_init. destruct (p_name props); [|reflexivity].
    destruct (p_model_length props); reflexivity.
  - cbn [bind_result]. now rewrite app_nil_r.
Qed.

Lemma from_file_trailing_block_witness :
  from_file (("NAME foo" ++ nl ++ "LENG 120" ++ nl ++ "//" ++ nl)
             ++ ("NAME bar" ++ nl ++ "LENG 50" ++ nl))
  = Ok [mkHMM (-1) (-1) (-1) None "foo" 120;
        mkHMM (-1) (-1) (-1) None "bar" 50].
Proof.
  apply (from_file_trailing_block
           ("NAME foo" ++ nl ++ "LENG 120" ++ nl ++ "//" ++ nl)
           ("NAME bar" ++ nl ++ "LENG 50" ++ nl)
           [mkHMM (-1) (-1) (-1) None "foo" 120]
           (mkProps (Some "bar") None (Some 50))).
  - right. exists ("NAME foo" ++ nl ++ "LENG 120")%string. reflexivity.
  - reflexivity.
  - reflexivity.
Defined.

(** [int()] does not skip the separators U+001C to U+001F, which
    [rstrip()] removes: at the end of the line they are gone before the
    length is read, in front of the digits they make it a [ValueError]. *)
Lemma length_after_separator_raises :
  from_file ("NAME foo" ++ nl ++ "LENG " ++ String "031" "7" ++ nl
             ++ "//" ++ nl)
  = Raise ValueError
  /\ from_file ("NAME foo" ++ nl ++ "LENG 7" ++ String "031" "" ++ nl
                ++ "//" ++ nl)
     = Ok [mkHMM (-1) (-1) (-1) None "foo" 7].
Proof. split; reflexivity. Qed.

(** C9, as stated, fails: with a tab between [NAME] and the value the whole
    line becomes the name, and with a tab after [LENG] the length is not
    read at all. *)
Lemma tab_separated_fields_not_split :
  from_file ("NAME" ++ tab ++ "foo" ++ nl ++ "LENG 5" ++ nl ++ "//" ++ nl)
  = Ok [mkHMM (-1) (-1) (-1) None ("NAME" ++ tab ++ "foo") 5]
  /\ ("NAME" ++ tab ++ "foo")%string <> "foo"
  /\ from_file ("NAME foo" ++ nl ++ "LENG" ++ tab ++ "5" ++ nl ++ "//" ++ nl)
     = Raise ValueError.
Proof. split; [reflexivity | split; [discriminate | reflexivity]]. Qed.

(** C9, amended. Let [v] be what follows the last space character of a line
    once its trailing whitespace is removed (the whole line when it holds no
    space).  A line that starts with [NAME] sets the name to [v], one that
    starts with [ACC] sets the accession to [v], and one that starts with
    [LENG] sets the model length to [int(v)], raising [ValueError] when [v]
    is not an integer; the other fields and the records are left alone. *)
Theorem parse_line_last_space_field (raw v : string) (props : properties)
  (results : list HMM) :
  last_space_field (Py.rstrip raw) v ->
  (Py.startswith (Py.rstrip raw) "NAME" = true ->
   parse_line raw (props, results)
   = Ok (mkProps (Some v) (p_accession props) (p_model_length props),
         results))
  /\ (Py.startswith (Py.rstrip raw) "ACC" = true ->
      parse_line raw (props, results)
      = Ok (mkProps (p_name props) (Some v) (p_model_length props), results))
  /\ (Py.startswith (Py.rstrip raw) "LENG" = true ->
      parse_line raw (props, results)
      = match Py.int v with
        | Ok len =>
            Ok (mkProps (p_name props) (p_accession props) (Some len),
                results)
        | Raise _ => Raise ValueError
        end).
Proof.
  intros Hv.
  assert (E : Py.last_item (Py.split " " (Py.rstrip raw)) = v)
    by (eapply last_space_field_unique;
        [apply split_last_space_field | exact Hv]).
  unfold parse_line. rewrite E. repeat split.
  - now intros ->.
  - intros H. now rewrite (startswith_ACC_not_NAME _ H), H.
  - intros H. destruct (startswith_LENG_not_NAME_ACC _ H) as [-> ->].
    rewrite H, (last_space_field_stripped _ _ Hv).
    destruct (Py.int v) as [len|e] eqn:Ei; [reflexivity|].
    now rewrite (int_raises_ValueError _ _ Ei).
Qed.

Lemma parse_line_last_space_field_witness :
  parse_line ("LENG  120" ++ nl) (mkProps (Some "foo") None None, [])
  = Ok (mkProps (Some "foo") None (Some 120), []).
Proof.
  refine (proj2 (proj2 (parse_line_last_space_field
                          ("LENG  120" ++ nl) "120"
                          (mkProps (Some "foo") None None) [] _)) _).
  - split.
    + simpl. intros [H|[H|[H|[]]]]; discriminate H.
    + right. exists "LENG "%string. reflexivity.
  - reflexivity.
Defined.

(** * Properties of the reconciliation *)

Section GatewayLemmas.

Lemma next_id_bounds (ids : list Z) :
  0 < next_id ids /\ forall i, In i ids -> i < next_id ids.
Proof.
  unfold next_id. induction ids as [|x ids [IH1 IH2]]; cbn [fold_right In].
  - split; [lia | intros i []].
  - split; [lia|]. intros i [<-|Hi]; [lia|]. specialize (IH2 i Hi). lia.
Qed.

Lemma next_id_fresh (ids : list Z) : ~ In (next_id ids) ids.
Proof. intros H. apply next_id_bounds in H. lia. Qed.

(** Every insert adds exactly one row. *)
Lemma insert_hmm_db_row_count (a b : string) (db : Database) :
  row_count (fst (insert_hmm_db a b db)) = S (row_count db).
Proof. unfold row_count; simpl. rewrite length_app; simpl. lia. Qed.

Lemma insert_hmm_row_count (gid : Z) (nm : string) (acc : option string)
  (len : Z) (db : Database) :
  row_count (fst (insert_hmm gid nm acc len db)) = S (row_count db).
Proof. unfold row_count; simpl. rewrite length_app; simpl. lia. Qed.

Lemma insert_subpfam_row_count (i p : Z) (db : Database) :
  row_count (fst (insert_subpfam i p db)) = S (row_count db).
Proof. unfold row_count; simpl. rewrite length_app; simpl. lia. Qed.

(** What [__save__] does, by the rows its query returns. *)
Lemma HMM_save_cases (self : HMM) (db : Database) :
  -1 < db_id self ->
  HMM_save self db
  = match hmm_by_name (name self) (db_id self) db with
    | [] =>
        (with_new_hmm self db,
         Ok (set_id (next_id (map r_id (hmm_table db))) self))
    | [row] =>
        if model_length self =? r_model_length row
        then (db, Ok (set_id (r_id row) self))
        else (db, Raise (Exception (conflict_message (name self))))
    | _ :: _ :: _ => (db, Raise AssertionError)
    end.
Proof.
  intros Hid. apply Z.ltb_lt in Hid.
  unfold HMM_save, bind, assert, select_hmm_by_name. rewrite Hid. simpl.
  destruct (hmm_by_name (name self) (db_id self) db) as [|row [|row' rest]];
    simpl.
  - unfold with_new_hmm. destruct (-1 <? parent_id self); reflexivity.
  - destruct (model_length self =? r_model_length row); reflexivity.
  - reflexivity.
Qed.

Lemma HMM_save_unassigned (self : HMM) (db : Database) :
  db_id self <= -1 -> HMM_save self db = (db, Raise AssertionError).
Proof.
  intros Hid. apply Z.ltb_ge in Hid.
  unfold HMM_save, bind, assert. now rewrite Hid.
Qed.

End GatewayLemmas.

(** ** The branch of [save] that only looks up *)

Section LookupLemmas.

Lemma for_each_pure {A B} (f : A -> M B) (g : A -> result B) (db : Database)
  (l : list A) :
  (forall a, f a db = (db, g a)) ->
  for_each f l db = (db, map_result g l).
Proof.
  intros Hf. induction l as [|a l IH]; [reflexivity|].
  cbn [for_each map_result]. unfold bind at 1. rewrite Hf.
  destruct (g a) as [b|e]; cbn [bind_result]; [|reflexivity].
  unfold bind at 1. rewrite IH.
  destruct (map_result g l); reflexivity.
Qed.

Lemma map_result_raises {A B} (g : A -> result B) (l : list A) (a : A) :
  In a l -> is_ok (g a) = false -> is_ok (map_result g l) = false.
Proof.
  induction l as [|x l IH]; [intros []|]. intros [->|Hin] Ha; cbn [map_result].
  - destruct (g a); [discriminate | reflexivity].
  - destruct (g x); cbn [bind_result]; [|reflexivity].
    specialize (IH Hin Ha). destruct (map_result g l);
      [discriminate | reflexivity].
Qed.

Lemma map_result_exn {A B} (g : A -> result B) (l : list A) (e0 : exn) :
  (forall a e, g a = Raise e -> e = e0) ->
  forall e, map_result g l = Raise e -> e = e0.
Proof.
  intros Hg. induction l as [|x l IH]; cbn [map_result]; [discriminate|].
  intros e. destruct (g x) as [b|e'] eqn:Ex; cbn [bind_result].
  - destruct (map_result g l) as [bs|e'']; cbn [bind_result];
      [discriminate|]. intros H; inversion H; subst. now apply IH.
  - intros H; inversion H; subst. eapply Hg; eassumption.
Qed.

Lemma rehydrate_biosyn_run (gid : Z) (b : HMM) (db : Database) :
  rehydrate_biosyn gid b db = (db, lookup_biosyn gid db b).
Proof.
  unfold rehydrate_biosyn, lookup_biosyn, bind, select_hmm_by_name.
  destruct (hmm_by_name (name b) gid db); reflexivity.
Qed.

Lemma rehydrate_sub_run (gid parent : Z) (s : HMM) (db : Database) :
  rehydrate_sub gid parent s db = (db, lookup_sub gid parent db s).
Proof.
  unfold rehydrate_sub, lookup_sub, bind, select_hmm_subpfam. simpl.
  destruct (hmm_join_subpfam parent (name s) gid db); reflexivity.
Qed.

Lemma rehydrate_family_run (gid : Z) (entry : string * list HMM)
  (db : Database) :
  rehydrate_family gid entry db = (db, lookup_family gid db entry).
Proof.
  destruct entry as [acc subs].
  unfold rehydrate_family, lookup_family, bind, select_hmm_by_accession.
  cbn [fst snd].
  destruct (hmm_by_accession acc gid db) as [|r rows]; [reflexivity|].
  cbn [first_row ret].
  rewrite (for_each_pure _ (lookup_sub gid (r_id r) db))
    by (intros; apply rehydrate_sub_run).
  destruct (map_result _ subs); reflexivity.
Qed.

(** With an [hmm_db] row for the checksums, [save] leaves the database as
    it is and returns what the lookups give. *)
Lemma save_existing_run (self : HMMDatabase) (db : Database)
  (row : hmm_db_row) (rest : list hmm_db_row) :
  snd (select_hmm_db (md5_biosyn_pfam self) (md5_sub_pfam self) db)
  = Ok (row :: rest) ->
  save self db
  = (db, match rest with
         | [] => lookup_all (r_db_id row) db self
         | _ :: _ => Raise AssertionError
         end).
Proof.
  unfold save, bind at 1. unfold select_hmm_db. cbn [snd].
  intros H; inversion H as [H']; clear H. rewrite H'.
  destruct rest as [|row' rest]; [|reflexivity].
  cbn [length Nat.eqb assert]. unfold bind at 1. cbn [ret].
  unfold bind at 1.
  rewrite (for_each_pure _ (lookup_biosyn (r_db_id row) db))
    by (intros; apply rehydrate_biosyn_run).
  unfold lookup_all.
  destruct (map_result (lookup_biosyn _ db) _) as [biosyn|e];
    cbn [bind_result]; [|reflexivity].
  unfold bind at 1.
  rewrite (for_each_pure _ (lookup_family (r_db_id row) db))
    by (intros; apply rehydrate_family_run).
  destruct (map_result (lookup_family _ db) _); reflexivity.
Qed.

Lemma lookup_biosyn_exn (gid : Z) (db : Database) (b : HMM) (e : exn) :
  lookup_biosyn gid db b = Raise e -> e = IndexError.
Proof.
  unfold lookup_biosyn. destruct (hmm_by_name _ _ _); now inversion 1.
Qed.

Lemma lookup_sub_exn (gid parent : Z) (db : Database) (s : HMM) (e : exn) :
  lookup_sub gid parent db s = Raise e -> e = IndexError.
Proof.
  unfold lookup_sub. destruct (hmm_join_subpfam _ _ _ _); now inversion 1.
Qed.

Lemma lookup_family_exn (gid : Z) (db : Database)
  (entry : string * list HMM) (e : exn) :
  lookup_family gid db entry = Raise e -> e = IndexError.
Proof.
  unfold lookup_family. destruct (hmm_by_accession _ _ _) as [|r rows];
    [now inversion 1|].
  destruct (map_result _ _) as [subs|e'] eqn:E; cbn [bind_result];
    [discriminate|].
  intros H; inversion H; subst.
  eapply map_result_exn; [|exact E]. intros a e0. apply lookup_sub_exn.
Qed.

Lemma lookup_all_exn (gid : Z) (db : Database) (self : HMMDatabase)
  (e : exn) :
  lookup_all gid db self = Raise e -> e = IndexError.
Proof.
  unfold lookup_all.
  destruct (map_result (lookup_biosyn gid db) _) as [biosyn|e1] eqn:E1;
    cbn [bind_result].
  - destruct (map_result (lookup_family gid db) _) as [subs|e2] eqn:E2;
      cbn [bind_result]; [discriminate|].
    intros H; inversion H; subst.
    eapply map_result_exn; [|exact E2]. intros a e0. apply lookup_family_exn.
  - intros H; inversion H; subst.
    eapply map_result_exn; [|exact E1]. intros a e0. apply lookup_biosyn_exn.
Qed.

End LookupLemmas.

(** * The member-level save: claims *)

(** C2. Let the query of [__save__] for the name and group of a model
    return one stored row.  If the stored model length differs, the call
    raises the conflict exception and the database is as before; if it is
    equal, the call returns the model with the identifier of the row as its
    [id] and its other fields as they were, and the database is as before,
    so nothing is inserted. *)
Theorem HMM_save_existing_row (self : HMM) (db : Database) (row : hmm_row) :
  -1 < db_id self ->
  hmm_by_name (name self) (db_id self) db = [row] ->
  (model_length self <> r_model_length row ->
   HMM_save self db
   = (db, Raise (Exception (conflict_message (name self)))))
  /\ (model_length self = r_model_length row ->
      exists self',
        HMM_save self db = (db, Ok self')
        /\ id self' = r_id row
        /\ self' = mkHMM (r_id row) (parent_id self) (db_id self)
                         (accession self) (name self) (model_length self)).
Proof.
  intros Hid Hrow. rewrite (HMM_save_cases _ _ Hid), Hrow. split; intros H.
  - apply Z.eqb_neq in H. now rewrite H.
  - apply Z.eqb_eq in H. rewrite H. cbn [negb].
    eexists. split; [reflexivity|]. split; reflexivity.
Qed.

Lemma HMM_save_existing_row_witness :
  let stored := mkHmmRow 7 1 "pfamX" None 100 in
  let db := mkDatabase [mkHmmDbRow 1 "a" "b"] [stored] [] in
  HMM_save (mkHMM (-1) (-1) 1 None "pfamX" 200) db
  = (db, Raise (Exception "conflicting HMM entry for pfamX"))
  /\ exists self',
       HMM_save (mkHMM (-1) 3 1 (Some "PF9") "pfamX" 100) db = (db, Ok self')
       /\ id self' = 7
       /\ self' = mkHMM 7 3 1 (Some "PF9") "pfamX" 100.
Proof.
  intros stored db. split.
  - refine (proj1 (HMM_save_existing_row
                     (mkHMM (-1) (-1) 1 None "pfamX" 200) db stored _ _) _).
    + reflexivity.
    + reflexivity.
    + discriminate.
  - refine (proj2 (HMM_save_existing_row
                     (mkHMM (-1) 3 1 (Some "PF9") "pfamX" 100) db stored _ _) _).
    + reflexivity.
    + reflexivity.
    + reflexivity.
Defined.

(** C10. When [__save__] finds one row of equal model length and takes its
    identifier, the database is as before, whatever [parent_id] is: the
    [subpfam] relation is untouched, and a relation row from the adopted
    identifier to [parent_id] that was missing is still missing. *)
Theorem HMM_save_adopt_inserts_no_relation (self : HMM) (db : Database)
  (row : hmm_row) :
  -1 < db_id self ->
  hmm_by_name (name self) (db_id self) db = [row] ->
  model_length self = r_model_length row ->
  fst (HMM_save self db) = db
  /\ snd (HMM_save self db) = Ok (set_id (r_id row) self)
  /\ row_count (fst (HMM_save self db)) = row_count db
  /\ subpfam_table (fst (HMM_save self db)) = subpfam_table db
  /\ (~ In (mkSubpfamRow (r_id row) (parent_id self)) (subpfam_table db) ->
      ~ In (mkSubpfamRow (r_id row) (parent_id self))
           (subpfam_table (fst (HMM_save self db)))).
Proof.
  intros Hid Hrow Hlen. apply Z.eqb_eq in Hlen.
  rewrite (HMM_save_cases _ _ Hid), Hrow, Hlen.
  cbn [fst snd]. repeat split; auto.
Qed.

Lemma HMM_save_adopt_inserts_no_relation_witness :
  let stored := mkHmmRow 7 1 "pfamA.1" None 100 in
  let db := mkDatabase [mkHmmDbRow 1 "a" "b"] [stored] [] in
  let self := mkHMM (-1) 3 1 None "pfamA.1" 100 in
  fst (HMM_save self db) = db
  /\ ~ In (mkSubpfamRow 7 3) (subpfam_table (fst (HMM_save self db))).
Proof.
  intros stored db self.
  pose proof (HMM_save_adopt_inserts_no_relation self db stored
                eq_refl eq_refl eq_refl) as H.
  split; [exact (proj1 H)|].
  apply (proj2 (proj2 (proj2 (proj2 H)))). intros [].
Defined.

(** On the other path, a fresh row, the relation row is inserted when the
    model has a parent. *)
Lemma HMM_save_fresh_inserts_relation (self : HMM) (db : Database) :
  -1 < db_id self -> -1 < parent_id self ->
  hmm_by_name (name self) (db_id self) db = [] ->
  exists i, snd (HMM_save self db) = Ok (set_id i self)
            /\ In (mkSubpfamRow i (parent_id self))
                  (subpfam_table (fst (HMM_save self db))).
Proof.
  intros Hid Hp Hnone. rewrite (HMM_save_cases _ _ Hid), Hnone.
  eexists; split; [reflexivity|]. cbn [fst with_new_hmm subpfam_table].
  apply Z.ltb_lt in Hp. rewrite Hp. apply in_or_app. right. now left.
Qed.

(** * The group-level save, lookup branch: claims *)

(** C4. When [save] finds an [hmm_db] row for the checksums, the database
    after the call, whether it returns or raises, is the database before
    it: no row is inserted in any relation and none is changed. *)
Theorem save_existing_group_read_only (self : HMMDatabase) (db : Database)
  (row : hmm_db_row) (rest : list hmm_db_row) :
  snd (select_hmm_db (md5_biosyn_pfam self) (md5_sub_pfam self) db)
  = Ok (row :: rest) ->
  fst (save self db) = db
  /\ row_count (fst (save self db)) = row_count db.
Proof.
  intros H. rewrite (save_existing_run _ _ _ _ H). now split.
Qed.

Lemma save_existing_group_read_only_witness :
  let db := mkDatabase [mkHmmDbRow 1 "a" "b"]
                       [mkHmmRow 1 1 "pfamA" (Some "PF1") 10] [] in
  let self := mkHMMDatabase (-1) "a" "b"
                [mkHMM (-1) (-1) (-1) (Some "PF1") "pfamA" 10] [] in
  fst (save self db) = db.
Proof.
  intros db self.
  exact (proj1 (save_existing_group_read_only self db
                  (mkHmmDbRow 1 "a" "b") [] eq_refl)).
Defined.

(** C5. When [save] finds an [hmm_db] row for the checksums and a top-level
    model has no row of its name under that entry, or a parent accession
    has no row under it, or a sub-model has no row joined to its parent
    under it, the call raises and inserts nothing; the exception is
    [IndexError] when the [hmm_db] row is the only one. *)
Theorem save_existing_unresolved_raises (self : HMMDatabase) (db : Database)
  (row : hmm_db_row) (rest : list hmm_db_row) :
  snd (select_hmm_db (md5_biosyn_pfam self) (md5_sub_pfam self) db)
  = Ok (row :: rest) ->
  (exists b, In b (biosyn_pfams self)
             /\ hmm_by_name (name b) (r_db_id row) db = [])
  \/ (exists acc subs, In (acc, subs) (sub_pfams self)
                       /\ hmm_by_accession acc (r_db_id row) db = [])
  \/ (exists acc subs p ps s,
        In (acc, subs) (sub_pfams self)
        /\ hmm_by_accession acc (r_db_id row) db = p :: ps
        /\ In s subs
        /\ hmm_join_subpfam (r_id p) (name s) (r_db_id row) db = []) ->
  exists e, save self db = (db, Raise e) /\ (rest = [] -> e = IndexError).
Proof.
  intros Hsel Hmiss. rewrite (save_existing_run _ _ _ _ Hsel).
  destruct rest as [|row' rest].
  2:{ exists AssertionError. split; [reflexivity | discriminate]. }
  assert (Hfail : is_ok (lookup_all (r_db_id row) db self) = false).
  { unfold lookup_all.
    destruct (map_result (lookup_biosyn _ db) _) as [biosyn|e1] eqn:E1;
      cbn [bind_result]; [|reflexivity].
    assert (F : is_ok (map_result (lookup_family (r_db_id row) db)
                                  (sub_pfams self)) = false).
    { destruct Hmiss as [(b & Hb & Hn)|[(acc & subs & Hin & Hn)
                        |(acc & subs & p & ps & s & Hin & Hp & Hs & Hn)]].
      - assert (G : is_ok (map_result (lookup_biosyn (r_db_id row) db)
                                      (biosyn_pfams self)) = false).
        { apply (map_result_raises _ _ b Hb).
          unfold lookup_biosyn. now rewrite Hn. }
        rewrite E1 in G. discriminate G.
      - apply (map_result_raises _ _ (acc, subs) Hin).
        unfold lookup_family. cbn [fst]. now rewrite Hn.
      - apply (map_result_raises _ _ (acc, subs) Hin).
        unfold lookup_family. cbn [fst snd]. rewrite Hp.
        assert (G : is_ok (map_result (lookup_sub (r_db_id row) (r_id p) db)
                                      subs) = false).
        { apply (map_result_raises _ _ s Hs).
          unfold lookup_sub. now rewrite Hn. }
        destruct (map_result (lookup_sub _ _ db) subs);
          [discriminate G | reflexivity]. }
    destruct (map_result (lookup_family _ db) _);
      [discriminate F | reflexivity]. }
  destruct (lookup_all (r_db_id row) db self) as [g|e] eqn:E;
    [discriminate Hfail|].
  exists e. split; [reflexivity|]. intros _. eapply lookup_all_exn, E.
Qed.

Lemma save_existing_unresolved_raises_witness :
  let db := mkDatabase [mkHmmDbRow 1 "a" "b"] [] [] in
  let self := mkHMMDatabase (-1) "a" "b"
                [mkHMM (-1) (-1) (-1) (Some "PF1") "pfamA" 10] [] in
  save self db = (db, Raise IndexError).
Proof.
  intros db self.
  destruct (save_existing_unresolved_raises self db
              (mkHmmDbRow 1 "a" "b") []) as (e & H & He).
  - reflexivity.
  - left. exists (mkHMM (-1) (-1) (-1) (Some "PF1") "pfamA" 10).
    split; [now left | reflexivity].
  - rewrite H, (He eq_refl). reflexivity.
Defined.

(** ** The branch of [save] that inserts *)

Section GrowsLemmas.

Variable gid : Z.

Lemma grows_refl (db : Database) : grows gid db db.
Proof.
  repeat split; auto; exists []; now rewrite app_nil_r.
Qed.

Lemma grows_trans (db1 db2 db3 : Database) :
  grows gid db1 db2 -> grows gid db2 db3 -> grows gid db1 db3.
Proof.
  intros (A1 & [hs1 B1] & [ss1 C1] & D1) (A2 & [hs2 B2] & [ss2 C2] & D2).
  repeat split.
  - congruence.
  - exists (hs1 ++ hs2)%list. now rewrite B2, B1, app_assoc.
  - exists (ss1 ++ ss2)%list. now rewrite C2, C1, app_assoc.
  - auto.
Qed.

Lemma grows_in_hmm (db db' : Database) (r : hmm_row) :
  grows gid db db' -> In r (hmm_table db) -> In r (hmm_table db').
Proof.
  intros (_ & [hs E] & _) H. rewrite E. apply in_or_app. now left.
Qed.

Lemma grows_in_subpfam (db db' : Database) (r : subpfam_row) :
  grows gid db db' -> In r (subpfam_table db) -> In r (subpfam_table db').
Proof.
  intros (_ & _ & [ss E] & _) H. rewrite E. apply in_or_app. now left.
Qed.

(** The first row of an accession stays the first. *)
Lemma grows_first_accession (db db' : Database) (acc : string)
  (r : hmm_row) (rest : list hmm_row) :
  grows gid db db' -> hmm_by_accession acc gid db = r :: rest ->
  exists rest', hmm_by_accession acc gid db' = r :: rest'.
Proof.
  intros (_ & [hs E] & _) H. unfold hmm_by_accession in *.
  rewrite E, filter_app, H. eexists. reflexivity.
Qed.

Lemma resolved_grows (db db' : Database) (p : HMM) :
  grows gid db db' -> resolved gid db p -> resolved gid db' p.
Proof.
  intros (_ & _ & _ & D) (row & H & E). exists row. split; auto.
Qed.

Lemma linked_grows (db db' : Database) (p : HMM) :
  grows gid db db' -> linked gid db p -> linked gid db' p.
Proof.
  intros G (Hs & row & Hr & E). split.
  - eapply grows_in_subpfam; eassumption.
  - exists row. split; [eapply grows_in_hmm; eassumption | exact E].
Qed.

Lemma family_saved_grows (db db' : Database)
  (entry entry' : string * list HMM) :
  grows gid db db' -> family_saved gid db entry entry' ->
  family_saved gid db' entry entry'.
Proof.
  intros G (E & prow & rest & Hp & Hs & Hr).
  destruct (grows_first_accession _ _ _ _ _ G Hp) as [rest' Hp'].
  split; [exact E|]. exists prow, rest'. repeat split; auto.
  eapply Forall_impl; [|exact Hr]. intros p. now apply resolved_grows.
Qed.

Lemma covered_more (ks ks' : list (string * option string)) (db : Database) :
  covered gid ks db -> incl ks ks' -> covered gid ks' db.
Proof.
  intros C Hsub r Hr Hg. destruct (C r Hr Hg) as (Hpos & Hk).
  split; [exact Hpos | now apply Hsub].
Qed.

(** A name no covering row carries has no row under [gid]. *)
Lemma covered_fresh (ks : list (string * option string)) (db : Database)
  (nm : string) :
  covered gid ks db -> ~ In nm (map fst ks) -> hmm_by_name nm gid db = [].
Proof.
  intros C Hnm. unfold hmm_by_name.
  destruct (filter _ (hmm_table db)) as [|r rows] eqn:E; [reflexivity|].
  exfalso. assert (Hr : In r (r :: rows)) by now left.
  rewrite <- E in Hr. apply filter_In in Hr. destruct Hr as [Hr Hc].
  apply andb_true_iff in Hc. destruct Hc as [En Eg].
  apply String.eqb_eq in En. apply Z.eqb_eq in Eg.
  destruct (C r Hr Eg) as [_ Hk]. apply Hnm.
  apply in_map_iff. exists (r_name r, r_accession r). now split.
Qed.

(** A row found by name is a row of the table, of that name and group. *)
Lemma hmm_by_name_in (nm : string) (db : Database) (r : hmm_row) :
  In r (hmm_by_name nm gid db) <->
  In r (hmm_table db) /\ r_name r = nm /\ r_hmm_db_id r = gid.
Proof.
  unfold hmm_by_name. rewrite filter_In, andb_true_iff, Z.eqb_eq.
  destruct (String.eqb_spec (r_name r) nm); intuition congruence.
Qed.

Lemma hmm_by_accession_in (acc : string) (db : Database) (r : hmm_row) :
  In r (hmm_by_accession acc gid db) <->
  In r (hmm_table db) /\ r_accession r = Some acc /\ r_hmm_db_id r = gid.
Proof.
  unfold hmm_by_accession. rewrite filter_In, andb_true_iff, Z.eqb_eq.
  unfold option_string_eqb. destruct (r_accession r) as [t|].
  - destruct (String.eqb_spec t acc); intuition congruence.
  - intuition congruence.
Qed.

(** A row of the join is a row of [hmm], of that name and group. *)
Lemma hmm_join_subpfam_in (parent : Z) (nm : string) (db : Database)
  (r : hmm_row) :
  In r (hmm_join_subpfam parent nm gid db) <->
  In r (hmm_table db) /\ r_name r = nm /\ r_hmm_db_id r = gid
  /\ In (mkSubpfamRow (r_id r) parent) (subpfam_table db).
Proof.
  unfold hmm_join_subpfam. rewrite in_flat_map. split.
  - intros (h & Hh & Hin). apply in_map_iff in Hin.
    destruct Hin as (s & <- & Hs). apply filter_In in Hs.
    destruct Hs as [Hs Hc]. rewrite !andb_true_iff, !Z.eqb_eq in Hc.
    destruct Hc as [[[E1 E2] E3] E4]. apply String.eqb_eq in E3.
    repeat split; auto. destruct s as [i p]; simpl in *. now subst.
  - intros (Hr & En & Eg & Hs). exists r. split; [exact Hr|].
    apply in_map_iff. exists (mkSubpfamRow (r_id r) parent).
    split; [reflexivity|]. apply filter_In. split; [exact Hs|].
    simpl. rewrite !andb_true_iff, !Z.eqb_eq, String.eqb_eq. auto.
Qed.

End GrowsLemmas.

Section SaveSteps.

Lemma hmm_by_name_with_new_hmm (h : HMM) (db : Database) (nm : string) :
  hmm_by_name nm (db_id h) (with_new_hmm h db)
  = (hmm_by_name nm (db_id h) db
     ++ (if (name h =? nm)%string
         then [mkHmmRow (next_id (map r_id (hmm_table db))) (db_id h)
                        (name h) (accession h) (model_length h)]
         else []))%list.
Proof.
  unfold hmm_by_name, with_new_hmm. cbn [hmm_table].
  rewrite filter_app. f_equal. cbn [filter r_name r_hmm_db_id].
  rewrite Z.eqb_refl, andb_true_r. reflexivity.
Qed.

Lemma with_new_hmm_grows (h : HMM) (db : Database) :
  hmm_by_name (name h) (db_id h) db = [] ->
  grows (db_id h) db (with_new_hmm h db).
Proof.
  intros Hnone. repeat split.
  - eexists. reflexivity.
  - unfold with_new_hmm; cbn [subpfam_table].
    destruct (-1 <? parent_id h); [eexists; reflexivity|].
    exists []. now rewrite app_nil_r.
  - intros nm row Hrow. rewrite hmm_by_name_with_new_hmm, Hrow.
    destruct (String.eqb_spec (name h) nm) as [<-|]; [|reflexivity].
    rewrite Hnone in Hrow. discriminate Hrow.
Qed.

(** One successful [__save__], for a model whose group is [gid]. *)
Lemma HMM_save_step (h h' : HMM) (db db' : Database) :
  -1 < db_id h -> HMM_save h db = (db', Ok h') ->
  h' = set_id (id h') h
  /\ grows (db_id h) db db'
  /\ resolved (db_id h) db' h'
  /\ (forall ks, covered (db_id h) ks db ->
                  covered (db_id h) (ks ++ [key h]) db')
  /\ (hmm_by_name (name h) (db_id h) db = [] -> -1 < parent_id h ->
      linked (db_id h) db' h').
Proof.
  intros Hid Hrun. rewrite (HMM_save_cases _ _ Hid) in Hrun.
  destruct (hmm_by_name (name h) (db_id h) db) as [|row [|row' rest]] eqn:Hq.
  - inversion Hrun; subst; clear Hrun.
    set (i := next_id (map r_id (hmm_table db))).
    split; [reflexivity|]. split; [now apply with_new_hmm_grows|].
    split; [|split].
    + exists (mkHmmRow i (db_id h) (name h) (accession h) (model_length h)).
      split; [|reflexivity]. cbn [name set_id].
      rewrite hmm_by_name_with_new_hmm, Hq, String.eqb_refl. reflexivity.
    + intros ks C r Hr Hg. cbn [with_new_hmm hmm_table] in Hr.
      apply in_app_or in Hr. cbn [In] in Hr. destruct Hr as [Hr|[Hr|Hr]].
      * destruct (C r Hr Hg) as (Hpos & Hk). split; [exact Hpos|].
        apply in_or_app; now left.
      * subst r. split; [apply (proj1 (next_id_bounds _))|].
        apply in_or_app; right; now left.
      * contradiction.
    + intros _ Hp. apply Z.ltb_lt in Hp. split.
      * cbn [with_new_hmm subpfam_table set_id id parent_id]. rewrite Hp.
        apply in_or_app. right. now left.
      * exists (mkHmmRow i (db_id h) (name h) (accession h) (model_length h)).
        split; [|now repeat split].
        cbn [with_new_hmm hmm_table]. apply in_or_app. right. now left.
  - destruct (model_length h =? r_model_length row); [|discriminate Hrun].
    inversion Hrun; subst; clear Hrun.
    split; [reflexivity|]. split; [apply grows_refl|]. split; [|split].
    + exists row. split; [exact Hq | reflexivity].
    + intros ks C. eapply covered_more; [exact C|].
      intros k Hk. apply in_or_app. now left.
    + discriminate.
  - discriminate Hrun.
Qed.

(** Whatever its outcome, [__save__] only appends. *)
Lemma HMM_save_grows (h : HMM) (db db' : Database) (r : result HMM) :
  HMM_save h db = (db', r) -> grows (db_id h) db db'.
Proof.
  destruct (Z_lt_le_dec (-1) (db_id h)) as [Hid|Hid].
  - rewrite (HMM_save_cases _ _ Hid).
    destruct (hmm_by_name (name h) (db_id h) db) as [|row [|row' rest]] eqn:Hq.
    + intros H; inversion H; subst. now apply with_new_hmm_grows.
    + destruct (model_length h =? r_model_length row);
        intros H; inversion H; subst; apply grows_refl.
    + intros H; inversion H; subst; apply grows_refl.
  - rewrite (HMM_save_unassigned _ _ Hid).
    intros H; inversion H; subst; apply grows_refl.
Qed.

End SaveSteps.

Section Loops.

Lemma for_each_cons_ok {A B} (f : A -> M B) (a : A) (l : list A)
  (db db1 : Database) (l' : list B) :
  for_each f (a :: l) db = (db1, Ok l') ->
  exists b bs db', f a db = (db', Ok b)
                   /\ for_each f l db' = (db1, Ok bs) /\ l' = b :: bs.
Proof.
  cbn [for_each]. unfold bind at 1.
  destruct (f a db) as [db' [b|e]]; [|discriminate].
  unfold bind at 1.
  destruct (for_each f l db') as [db'' [bs|e]] eqn:El; [|discriminate].
  cbn [ret]. intros H; inversion H; subst. now exists b, bs, db'.
Qed.

(** An invariant of a loop that ran to its end: it may mention the elements
    done so far and what they were turned into. *)
Lemma for_each_ok_ind {A B} (f : A -> M B)
  (P : list A -> list B -> Database -> Prop) :
  (forall done done' a b db db',
      P done done' db -> f a db = (db', Ok b) ->
      P (done ++ [a])%list (done' ++ [b])%list db') ->
  forall l l' db0 db1,
    P [] [] db0 -> for_each f l db0 = (db1, Ok l') -> P l l' db1.
Proof.
  intros Hstep l.
  assert (G : forall done done' l' db db1,
             P done done' db -> for_each f l db = (db1, Ok l') ->
             P (done ++ l)%list (done' ++ l')%list db1).
  { induction l as [|a l IH]; intros done done' l' db db1 HP Hrun.
    - cbn in Hrun. inversion Hrun; subst. now rewrite !app_nil_r.
    - apply for_each_cons_ok in Hrun.
      destruct Hrun as (b & bs & db' & Ha & Hl & ->).
      specialize (IH (done ++ [a])%list (done' ++ [b])%list bs db' db1
                     (Hstep _ _ _ _ _ _ HP Ha) Hl).
      now rewrite <- !app_assoc in IH. }
  intros l' db0 db1 HP Hrun. exact (G [] [] l' db0 db1 HP Hrun).
Qed.


Variable gid : Z.
Hypothesis gid_assigned : -1 < gid.

(** The loop over the top-level models. *)
Lemma insert_biosyn_loop (bs bs' : list HMM) (db0 db1 : Database) :
  for_each (insert_biosyn gid) bs db0 = (db1, Ok bs') ->
  grows gid db0 db1
  /\ Forall2 (biosyn_saved gid) bs bs'
  /\ Forall (resolved gid db1) bs'
  /\ (forall ks, covered gid ks db0 ->
                 covered gid (ks ++ map key bs) db1).
Proof.
  apply (for_each_ok_ind (insert_biosyn gid)
           (fun done done' db =>
              grows gid db0 db
              /\ Forall2 (biosyn_saved gid) done done'
              /\ Forall (resolved gid db) done'
              /\ (forall ks, covered gid ks db0 ->
                             covered gid (ks ++ map key done) db))).
  - intros done done' a b db db' (G & F2 & R & C) Hrun.
    unfold insert_biosyn in Hrun.
    destruct (HMM_save_step (set_db_id gid a) b db db' gid_assigned Hrun)
      as (Eb & G' & R' & C' & _).
    cbn [db_id set_db_id] in *. refine (conj _ (conj _ (conj _ _))).
    + eapply grows_trans; eassumption.
    + apply Forall2_app; [exact F2|]. constructor; [exact Eb | constructor].
    + apply Forall_app. split.
      * eapply Forall_impl; [|exact R]. intros p. now apply resolved_grows.
      * constructor; [exact R' | constructor].
    + intros ks Hks. rewrite map_app, app_assoc. apply C'. now apply C.
  - refine (conj _ (conj _ (conj _ _))).
    + apply grows_refl.
    + constructor.
    + constructor.
    + intros ks Hks. cbn. now rewrite app_nil_r.
Qed.

(** The loop over the sub-models of one parent. *)
Lemma insert_sub_loop (parent : Z) (subs subs' : list HMM)
  (db0 db1 : Database) :
  for_each (insert_sub gid parent) subs db0 = (db1, Ok subs') ->
  grows gid db0 db1
  /\ Forall2 (sub_saved gid parent) subs subs'
  /\ Forall (resolved gid db1) subs'
  /\ (forall ks, covered gid ks db0 ->
        covered gid (ks ++ map key subs) db1
        /\ (-1 < parent -> NoDup (map fst (ks ++ map key subs)) ->
            Forall (linked gid db1) subs')).
Proof.
  apply (for_each_ok_ind (insert_sub gid parent)
           (fun done done' db =>
              grows gid db0 db
              /\ Forall2 (sub_saved gid parent) done done'
              /\ Forall (resolved gid db) done'
              /\ (forall ks, covered gid ks db0 ->
                    covered gid (ks ++ map key done) db
                    /\ (-1 < parent ->
                        NoDup (map fst (ks ++ map key done)) ->
                        Forall (linked gid db) done')))).
  - intros done done' a b db db' (G & F2 & R & C) Hrun.
    unfold insert_sub in Hrun.
    destruct (HMM_save_step (set_parent_id parent (set_db_id gid a)) b db db'
                gid_assigned Hrun)
      as (Eb & G' & R' & C' & L').
    cbn [db_id set_db_id set_parent_id name parent_id] in *.
    refine (conj _ (conj _ (conj _ _))).
    + eapply grows_trans; eassumption.
    + apply Forall2_app; [exact F2|]. constructor; [exact Eb | constructor].
    + apply Forall_app. split.
      * eapply Forall_impl; [|exact R]. intros p. now apply resolved_grows.
      * constructor; [exact R' | constructor].
    + intros ks Hks. destruct (C ks Hks) as [Cd Ld]. split.
      * rewrite map_app, app_assoc. apply C'. exact Cd.
      * intros Hp Hnd.
        rewrite !map_app in Hnd. cbn [map key fst] in Hnd.
        rewrite app_assoc in Hnd.
        pose proof (NoDup_remove_1 _ _ _ Hnd) as Hnd1.
        pose proof (NoDup_remove_2 _ _ _ Hnd) as Hnd2.
        rewrite app_nil_r in Hnd1, Hnd2. rewrite <- map_app in Hnd1, Hnd2.
        apply Forall_app. split.
        -- eapply Forall_impl; [|exact (Ld Hp Hnd1)].
           intros p. now apply linked_grows.
        -- constructor; [|constructor]. apply L'; [|exact Hp].
           eapply covered_fresh; eassumption.
  - refine (conj _ (conj _ (conj _ _))).
    + apply grows_refl.
    + constructor.
    + constructor.
    + intros ks Hks. split; [cbn; now rewrite app_nil_r | constructor].
Qed.

End Loops.

Section Families.

Variable gid : Z.
Hypothesis gid_assigned : -1 < gid.

Lemma Forall2_in_r {A B} (R : A -> B -> Prop) (l : list A) (l' : list B)
  (b : B) :
  Forall2 R l l' -> In b l' -> exists a, In a l /\ R a b.
Proof.
  induction 1 as [|x y l l' Hxy _ IH]; [intros []|].
  intros [<-|Hb].
  - exists x. split; [now left | exact Hxy].
  - destruct (IH Hb) as (a & Ha & Hr). exists a. split; [now right | exact Hr].
Qed.

Lemma Forall2_in_l {A B} (R : A -> B -> Prop) (l : list A) (l' : list B)
  (a : A) :
  Forall2 R l l' -> In a l -> exists b, In b l' /\ R a b.
Proof.
  induction 1 as [|x y l l' Hxy _ IH]; [intros []|].
  intros [<-|Ha].
  - exists y. split; [now left | exact Hxy].
  - destruct (IH Ha) as (b & Hb & Hr). exists b. split; [now right | exact Hr].
Qed.

(** What [insert_family] does, by the rows its query returns. *)
Lemma insert_family_cases (acc : string) (subs : list HMM) (db : Database) :
  insert_family gid (acc, subs) db
  = match hmm_by_accession acc gid db with
    | [] => (db, Raise IndexError)
    | prow :: _ =>
        match for_each (insert_sub gid (r_id prow)) subs db with
        | (db', Ok subs') => (db', Ok (acc, subs'))
        | (db', Raise e) => (db', Raise e)
        end
    end.
Proof.
  unfold insert_family, bind, select_hmm_by_accession.
  destruct (hmm_by_accession acc gid db) as [|prow rest]; [reflexivity|].
  cbn [first_row ret].
  destruct (for_each _ subs db) as [db' [subs'|e]]; reflexivity.
Qed.

(** One parent accession with its sub-models, saved. *)
Lemma insert_family_step (entry entry' : string * list HMM)
  (db db' : Database) :
  insert_family gid entry db = (db', Ok entry') ->
  grows gid db db'
  /\ family_saved gid db' entry entry'
  /\ (forall ks, covered gid ks db ->
        covered gid (ks ++ map key (snd entry)) db'
        /\ (NoDup (map fst (ks ++ map key (snd entry))) ->
            Forall (linked gid db') (snd entry'))).
Proof.
  destruct entry as [acc subs]. rewrite insert_family_cases.
  destruct (hmm_by_accession acc gid db) as [|prow rest] eqn:Hp;
    [discriminate|].
  destruct (for_each _ subs db) as [db1 [subs'|e]] eqn:Hl; [|discriminate].
  intros H; inversion H; subst; clear H.
  destruct (insert_sub_loop gid gid_assigned _ _ _ _ _ Hl)
    as (G & F2 & R & C).
  refine (conj G (conj _ _)).
  - split; [reflexivity|]. cbn [fst snd].
    destruct (grows_first_accession _ _ _ _ _ _ G Hp) as [rest' Hp'].
    exists prow, rest'. exact (conj Hp' (conj F2 R)).
  - intros ks Hks. destruct (C ks Hks) as [Cd Ld]. split; [exact Cd|].
    apply Ld. assert (Hin : In prow (hmm_by_accession acc gid db))
      by (rewrite Hp; now left).
    apply hmm_by_accession_in in Hin. destruct Hin as (Hin & _ & Hg).
    destruct (Hks prow Hin Hg) as [Hpos _]. lia.
Qed.

(** The loop over the parent accessions. *)
Lemma insert_family_loop (fams fams' : list (string * list HMM))
  (db0 db1 : Database) :
  for_each (insert_family gid) fams db0 = (db1, Ok fams') ->
  grows gid db0 db1
  /\ Forall2 (family_saved gid db1) fams fams'
  /\ (forall ks, covered gid ks db0 ->
        covered gid (ks ++ map key (concat (map snd fams))) db1
        /\ (NoDup (map fst (ks ++ map key (concat (map snd fams)))) ->
            Forall (linked gid db1) (concat (map snd fams')))).
Proof.
  apply (for_each_ok_ind (insert_family gid)
           (fun done done' db =>
              grows gid db0 db
              /\ Forall2 (family_saved gid db) done done'
              /\ (forall ks, covered gid ks db0 ->
                    covered gid (ks ++ map key (concat (map snd done))) db
                    /\ (NoDup (map fst
                                 (ks ++ map key (concat (map snd done)))) ->
                        Forall (linked gid db)
                               (concat (map snd done')))))).
  - intros done done' a b db db' (G & F2 & C) Hrun.
    destruct (insert_family_step _ _ _ _ Hrun) as (G' & S' & C').
    refine (conj _ (conj _ _)).
    + eapply grows_trans; eassumption.
    + apply Forall2_app; [|constructor; [exact S' | constructor]].
      eapply Forall2_impl; [|exact F2].
      intros x y. now apply family_saved_grows.
    + intros ks Hks. destruct (C ks Hks) as [Cd Ld].
      destruct (C' _ Cd) as [Cd' Ld'].
      assert (E : forall l : list (string * list HMM), forall x,
                 concat (map snd (l ++ [x])) = (concat (map snd l) ++ snd x)%list)
        by (intros l x; rewrite map_app, concat_app; cbn;
            now rewrite app_nil_r).
      rewrite !E, (map_app key), app_assoc. split; [exact Cd'|].
      intros Hnd. apply Forall_app. split.
      * eapply Forall_impl; [|apply Ld].
        -- intros p. now apply linked_grows.
        -- rewrite (map_app fst) in Hnd.
           now apply NoDup_app_remove_r in Hnd.
      * now apply Ld'.
  - refine (conj _ (conj _ _)).
    + apply grows_refl.
    + constructor.
    + intros ks Hks. split; [cbn; now rewrite app_nil_r | constructor].
Qed.

End Families.

(** ** [save] on a new entry *)

Section NewEntry.

(** Without an [hmm_db] row for the checksums, [save] inserts one and runs
    the two loops under its identifier. *)
Lemma save_new_run (self : HMMDatabase) (db : Database) :
  snd (select_hmm_db (md5_biosyn_pfam self) (md5_sub_pfam self) db) = Ok [] ->
  save self db
  = match for_each (insert_biosyn (new_hmm_db_id db)) (biosyn_pfams self)
                   (with_new_hmm_db self db) with
    | (db_b, Ok biosyn) =>
        match for_each (insert_family (new_hmm_db_id db)) (sub_pfams self)
                       db_b with
        | (db1, Ok subs) =>
            (db1, Ok (mkHMMDatabase (new_hmm_db_id db) (md5_biosyn_pfam self)
                                    (md5_sub_pfam self) biosyn subs))
        | (db1, Raise e) => (db1, Raise e)
        end
    | (db_b, Raise e) => (db_b, Raise e)
    end.
Proof.
  unfold save, bind at 1. unfold select_hmm_db. cbn [snd].
  intros H; inversion H as [H']; clear H. rewrite H'.
  unfold bind at 1. unfold insert_hmm_db.
  fold (new_hmm_db_id db). fold (with_new_hmm_db self db).
  unfold bind at 1.
  destruct (for_each (insert_biosyn _) _ _) as [db_b [biosyn|e]];
    [|reflexivity].
  unfold bind at 1.
  destruct (for_each (insert_family _) _ _) as [db1 [subs|e]]; reflexivity.
Qed.

Lemma new_hmm_db_id_assigned (db : Database) : -1 < new_hmm_db_id db.
Proof.
  pose proof (proj1 (next_id_bounds (map r_db_id (hmm_db_table db)))).
  unfold new_hmm_db_id. lia.
Qed.

(** In a database where every [hmm] row points to an [hmm_db] row, no row
    is under the identifier of the row about to be inserted. *)
Lemma covered_new_hmm_db (self : HMMDatabase) (db : Database) :
  referential_integrity db ->
  covered (new_hmm_db_id db) [] (with_new_hmm_db self db).
Proof.
  intros Hri r Hr Hg. exfalso. cbn [with_new_hmm_db hmm_table] in Hr.
  apply Hri in Hr. rewrite Hg in Hr.
  exact (next_id_fresh _ Hr).
Qed.

(** A row under [gid] after the first loop belongs to a top-level model. *)
Lemma covered_biosyn_row (gid : Z) (bs bs' : list HMM) (db : Database)
  (r : hmm_row) :
  covered gid (map key bs) db -> Forall2 (biosyn_saved gid) bs bs' ->
  In r (hmm_table db) -> r_hmm_db_id r = gid ->
  exists b', In b' bs' /\ name b' = r_name r /\ accession b' = r_accession r.
Proof.
  intros C F2 Hr Hg. destruct (C r Hr Hg) as [_ Hk].
  apply in_map_iff in Hk. destruct Hk as (b & Ek & Hb).
  destruct (Forall2_in_l _ _ _ _ F2 Hb) as (b' & Hb' & Eb).
  exists b'. split; [exact Hb'|]. rewrite Eb. cbn.
  unfold key in Ek. now inversion Ek.
Qed.

End NewEntry.

(** * The group-level save, inserting branch: claims *)

(** C3, as stated, fails: two top-level models with one accession.  The
    query by accession returns the row of the first, so the sub-model filed
    under the accession has the first as parent, not the second. *)
Lemma shared_accession_parent_is_first :
  let self := mkHMMDatabase (-1) "md5a" "md5b"
                [mkHMM (-1) (-1) (-1) (Some "PF1") "pfamA" 10;
                 mkHMM (-1) (-1) (-1) (Some "PF1") "pfamB" 20]
                [("PF1", [mkHMM (-1) (-1) (-1) None "pfamB.1" 5])] in
  let pfamB' := mkHMM 2 (-1) 1 (Some "PF1") "pfamB" 20 in
  let sub' := mkHMM 3 1 1 None "pfamB.1" 5 in
  snd (save self (mkDatabase [] [] []))
  = Ok (mkHMMDatabase 1 "md5a" "md5b"
          [mkHMM 1 (-1) 1 (Some "PF1") "pfamA" 10; pfamB']
          [("PF1", [sub'])])
  /\ accession pfamB' = Some "PF1"
  /\ parent_id sub' <> id pfamB'.
Proof. split; [reflexivity | split; [reflexivity | discriminate]]. Qed.

(** C3, amended. Let [save] succeed on an entry whose checksums are not
    stored, in a database where every [hmm] row points to an [hmm_db] row.
    The entry gets the identifier of the [hmm_db] row just inserted.  For a
    top-level model [b] and a sub-model [s] filed under the accession of
    [b], when the other top-level models have the accession of [b] exactly
    when they have its name: [parent_id] of [s] is [id] of [b], both models
    carry the identifier of the entry as [db_id], and so do their rows in
    [hmm].  When moreover the names of all the models of the entry are
    pairwise distinct, the relation [subpfam] holds the row that ties the
    identifier of [s] to the identifier of [b]. *)
Theorem save_new_group_links (self self' : HMMDatabase) (db db' : Database) :
  snd (select_hmm_db (md5_biosyn_pfam self) (md5_sub_pfam self) db) = Ok [] ->
  referential_integrity db ->
  save self db = (db', Ok self') ->
  (~ In (hmmdb_id self') (map r_db_id (hmm_db_table db))
   /\ In (mkHmmDbRow (hmmdb_id self') (md5_biosyn_pfam self)
                     (md5_sub_pfam self))
         (hmm_db_table db')
   /\ Forall2 (biosyn_saved (hmmdb_id self'))
              (biosyn_pfams self) (biosyn_pfams self'))
  /\ forall b acc subs s,
       In b (biosyn_pfams self') ->
       In (acc, subs) (sub_pfams self') -> In s subs ->
       accession b = Some acc ->
       (forall b2, In b2 (biosyn_pfams self') ->
                   (accession b2 = Some acc <-> name b2 = name b)) ->
       parent_id s = id b
       /\ db_id s = hmmdb_id self' /\ db_id b = hmmdb_id self'
       /\ (exists rb rs,
             In rb (hmm_table db') /\ In rs (hmm_table db')
             /\ r_id rb = id b /\ r_id rs = id s
             /\ r_name rb = name b /\ r_name rs = name s
             /\ r_hmm_db_id rb = hmmdb_id self'
             /\ r_hmm_db_id rs = hmmdb_id self')
       /\ (NoDup (member_names self) ->
           In (mkSubpfamRow (id s) (id b)) (subpfam_table db')).
Proof.
  intros Hsel Hri Hrun. rewrite (save_new_run _ _ Hsel) in Hrun.
  set (gid := new_hmm_db_id db) in *.
  pose proof (new_hmm_db_id_assigned db) as Hgid. fold gid in Hgid.
  pose proof (covered_new_hmm_db self db Hri) as C0. fold gid in C0.
  destruct (for_each (insert_biosyn gid) _ _) as [db_b [bs'|e]] eqn:Hb;
    [|discriminate].
  destruct (for_each (insert_family gid) _ _) as [db1 [fams'|e]] eqn:Hf;
    [|discriminate].
  inversion Hrun; subst db1 self'; clear Hrun.
  cbn [hmmdb_id biosyn_pfams sub_pfams].
  destruct (insert_biosyn_loop gid Hgid _ _ _ _ Hb) as (Gb & F2b & Rb & Cb).
  destruct (insert_family_loop gid Hgid _ _ _ _ Hf) as (Gf & F2f & Cf).
  specialize (Cb [] C0). cbn [app] in Cb.
  destruct (Cf _ Cb) as [_ Lf]. split.
  { refine (conj _ (conj _ F2b)).
    - apply next_id_fresh.
    - destruct Gf as [Ef _]. destruct Gb as [Eb _]. rewrite Ef, Eb.
      cbn [with_new_hmm_db hmm_db_table]. apply in_or_app. right. now left. }
  intros b acc subs s Hbin Hfam Hs Hacc Hcond.
  destruct (Forall2_in_r _ _ _ _ F2f Hfam)
    as ([acc0 subs0] & _ & Efst & prow & rest & Hp & F2s & Rs).
  cbn [fst snd] in *. subst acc0.
  destruct (Forall2_in_r _ _ _ _ F2s Hs) as (s0 & _ & Es).
  destruct (Forall2_in_r _ _ _ _ F2b Hbin) as (b0 & _ & Eb).
  pose proof (proj1 (Forall_forall _ _) Rb b Hbin) as (row & Hrow & Hid).
  assert (Hrin : In row (hmm_by_name (name b) gid db_b))
    by (rewrite Hrow; now left).
  apply hmm_by_name_in in Hrin. destruct Hrin as (Hrt & Hrn & Hrg).
  (* the row of [b] carries the accession *)
  assert (Hra : r_accession row = Some acc).
  { destruct (covered_biosyn_row _ _ _ _ _ Cb F2b Hrt Hrg)
      as (b1 & Hb1 & En & Ea).
    rewrite <- Ea. apply (Hcond b1 Hb1). congruence. }
  (* and it is the first row of that accession *)
  assert (Hfirst : exists rest1, hmm_by_accession acc gid db_b = row :: rest1).
  { destruct (hmm_by_accession acc gid db_b) as [|r1 rest1] eqn:Hq.
    - exfalso. assert (Hin : In row (hmm_by_accession acc gid db_b))
        by (apply hmm_by_accession_in; auto).
      rewrite Hq in Hin. exact Hin.
    - exists rest1. f_equal.
      assert (Hin : In r1 (hmm_by_accession acc gid db_b))
        by (rewrite Hq; now left).
      apply hmm_by_accession_in in Hin. destruct Hin as (H1t & H1a & H1g).
      destruct (covered_biosyn_row _ _ _ _ _ Cb F2b H1t H1g)
        as (b2 & Hb2 & En & Ea).
      assert (E2 : name b2 = name b)
        by (apply (Hcond b2 Hb2); congruence).
      assert (Hin : In r1 (hmm_by_name (name b) gid db_b))
        by (apply hmm_by_name_in; repeat split; auto; congruence).
      rewrite Hrow in Hin. destruct Hin as [Hin|[]]. now symmetry. }
  destruct Hfirst as [rest1 Hfirst].
  destruct (grows_first_accession _ _ _ _ _ _ Gf Hfirst) as [rest' Hp'].
  rewrite Hp in Hp'. inversion Hp'; subst prow rest'; clear Hp'.
  pose proof (proj1 (Forall_forall _ _) Rs s Hs) as (rs & Hrs & Hsid).
  assert (Hsin : In rs (hmm_by_name (name s) gid db'))
    by (rewrite Hrs; now left).
  apply hmm_by_name_in in Hsin. destruct Hsin as (Hst & Hsn & Hsg).
  assert (Hpar : parent_id s = id b) by (rewrite Es; cbn; exact Hid).
  split; [exact Hpar|].
  split; [rewrite Es; reflexivity|].
  split; [rewrite Eb; reflexivity|].
  split.
  { exists row, rs. repeat split; auto.
    eapply grows_in_hmm; eassumption. }
  (* with distinct names every sub-model was inserted with its relation *)
  intros Hnd. unfold member_names in Hnd.
  assert (Hlinked : Forall (linked gid db') (concat (map snd fams'))).
  { apply Lf. rewrite map_app, !map_map. exact Hnd. }
  assert (Hin : In s (concat (map snd fams'))).
  { apply in_concat. exists subs. split; [|exact Hs].
    apply in_map_iff. exists (acc, subs). now split. }
  destruct (proj1 (Forall_forall _ _) Hlinked s Hin) as [Hrel _].
  rewrite <- Hpar. exact Hrel.
Qed.

(** The condition on the names is needed for the relation: a sub-model
    named like its parent, with the same model length, takes the
    identifier of the parent's row in [__save__], and no [subpfam] row is
    written for it. *)
Lemma sub_named_like_parent_has_no_relation :
  let self := mkHMMDatabase (-1) "md5a" "md5b"
                [mkHMM (-1) (-1) (-1) (Some "PF1") "pfamA" 10]
                [("PF1", [mkHMM (-1) (-1) (-1) None "pfamA" 10])] in
  save self (mkDatabase [] [] [])
  = (mkDatabase [mkHmmDbRow 1 "md5a" "md5b"]
                [mkHmmRow 1 1 "pfamA" (Some "PF1") 10] [],
     Ok (mkHMMDatabase 1 "md5a" "md5b"
           [mkHMM 1 (-1) 1 (Some "PF1") "pfamA" 10]
           [("PF1", [mkHMM 1 1 1 None "pfamA" 10])])).
Proof. reflexivity. Qed.

Lemma save_new_group_links_witness :
  let pfamA := mkHMM (-1) (-1) (-1) (Some "PF00001") "pfamA" 120 in
  let pfamA1 := mkHMM (-1) (-1) (-1) None "pfamA.1" 60 in
  let self := mkHMMDatabase (-1) "md5a" "md5b" [pfamA] [("PF00001", [pfamA1])] in
  let db := mkDatabase [mkHmmDbRow 1 "x" "y"]
                       [mkHmmRow 1 1 "other" (Some "PF00001") 5] [] in
  let pfamA' := mkHMM 2 (-1) 2 (Some "PF00001") "pfamA" 120 in
  let pfamA1' := mkHMM 3 2 2 None "pfamA.1" 60 in
  snd (save self db)
  = Ok (mkHMMDatabase 2 "md5a" "md5b" [pfamA'] [("PF00001", [pfamA1'])])
  /\ parent_id pfamA1' = id pfamA' /\ db_id pfamA1' = 2 /\ db_id pfamA' = 2
  /\ In (mkSubpfamRow 3 2) (subpfam_table (fst (save self db))).
Proof.
  intros pfamA pfamA1 self db pfamA' pfamA1'.
  pose proof (save_new_group_links self
                (mkHMMDatabase 2 "md5a" "md5b" [pfamA'] [("PF00001", [pfamA1'])])
                db
                (mkDatabase [mkHmmDbRow 1 "x" "y"; mkHmmDbRow 2 "md5a" "md5b"]
                   [mkHmmRow 1 1 "other" (Some "PF00001") 5;
                    mkHmmRow 2 2 "pfamA" (Some "PF00001") 120;
                    mkHmmRow 3 2 "pfamA.1" None 60]
                   [mkSubpfamRow 3 2])) as H.
  destruct H as [_ H].
  - reflexivity.
  - intros r [<-|[]]. now left.
  - reflexivity.
  - destruct (H pfamA' "PF00001"%string [pfamA1'] pfamA1')
      as (E1 & E2 & E3 & _ & E4).
    + now left.
    + now left.
    + now left.
    + reflexivity.
    + intros b2 [<-|[]]. split; reflexivity.
    + refine (conj eq_refl (conj E1 (conj E2 (conj E3 _)))).
      apply E4. repeat constructor; cbn; intuition discriminate.
Defined.




(** ** Looking up what was just saved *)

Section Rehydration.

Lemma set_id_same (p : HMM) : set_id (id p) p = p.
Proof. now destruct p. Qed.

Lemma map_fst_key (l : list HMM) : map fst (map key l) = map name l.
Proof. rewrite map_map. reflexivity. Qed.

Lemma map_result_fixed_or_raise {A} (g : A -> result A) (e0 : exn)
  (l : list A) :
  Forall (fun a => g a = Ok a \/ g a = Raise e0) l ->
  map_result g l = Ok l \/ map_result g l = Raise e0.
Proof.
  induction 1 as [|a l [Ha|Ha] _ [IH|IH]]; cbn [map_result];
    rewrite ?Ha, ?IH; cbn [bind_result]; auto.
Qed.

Lemma map_result_fixed {A} (g : A -> result A) (l : list A) :
  Forall (fun a => g a = Ok a) l -> map_result g l = Ok l.
Proof.
  induction 1 as [|a l Ha _ IH]; cbn [map_result];
    rewrite ?Ha, ?IH; reflexivity.
Qed.

Lemma map_result_ok {A B} (g : A -> result B) (l : list A) (l' : list B) :
  map_result g l = Ok l' -> Forall2 (fun a b => g a = Ok b) l l'.
Proof.
  revert l'. induction l as [|a l IH]; intros l'; cbn [map_result].
  - intros H; inversion H. constructor.
  - destruct (g a) as [b|e] eqn:Ea; cbn [bind_result]; [|discriminate].
    destruct (map_result g l) as [bs|e]; cbn [bind_result]; [|discriminate].
    intros H; inversion H; subst. constructor; [exact Ea | now apply IH].
Qed.

Lemma map_result_again {A} (g : A -> result A) (l l' : list A) :
  (forall a b, g a = Ok b -> g b = Ok b) ->
  map_result g l = Ok l' -> map_result g l' = Ok l'.
Proof.
  intros Hg H. apply map_result_fixed. apply map_result_ok in H.
  induction H as [|a b l l' Hab _ IH]; constructor; eauto.
Qed.

Variable gid : Z.
Variable db : Database.

Lemma lookup_biosyn_resolved (b : HMM) :
  resolved gid db b -> lookup_biosyn gid db b = Ok b.
Proof.
  intros (row & Hrow & Hid). unfold lookup_biosyn.
  now rewrite Hrow, Hid, set_id_same.
Qed.

(** A sub-model that has the identifier of the row of its name is found
    again under its parent, or not found at all. *)
Lemma lookup_sub_resolved (s : HMM) :
  resolved gid db s ->
  (lookup_sub gid (parent_id s) db s = Ok s
   \/ lookup_sub gid (parent_id s) db s = Raise IndexError)
  /\ (linked gid db s -> lookup_sub gid (parent_id s) db s = Ok s).
Proof.
  intros (row & Hrow & Hid). unfold lookup_sub.
  destruct (hmm_join_subpfam (parent_id s) (name s) gid db) as [|r rest] eqn:Hj.
  - split; [now right|]. intros (Hrel & row' & Hin & Eid & En & Eg).
    exfalso. assert (Hr : In row' (hmm_join_subpfam (parent_id s) (name s) gid db))
      by (apply hmm_join_subpfam_in; rewrite Eid; auto).
    rewrite Hj in Hr. exact Hr.
  - assert (Hr : In r (hmm_join_subpfam (parent_id s) (name s) gid db))
      by (rewrite Hj; now left).
    apply hmm_join_subpfam_in in Hr. destruct Hr as (Hin & En & Eg & _).
    assert (Hn : In r (hmm_by_name (name s) gid db))
      by (apply hmm_by_name_in; auto).
    rewrite Hrow in Hn. destruct Hn as [<-|[]].
    assert (E : set_id (r_id row) (set_parent_id (parent_id s) s) = s)
      by (rewrite Hid; now destruct s).
    rewrite E. split; [now left | reflexivity].
Qed.

Lemma lookup_family_saved (entry entry' : string * list HMM) :
  family_saved gid db entry entry' ->
  (lookup_family gid db entry' = Ok entry'
   \/ lookup_family gid db entry' = Raise IndexError)
  /\ (Forall (linked gid db) (snd entry') ->
      lookup_family gid db entry' = Ok entry').
Proof.
  intros (Efst & prow & rest & Hp & F2 & R).
  destruct entry as [acc subs], entry' as [acc' subs'].
  cbn [fst snd] in *. subst acc'. unfold lookup_family. cbn [fst snd].
  rewrite Hp.
  assert (Hpar : Forall (fun s' => parent_id s' = r_id prow) subs').
  { apply Forall_forall. intros s' Hs'.
    destruct (Forall2_in_r _ _ _ _ F2 Hs') as (s & _ & Es).
    rewrite Es. reflexivity. }
  split.
  - assert (H : map_result (lookup_sub gid (r_id prow) db) subs' = Ok subs'
                \/ map_result (lookup_sub gid (r_id prow) db) subs'
                   = Raise IndexError).
    { apply map_result_fixed_or_raise. apply Forall_forall. intros s' Hs'.
      rewrite <- (proj1 (Forall_forall _ _) Hpar s' Hs').
      apply lookup_sub_resolved.
      exact (proj1 (Forall_forall _ _) R s' Hs'). }
    destruct H as [-> | ->]; [now left | now right].
  - intros L.
    rewrite (map_result_fixed (lookup_sub gid (r_id prow) db) subs');
      [reflexivity|].
    apply Forall_forall. intros s' Hs'.
    rewrite <- (proj1 (Forall_forall _ _) Hpar s' Hs').
    apply lookup_sub_resolved.
    + exact (proj1 (Forall_forall _ _) R s' Hs').
    + exact (proj1 (Forall_forall _ _) L s' Hs').
Qed.

(** Looking up a second time gives what the first time gave. *)
Lemma lookup_biosyn_again (b b' : HMM) :
  lookup_biosyn gid db b = Ok b' -> lookup_biosyn gid db b' = Ok b'.
Proof.
  unfold lookup_biosyn.
  destruct (hmm_by_name (name b) gid db) as [|r rest] eqn:E; [discriminate|].
  intros H; inversion H; subst. cbn [name set_id]. now rewrite E.
Qed.

Lemma lookup_sub_again (parent : Z) (s s' : HMM) :
  lookup_sub gid parent db s = Ok s' -> lookup_sub gid parent db s' = Ok s'.
Proof.
  unfold lookup_sub.
  destruct (hmm_join_subpfam parent (name s) gid db) as [|r rest] eqn:E;
    [discriminate|].
  intros H; inversion H; subst. cbn [name set_id set_parent_id].
  now rewrite E.
Qed.

Lemma lookup_family_again (entry entry' : string * list HMM) :
  lookup_family gid db entry = Ok entry' ->
  lookup_family gid db entry' = Ok entry'.
Proof.
  unfold lookup_family.
  destruct (hmm_by_accession (fst entry) gid db) as [|r rest] eqn:E;
    [discriminate|].
  destruct (map_result _ (snd entry)) as [subs'|e] eqn:Es;
    cbn [bind_result]; [|discriminate].
  intros H; inversion H; subst. cbn [fst snd]. rewrite E.
  rewrite (map_result_again _ _ _ (lookup_sub_again (r_id r)) Es).
  reflexivity.
Qed.

Lemma lookup_all_again (self self1 : HMMDatabase) :
  lookup_all gid db self = Ok self1 ->
  lookup_all gid db self1 = Ok self1
  /\ md5_biosyn_pfam self1 = md5_biosyn_pfam self
  /\ md5_sub_pfam self1 = md5_sub_pfam self.
Proof.
  unfold lookup_all.
  destruct (map_result _ (biosyn_pfams self)) as [bs'|e] eqn:Eb;
    cbn [bind_result]; [|discriminate].
  destruct (map_result _ (sub_pfams self)) as [fams'|e] eqn:Ef;
    cbn [bind_result]; [|discriminate].
  intros H; inversion H; subst. cbn.
  rewrite (map_result_again _ _ _ lookup_biosyn_again Eb). cbn [bind_result].
  rewrite (map_result_again _ _ _ lookup_family_again Ef). now cbn.
Qed.

End Rehydration.

(** ** Two entries with the same records *)

Section SameRecords.

Lemma Forall2_refl {A} (R : A -> A -> Prop) (l : list A) :
  (forall a, R a a) -> Forall2 R l l.
Proof. intros H. induction l; constructor; auto. Qed.

Lemma Forall2_trans {A} (R : A -> A -> Prop) (l1 l2 l3 : list A) :
  (forall a b c, R a b -> R b c -> R a c) ->
  Forall2 R l1 l2 -> Forall2 R l2 l3 -> Forall2 R l1 l3.
Proof.
  intros Ht H. revert l3. induction H; intros l3 H3; inversion H3; subst;
    constructor; eauto.
Qed.

Lemma Forall2_sym {A} (R : A -> A -> Prop) (l1 l2 : list A) :
  (forall a b, R a b -> R b a) -> Forall2 R l1 l2 -> Forall2 R l2 l1.
Proof. intros Hs. induction 1; constructor; auto. Qed.

Lemma same_record_trans (p q r : HMM) :
  same_record p q -> same_record q r -> same_record p r.
Proof. unfold same_record. intuition congruence. Qed.

Lemma same_record_sym (p q : HMM) : same_record p q -> same_record q p.
Proof. unfold same_record. intuition congruence. Qed.

Lemma same_records_trans (g h k : HMMDatabase) :
  same_records g h -> same_records h k -> same_records g k.
Proof.
  intros (A1 & B1 & C1 & D1) (A2 & B2 & C2 & D2).
  refine (conj _ (conj _ (conj _ _))); try congruence.
  - eapply Forall2_trans; [|exact C1|exact C2]. apply same_record_trans.
  - eapply Forall2_trans; [|exact D1|exact D2].
    intros a b c [E1 F1] [E2 F2]. split; [congruence|].
    eapply Forall2_trans; [|exact F1|exact F2]. apply same_record_trans.
Qed.

Lemma same_records_sym (g h : HMMDatabase) :
  same_records g h -> same_records h g.
Proof.
  intros (A1 & B1 & C1 & D1).
  refine (conj _ (conj _ (conj _ _))); try congruence.
  - eapply Forall2_sym; [|exact C1]. apply same_record_sym.
  - eapply Forall2_sym; [|exact D1].
    intros a b [E1 F1]. split; [congruence|].
    eapply Forall2_sym; [|exact F1]. apply same_record_sym.
Qed.

(** A loop of lookups over two lists related element by element. *)
Lemma map_result_alike {A} (R R' : A -> A -> Prop) (g : A -> result A)
  (l1 l2 : list A) :
  (forall a b, R a b -> alike R' (g a) (g b)) ->
  Forall2 R l1 l2 ->
  alike (Forall2 R') (map_result g l1) (map_result g l2).
Proof.
  intros Hg. induction 1 as [|a b l1 l2 Hab _ IH]; cbn [map_result].
  - constructor.
  - specialize (Hg a b Hab).
    destruct (g a) as [a'|e1], (g b) as [b'|e2]; cbn [alike bind_result] in *;
      try contradiction; [|exact Hg].
    destruct (map_result g l1) as [l1'|e1], (map_result g l2) as [l2'|e2];
      cbn [alike bind_result] in *; try contradiction; [|exact IH].
    now constructor.
Qed.

Variable gid : Z.
Variable db : Database.

Lemma lookup_biosyn_alike (p q : HMM) :
  same_record p q ->
  alike same_top (lookup_biosyn gid db p) (lookup_biosyn gid db q).
Proof.
  intros (En & Ea & El). unfold lookup_biosyn. rewrite <- En.
  destruct (hmm_by_name (name p) gid db) as [|r rest]; cbn [alike];
    [reflexivity|].
  repeat split; auto.
Qed.

Lemma lookup_sub_alike (parent : Z) (p q : HMM) :
  same_record p q ->
  alike same_sub (lookup_sub gid parent db p) (lookup_sub gid parent db q).
Proof.
  intros (En & Ea & El). unfold lookup_sub. rewrite <- En.
  destruct (hmm_join_subpfam parent (name p) gid db) as [|r rest];
    cbn [alike]; [reflexivity|].
  repeat split; auto.
Qed.

Lemma lookup_family_alike (e f : string * list HMM) :
  fst e = fst f /\ Forall2 same_record (snd e) (snd f) ->
  alike same_family (lookup_family gid db e) (lookup_family gid db f).
Proof.
  intros [Ek Hs]. unfold lookup_family. rewrite <- Ek.
  destruct (hmm_by_accession (fst e) gid db) as [|r rest]; cbn [alike];
    [reflexivity|].
  pose proof (map_result_alike same_record same_sub
                (lookup_sub gid (r_id r) db) (snd e) (snd f)
                (lookup_sub_alike (r_id r)) Hs) as H.
  destruct (map_result _ (snd e)) as [se|e1], (map_result _ (snd f)) as [sf|e2];
    cbn [alike bind_result] in *; try contradiction; [|exact H].
  split; [reflexivity | exact H].
Qed.

Lemma same_top_ids (l1 l2 : list HMM) :
  Forall2 same_top l1 l2 ->
  map id l1 = map id l2 /\ Forall2 same_record l1 l2.
Proof.
  induction 1 as [|a b l1 l2 [Hr Hi] _ [IH1 IH2]]; cbn [map].
  - split; [reflexivity | constructor].
  - split; [now rewrite Hi, IH1 | now constructor].
Qed.

Lemma same_sub_ids (l1 l2 : list HMM) :
  Forall2 same_sub l1 l2 ->
  map (fun s => (id s, parent_id s)) l1 = map (fun s => (id s, parent_id s)) l2
  /\ Forall2 same_record l1 l2.
Proof.
  induction 1 as [|a b l1 l2 (Hr & Hi & Hp) _ [IH1 IH2]]; cbn [map].
  - split; [reflexivity | constructor].
  - split; [now rewrite Hi, Hp, IH1 | now constructor].
Qed.

Lemma same_family_ids (l1 l2 : list (string * list HMM)) :
  Forall2 same_family l1 l2 ->
  map (fun e => (fst e, map (fun s => (id s, parent_id s)) (snd e))) l1
  = map (fun e => (fst e, map (fun s => (id s, parent_id s)) (snd e))) l2
  /\ Forall2 (fun e f => fst e = fst f /\ Forall2 same_record (snd e) (snd f))
             l1 l2.
Proof.
  induction 1 as [|a b l1 l2 [Hk Hs] _ [IH1 IH2]]; cbn [map].
  - split; [reflexivity | constructor].
  - destruct (same_sub_ids _ _ Hs) as [E1 E2].
    split; [now rewrite Hk, E1, IH1 | constructor; auto].
Qed.

(** On two entries with the same records the lookups end alike: with the
    same exception, or with the same identifiers. *)
Lemma lookup_all_alike (g h : HMMDatabase) :
  same_records g h ->
  alike same_entry (lookup_all gid db g) (lookup_all gid db h).
Proof.
  intros (Ea & Eb & Hb & Hf). unfold lookup_all.
  pose proof (map_result_alike same_record same_top (lookup_biosyn gid db)
                _ _ lookup_biosyn_alike Hb) as H1.
  destruct (map_result _ (biosyn_pfams g)) as [bg|e1],
           (map_result _ (biosyn_pfams h)) as [bh|e2];
    cbn [alike bind_result] in *; try contradiction; [|exact H1].
  pose proof (map_result_alike _ same_family (lookup_family gid db)
                _ _ lookup_family_alike Hf) as H2.
  destruct (map_result _ (sub_pfams g)) as [fg|e1],
           (map_result _ (sub_pfams h)) as [fh|e2];
    cbn [alike bind_result] in *; try contradiction; [|exact H2].
  destruct (same_top_ids _ _ H1) as [I1 R1].
  destruct (same_family_ids _ _ H2) as [I2 R2].
  split.
  - unfold identifiers. cbn. now rewrite I1, I2.
  - refine (conj _ (conj _ (conj _ _))); cbn; auto.
Qed.

(** What the lookups return has the records they were given. *)
Lemma lookup_all_same_records (g g' : HMMDatabase) :
  lookup_all gid db g = Ok g' -> same_records g g'.
Proof.
  unfold lookup_all.
  destruct (map_result _ (biosyn_pfams g)) as [bs'|e] eqn:Eb;
    cbn [bind_result]; [|discriminate].
  destruct (map_result _ (sub_pfams g)) as [fams'|e] eqn:Ef;
    cbn [bind_result]; [|discriminate].
  intros H; inversion H; subst; clear H.
  refine (conj eq_refl (conj eq_refl (conj _ _))); cbn.
  - apply map_result_ok in Eb. eapply Forall2_impl; [|exact Eb].
    intros p q Hq. unfold lookup_biosyn in Hq.
    destruct (hmm_by_name _ _ _); inversion Hq. now repeat split.
  - apply map_result_ok in Ef. eapply Forall2_impl; [|exact Ef].
    intros e f Hq. unfold lookup_family in Hq.
    destruct (hmm_by_accession _ _ _) as [|r rest]; [discriminate|].
    destruct (map_result _ (snd e)) as [subs'|x] eqn:Es;
      cbn [bind_result] in Hq; inversion Hq; subst; clear Hq.
    split; [reflexivity|]. cbn [snd].
    apply map_result_ok in Es. eapply Forall2_impl; [|exact Es].
    intros p q Hq. unfold lookup_sub in Hq.
    destruct (hmm_join_subpfam _ _ _ _); inversion Hq. now repeat split.
Qed.

End SameRecords.

(** * Saving twice: claims *)

(** C1, as stated, fails: two sub-models of the same name and length under
    two parents.  The first call succeeds; the second sub-model takes the
    identifier of the first one's row and gets no relation row of its own,
    so the second call, which inserts nothing, raises [IndexError] when it
    looks that relation up, on the entry as the first call left it and on
    a fresh copy alike. *)
Lemma save_twice_shared_sub_name_raises :
  let self := mkHMMDatabase (-1) "md5a" "md5b"
                [mkHMM (-1) (-1) (-1) (Some "PA") "pfamA" 10;
                 mkHMM (-1) (-1) (-1) (Some "PB") "pfamB" 20]
                [("PA", [mkHMM (-1) (-1) (-1) None "sub" 5]);
                 ("PB", [mkHMM (-1) (-1) (-1) None "sub" 5])] in
  let self1 := mkHMMDatabase 1 "md5a" "md5b"
                 [mkHMM 1 (-1) 1 (Some "PA") "pfamA" 10;
                  mkHMM 2 (-1) 1 (Some "PB") "pfamB" 20]
                 [("PA", [mkHMM 3 1 1 None "sub" 5]);
                  ("PB", [mkHMM 3 2 1 None "sub" 5])] in
  let db1 := mkDatabase [mkHmmDbRow 1 "md5a" "md5b"]
               [mkHmmRow 1 1 "pfamA" (Some "PA") 10;
                mkHmmRow 2 1 "pfamB" (Some "PB") 20;
                mkHmmRow 3 1 "sub" None 5]
               [mkSubpfamRow 3 1] in
  save self (mkDatabase [] [] []) = (db1, Ok self1)
  /\ save self1 db1 = (db1, Raise IndexError)
  /\ save self db1 = (db1, Raise IndexError).
Proof. split; [reflexivity | split; reflexivity]. Qed.

(** A second call on the entry as the first call left it. *)
Lemma save_again_same_entry (self self1 : HMMDatabase) (db db1 : Database) :
  save self db = (db1, Ok self1) ->
  (save self1 db1 = (db1, Ok self1)
   \/ save self1 db1 = (db1, Raise IndexError))
  /\ (snd (select_hmm_db (md5_biosyn_pfam self) (md5_sub_pfam self) db)
      <> Ok []
      \/ (referential_integrity db /\ NoDup (member_names self)) ->
      save self1 db1 = (db1, Ok self1)).
Proof.
  intros Hrun.
  destruct (snd (select_hmm_db (md5_biosyn_pfam self) (md5_sub_pfam self) db))
    as [[|row rest]|e] eqn:Hsel; [| |discriminate Hsel].
  - (* the first call inserted the entry *)
    rewrite (save_new_run _ _ Hsel) in Hrun.
    set (gid := new_hmm_db_id db) in *.
    pose proof (new_hmm_db_id_assigned db) as Hgid. fold gid in Hgid.
    destruct (for_each (insert_biosyn gid) _ _) as [db_b [bs'|e]] eqn:Hb;
      [|discriminate].
    destruct (for_each (insert_family gid) _ _) as [db1' [fams'|e]] eqn:Hf;
      [|discriminate].
    inversion Hrun; subst db1' self1; clear Hrun.
    destruct (insert_biosyn_loop gid Hgid _ _ _ _ Hb) as (Gb & F2b & Rb & Cb).
    destruct (insert_family_loop gid Hgid _ _ _ _ Hf) as (Gf & F2f & Cf).
    assert (Hsel1 : snd (select_hmm_db (md5_biosyn_pfam self)
                                       (md5_sub_pfam self) db1)
                    = Ok [mkHmmDbRow gid (md5_biosyn_pfam self)
                                     (md5_sub_pfam self)]).
    { unfold select_hmm_db in *. cbn [snd] in *.
      destruct Gf as [Ef _]. destruct Gb as [Eb _]. rewrite Ef, Eb.
      cbn [with_new_hmm_db hmm_db_table]. rewrite filter_app.
      inversion Hsel as [Hsel']. rewrite Hsel'.
      cbn. now rewrite !String.eqb_refl. }
    rewrite (save_existing_run
               (mkHMMDatabase gid (md5_biosyn_pfam self) (md5_sub_pfam self)
                              bs' fams') db1 _ _ Hsel1).
    cbn [r_db_id]. unfold lookup_all.
    cbn [biosyn_pfams sub_pfams md5_biosyn_pfam md5_sub_pfam].
    rewrite (map_result_fixed (lookup_biosyn gid db1) bs').
    2:{ eapply Forall_impl; [|exact Rb]. intros b Hr.
        apply lookup_biosyn_resolved. eapply resolved_grows; eassumption. }
    cbn [bind_result]. split.
    + assert (H : map_result (lookup_family gid db1) fams' = Ok fams'
                  \/ map_result (lookup_family gid db1) fams'
                     = Raise IndexError).
      { apply map_result_fixed_or_raise. apply Forall_forall.
        intros entry' Hin.
        destruct (Forall2_in_r _ _ _ _ F2f Hin) as (entry & _ & Hs).
        exact (proj1 (lookup_family_saved _ _ _ _ Hs)). }
      destruct H as [-> | ->]; [now left | now right].
    + intros [Hne|[Hri Hnd]]; [now elim Hne|].
      pose proof (covered_new_hmm_db self db Hri) as C0. fold gid in C0.
      specialize (Cb [] C0). cbn [app] in Cb.
      destruct (Cf _ Cb) as [_ L].
      rewrite (map_app fst), !map_fst_key in L. specialize (L Hnd).
      rewrite (map_result_fixed (lookup_family gid db1) fams');
        [reflexivity|].
      apply Forall_forall. intros entry' Hin.
      destruct (Forall2_in_r _ _ _ _ F2f Hin) as (entry & _ & Hs).
      apply (proj2 (lookup_family_saved _ _ _ _ Hs)).
      apply Forall_forall. intros s Hsin.
      apply (proj1 (Forall_forall _ _) L). apply in_concat.
      exists (snd entry'). split; [now apply in_map | exact Hsin].
  - (* the first call found the entry *)
    rewrite (save_existing_run _ _ _ _ Hsel) in Hrun.
    destruct rest as [|row' rest]; [|discriminate Hrun].
    inversion Hrun as [[Edb Hl]]; subst db1.
    destruct (lookup_all_again _ _ _ _ Hl) as (Hl1 & E1 & E2).
    assert (Hsel1 : snd (select_hmm_db (md5_biosyn_pfam self1)
                                       (md5_sub_pfam self1) db)
                    = Ok [row]) by (now rewrite E1, E2).
    rewrite (save_existing_run _ _ _ _ Hsel1), Hl1. split; [now left | auto].
Qed.

(** After a successful call the checksums have exactly one [hmm_db] row,
    and it carries the identifier the entry was given. *)
Lemma save_then_select (self self1 : HMMDatabase) (db db1 : Database) :
  save self db = (db1, Ok self1) ->
  exists row,
    snd (select_hmm_db (md5_biosyn_pfam self) (md5_sub_pfam self) db1)
    = Ok [row]
    /\ r_db_id row = hmmdb_id self1.
Proof.
  intros Hrun.
  destruct (snd (select_hmm_db (md5_biosyn_pfam self) (md5_sub_pfam self) db))
    as [[|row rest]|e] eqn:Hsel; [| |discriminate Hsel].
  - rewrite (save_new_run _ _ Hsel) in Hrun.
    set (gid := new_hmm_db_id db) in *.
    pose proof (new_hmm_db_id_assigned db) as Hgid. fold gid in Hgid.
    destruct (for_each (insert_biosyn gid) _ _) as [db_b [bs'|e]] eqn:Hb;
      [|discriminate].
    destruct (for_each (insert_family gid) _ _) as [db1' [fams'|e]] eqn:Hf;
      [|discriminate].
    inversion Hrun; subst db1' self1; clear Hrun.
    destruct (insert_biosyn_loop gid Hgid _ _ _ _ Hb) as ([Eb _] & _).
    destruct (insert_family_loop gid Hgid _ _ _ _ Hf) as ([Ef _] & _).
    exists (mkHmmDbRow gid (md5_biosyn_pfam self) (md5_sub_pfam self)).
    split; [|reflexivity].
    unfold select_hmm_db in *. cbn [snd] in *. rewrite Ef, Eb.
    cbn [with_new_hmm_db hmm_db_table]. rewrite filter_app.
    inversion Hsel as [Hsel']. rewrite Hsel'.
    cbn. now rewrite !String.eqb_refl.
  - rewrite (save_existing_run _ _ _ _ Hsel) in Hrun.
    destruct rest as [|row' rest]; [|discriminate Hrun].
    inversion Hrun as [[Edb Hl]]; subst db1.
    exists row. split; [exact Hsel|].
    unfold lookup_all in Hl.
    destruct (map_result _ (biosyn_pfams self)); cbn [bind_result] in Hl;
      [|discriminate].
    destruct (map_result _ (sub_pfams self)); cbn [bind_result] in Hl;
      [|discriminate].
    now inversion Hl.
Qed.

(** [save] changes identifiers only. *)
Lemma save_same_records (self self1 : HMMDatabase) (db db1 : Database) :
  save self db = (db1, Ok self1) -> same_records self self1.
Proof.
  intros Hrun.
  destruct (snd (select_hmm_db (md5_biosyn_pfam self) (md5_sub_pfam self) db))
    as [[|row rest]|e] eqn:Hsel; [| |discriminate Hsel].
  - rewrite (save_new_run _ _ Hsel) in Hrun.
    set (gid := new_hmm_db_id db) in *.
    pose proof (new_hmm_db_id_assigned db) as Hgid. fold gid in Hgid.
    destruct (for_each (insert_biosyn gid) _ _) as [db_b [bs'|e]] eqn:Hb;
      [|discriminate].
    destruct (for_each (insert_family gid) _ _) as [db1' [fams'|e]] eqn:Hf;
      [|discriminate].
    inversion Hrun; subst db1' self1; clear Hrun.
    destruct (insert_biosyn_loop gid Hgid _ _ _ _ Hb) as (_ & F2b & _).
    destruct (insert_family_loop gid Hgid _ _ _ _ Hf) as (_ & F2f & _).
    refine (conj eq_refl (conj eq_refl (conj _ _))); cbn.
    + eapply Forall2_impl; [|exact F2b]. intros p q ->. now repeat split.
    + eapply Forall2_impl; [|exact F2f].
      intros x y (Efst & prow & rest & _ & F2s & _).
      split; [now symmetry|].
      eapply Forall2_impl; [|exact F2s]. intros p q ->. now repeat split.
  - rewrite (save_existing_run _ _ _ _ Hsel) in Hrun.
    destruct rest as [|row' rest]; [|discriminate Hrun].
    inversion Hrun as [[Edb Hl]]. eapply lookup_all_same_records, Hl.
Qed.

(** C1, amended. After a call of [save] that succeeded, a second call on
    an entry with the same checksums and records (the entry as the first
    call left it, or a fresh copy) inserts nothing: the database is
    unchanged, and the call either assigns the identifiers the first call
    assigned (the entry's, [id] of every model, [parent_id] of every
    sub-model) or raises [IndexError].  It does assign them when the first
    call found the [hmm_db] row already stored, and also when the first
    call inserted it for an entry whose models have pairwise distinct
    names, in a database where every [hmm] row pointed to an [hmm_db]
    row. *)
Theorem save_twice (self self1 self2 : HMMDatabase) (db db1 : Database) :
  save self db = (db1, Ok self1) ->
  same_records self self2 ->
  (save self2 db1 = (db1, Raise IndexError)
   \/ exists self2', save self2 db1 = (db1, Ok self2')
                     /\ identifiers self2' = identifiers self1)
  /\ (snd (select_hmm_db (md5_biosyn_pfam self) (md5_sub_pfam self) db)
      <> Ok []
      \/ (referential_integrity db /\ NoDup (member_names self)) ->
      exists self2', save self2 db1 = (db1, Ok self2')
                     /\ identifiers self2' = identifiers self1).
Proof.
  intros Hrun Hsame.
  destruct (save_then_select _ _ _ _ Hrun) as (row & Hsel1 & Hrow).
  pose proof (save_same_records _ _ _ _ Hrun) as Hsame1.
  destruct (save_again_same_entry _ _ _ _ Hrun) as [Hagain Hsure].
  assert (S1 : save self1 db1 = (db1, lookup_all (r_db_id row) db1 self1)).
  { destruct Hsame1 as (E1 & E2 & _).
    apply (save_existing_run self1 db1 row []). now rewrite <- E1, <- E2. }
  assert (S2 : save self2 db1 = (db1, lookup_all (r_db_id row) db1 self2)).
  { destruct Hsame as (E1 & E2 & _).
    apply (save_existing_run self2 db1 row []). now rewrite <- E1, <- E2. }
  pose proof (lookup_all_alike (r_db_id row) db1 self1 self2
                (same_records_trans _ _ _ (same_records_sym _ _ Hsame1) Hsame))
    as Hal.
  rewrite S1 in Hagain, Hsure. rewrite S2. split.
  - destruct Hagain as [H|H]; inversion H as [H']; rewrite H' in Hal;
      destruct (lookup_all (r_db_id row) db1 self2) as [self2'|e];
      cbn [alike] in Hal; try contradiction.
    + right. exists self2'. split; [reflexivity|]. symmetry. apply Hal.
    + left. now subst e.
  - intros Hc. specialize (Hsure Hc). inversion Hsure as [H'].
    rewrite H' in Hal.
    destruct (lookup_all (r_db_id row) db1 self2) as [self2'|e];
      cbn [alike] in Hal; [|contradiction].
    exists self2'. split; [reflexivity|]. symmetry. apply Hal.
Qed.

Lemma save_twice_witness :
  let self := mkHMMDatabase (-1) "md5a" "md5b"
                [mkHMM (-1) (-1) (-1) (Some "PF00001") "pfamA" 120]
                [("PF00001", [mkHMM (-1) (-1) (-1) None "pfamA.1" 60])] in
  let self1 := mkHMMDatabase 1 "md5a" "md5b"
                 [mkHMM 1 (-1) 1 (Some "PF00001") "pfamA" 120]
                 [("PF00001", [mkHMM 2 1 1 None "pfamA.1" 60])] in
  let db1 := mkDatabase [mkHmmDbRow 1 "md5a" "md5b"]
               [mkHmmRow 1 1 "pfamA" (Some "PF00001") 120;
                mkHmmRow 2 1 "pfamA.1" None 60]
               [mkSubpfamRow 2 1] in
  exists self2', save self db1 = (db1, Ok self2')
                 /\ identifiers self2' = identifiers self1.
Proof.
  intros self self1 db1.
  refine (proj2 (save_twice self self1 self (mkDatabase [] [] []) db1 _ _) _).
  - reflexivity.
  - refine (conj eq_refl (conj eq_refl (conj _ _))); cbn.
    + repeat constructor.
    + repeat constructor.
  - right. split.
    + intros r [].
    + repeat constructor; cbn; intuition discriminate.
Defined.

(** * The parser: further properties *)

Section ParserMore.

Lemma readlines_one_line (line : string) :
  one_line line -> Py.readlines (line ++ nl) = [(line ++ nl)%string].
Proof.
  unfold one_line. induction line as [|c line IH]; intros H; [reflexivity|].
  change (Py.readlines (String c line ++ nl))
    with (if (c =? "010")%char
          then String c EmptyString :: Py.readlines (line ++ nl)
          else match Py.readlines (line ++ nl) with
               | [] => [String c EmptyString]
               | l :: ls => String c l :: ls
               end).
  destruct (Ascii.eqb_spec c "010") as [->|Hc].
  - exfalso. apply H. now left.
  - rewrite IH; [reflexivity|]. intros Hin. apply H. now right.
Qed.

(** A terminated text that fails, fails in the loop over its lines. *)
Lemma parse_lines_terminated_raise (content : string) (e : exn) :
  terminated content -> from_file content = Raise e ->
  parse_lines (Py.readlines content) initial = Raise e.
Proof.
  intros [body ->] H. unfold from_file in H. unfold initial.
  rewrite readlines_app_nl, parse_lines_app in *.
  destruct (parse_lines (Py.readlines (body ++ nl)) (no_properties, []))
    as [st|e']; simpl in *; [|now inversion H].
  change (Py.readlines ("//" ++ nl)) with ["//" ++ nl]%string in *.
  simpl parse_lines in *. rewrite parse_terminator in *.
  destruct (HMM_init (fst st)) as [h|e']; simpl in *; [discriminate H|].
  now inversion H.
Qed.

Lemma parse_line_unrecognised (raw : string) (st : properties * list HMM) :
  unrecognised raw -> parse_line raw st = Ok st.
Proof.
  intros (H1 & H2 & H3 & H4). unfold parse_line. destruct st as [p rs].
  rewrite H1, H2, H3. apply String.eqb_neq in H4. now rewrite H4.
Qed.

(** What one line adds to the records. *)
Lemma parse_line_count (raw : string) (p p' : properties)
  (rs rs' : list HMM) :
  parse_line raw (p, rs) = Ok (p', rs') ->
  length rs' = (length rs + count_terminators [raw])%nat
  /\ (Forall unassigned rs -> Forall unassigned rs').
Proof.
  unfold parse_line, count_terminators. cbn [filter].
  destruct (String.eqb_spec (Py.rstrip raw) "//") as [E|E].
  - rewrite E. cbn.
    destruct (HMM_init p) as [h|e] eqn:Eh; cbn [bind_result]; [|discriminate].
    intros H; inversion H; subst. rewrite length_app. cbn. split; [lia|].
    intros F. apply Forall_app. split; [exact F|].
    constructor; [|constructor]. unfold HMM_init in Eh.
    destruct (p_name p); [|discriminate]. destruct (p_model_length p);
      inversion Eh. now repeat split.
  - cbn [length]. rewrite Nat.add_0_r.
    destruct (Py.startswith _ "NAME"); [intros H; inversion H; now subst|].
    destruct (Py.startswith _ "ACC"); [intros H; inversion H; now subst|].
    destruct (Py.startswith _ "LENG").
    + destruct (Py.int _); cbn [bind_result]; intros H; inversion H.
      now subst.
    + intros H; inversion H. now subst.
Qed.

Lemma count_terminators_cons (raw : string) (lines : list string) :
  count_terminators (raw :: lines)
  = (count_terminators [raw] + count_terminators lines)%nat.
Proof.
  unfold count_terminators. cbn [filter].
  destruct (Py.rstrip raw =? "//")%string; reflexivity.
Qed.

Lemma parse_lines_count (lines : list string) (p p' : properties)
  (rs rs' : list HMM) :
  parse_lines lines (p, rs) = Ok (p', rs') ->
  length rs' = (length rs + count_terminators lines)%nat
  /\ (Forall unassigned rs -> Forall unassigned rs').
Proof.
  revert p rs. induction lines as [|raw lines IH]; intros p rs; cbn [parse_lines].
  - intros H; inversion H; subst. cbn. split; [lia | auto].
  - destruct (parse_line raw (p, rs)) as [[p1 rs1]|e] eqn:E1;
      cbn [bind_result]; [|discriminate].
    intros H. destruct (parse_line_count _ _ _ _ _ E1) as [L1 U1].
    destruct (IH _ _ H) as [L2 U2]. rewrite count_terminators_cons.
    split; [lia | auto].
Qed.

End ParserMore.

(** X1. Parsing goes through concatenation after a terminated text: the
    records of the first text come first, those of the second follow, and
    the exception of the first part to fail is the exception of the
    whole. *)
Theorem from_file_concat (pre tail : string) :
  terminated pre ->
  from_file (pre ++ tail)
  = bind_result (from_file pre)
      (fun rs => bind_result (from_file tail)
                   (fun rs' => Ok (rs ++ rs')%list)).
Proof.
  intros T. destruct (from_file pre) as [rs|e] eqn:E; cbn [bind_result].
  - now apply from_file_after_terminated.
  - pose proof (parse_lines_terminated_raise _ _ T E) as Hl.
    destruct (terminated_ends_nl _ T) as [s ->].
    unfold from_file. fold initial.
    rewrite append_assoc, readlines_app_nl, parse_lines_app, Hl. reflexivity.
Qed.

Lemma from_file_concat_witness :
  from_file (("NAME a" ++ nl ++ "LENG 1" ++ nl ++ "//" ++ nl)
             ++ ("NAME b" ++ nl ++ "LENG x" ++ nl ++ "//" ++ nl))
  = Raise ValueError.
Proof.
  rewrite (from_file_concat ("NAME a" ++ nl ++ "LENG 1" ++ nl ++ "//" ++ nl)).
  - reflexivity.
  - exists ("NAME a" ++ nl ++ "LENG 1")%string. reflexivity.
Defined.

Lemma parsed_unassigned (content : string) (rs : list HMM) :
  from_file content = Ok rs -> Forall unassigned rs.
Proof.
  unfold from_file.
  destruct (parse_lines (Py.readlines content) (no_properties, []))
    as [[p rs0]|e] eqn:E; cbn [bind_result]; [|discriminate].
  destruct (parse_lines_count _ _ _ _ _ E) as [_ U].
  specialize (U (Forall_nil _)). unfold finish.
  destruct (nonempty p); [|intros H; inversion H; now subst].
  destruct (HMM_init p) as [h|e] eqn:Eh; cbn [bind_result]; [|discriminate].
  intros H; inversion H; subst. apply Forall_app. split; [exact U|].
  constructor; [|constructor]. unfold HMM_init in Eh.
  destruct (p_name p); [|discriminate].
  destruct (p_model_length p); inversion Eh. now repeat split.
Qed.

(** X2. Every record the parser returns is unassigned: [id], [parent_id]
    and [db_id] are all -1, whatever the file holds. *)
Theorem from_file_unassigned (content : string) (rs : list HMM) :
  from_file content = Ok rs -> Forall unassigned rs.
Proof. apply parsed_unassigned. Qed.

Lemma from_file_unassigned_witness :
  Forall unassigned [mkHMM (-1) (-1) (-1) None "bar" 50].
Proof.
  apply (from_file_unassigned ("NAME bar" ++ nl ++ "LENG 50" ++ nl)).
  reflexivity.
Defined.

(** X3. A line that opens with none of the keywords and is not the
    terminator changes nothing: with it or without it between two lines (or
    in front), the file parses to the same result. *)
Theorem from_file_skips_unrecognised (pre line post : string) :
  pre = "" \/ (exists p, pre = (p ++ nl)%string) ->
  one_line line -> unrecognised (line ++ nl) ->
  from_file (pre ++ (line ++ nl) ++ post) = from_file (pre ++ post).
Proof.
  intros Hpre Hone Hun.
  assert (Hjunk : forall st,
             parse_lines (Py.readlines ((line ++ nl) ++ post)) st
             = parse_lines (Py.readlines post) st).
  { intros st. rewrite append_assoc, readlines_app_nl, parse_lines_app.
    rewrite (readlines_one_line _ Hone). cbn [parse_lines].
    now rewrite (parse_line_unrecognised _ _ Hun). }
  unfold from_file. destruct Hpre as [->|[p ->]].
  - cbn [append]. now rewrite Hjunk.
  - rewrite !(append_assoc p), !readlines_app_nl, !parse_lines_app.
    destruct (parse_lines (Py.readlines (p ++ nl)) (no_properties, []))
      as [st|e]; cbn [bind_result]; [|reflexivity].
    now rewrite Hjunk.
Qed.

Lemma from_file_skips_unrecognised_witness :
  from_file (("NAME foo" ++ nl) ++ ("HMMER3/f [3.1b2]" ++ nl)
             ++ ("LENG 120" ++ nl ++ "//" ++ nl))
  = Ok [mkHMM (-1) (-1) (-1) None "foo" 120].
Proof.
  rewrite (from_file_skips_unrecognised ("NAME foo" ++ nl) "HMMER3/f [3.1b2]").
  - reflexivity.
  - right. now exists "NAME foo"%string.
  - unfold one_line. cbn. intuition discriminate.
  - repeat split; try reflexivity. discriminate.
Defined.

(** X4. A terminator met while no field is set raises [KeyError] for the
    name: at the start of a file, or right after another terminator, an
    empty block is an error and is not skipped. *)
Theorem from_file_empty_block (pre post : string) (rs : list HMM) :
  pre = "" \/ terminated pre ->
  from_file pre = Ok rs ->
  from_file (pre ++ ("//" ++ nl) ++ post) = Raise (KeyError "name").
Proof.
  intros Hpre Hp.
  assert (E : from_file (("//" ++ nl) ++ post) = Raise (KeyError "name")).
  { unfold from_file. rewrite append_assoc, (readlines_app_nl "//" post).
    reflexivity. }
  destruct Hpre as [->|T].
  - exact E.
  - now rewrite (from_file_after_terminated _ _ _ T Hp), E.
Qed.

Lemma from_file_empty_block_witness :
  from_file (("NAME foo" ++ nl ++ "LENG 120" ++ nl ++ "//" ++ nl)
             ++ ("//" ++ nl) ++ "")
  = Raise (KeyError "name").
Proof.
  apply (from_file_empty_block _ _ [mkHMM (-1) (-1) (-1) None "foo" 120]).
  - right. exists ("NAME foo" ++ nl ++ "LENG 120")%string. reflexivity.
  - reflexivity.
Defined.

Lemma parse_line_open (raw : string) (p p' : properties)
  (rs rs' : list HMM) :
  parse_line raw (p, rs) = Ok (p', rs') ->
  nonempty p' = block_open [raw] (nonempty p).
Proof.
  unfold parse_line. cbn [block_open]. unfold sets_field.
  destruct (Py.startswith _ "NAME"); cbn [orb];
    [intros H; inversion H; reflexivity|].
  destruct (Py.startswith _ "ACC"); cbn [orb].
  { intros H; inversion H. unfold nonempty. cbn.
    now destruct (p_name p). }
  destruct (Py.startswith _ "LENG"); cbn [orb].
  { destruct (Py.int _); cbn [bind_result]; intros H; inversion H.
    unfold nonempty. cbn. destruct (p_name p); now destruct (p_accession p). }
  destruct (Py.rstrip raw =? "//")%string.
  - destruct (HMM_init p); cbn [bind_result]; intros H; inversion H.
    reflexivity.
  - intros H; inversion H. reflexivity.
Qed.

Lemma parse_lines_open (lines : list string) (p p' : properties)
  (rs rs' : list HMM) :
  parse_lines lines (p, rs) = Ok (p', rs') ->
  nonempty p' = block_open lines (nonempty p).
Proof.
  revert p rs. induction lines as [|raw lines IH]; intros p rs;
    cbn [parse_lines].
  - intros H; inversion H; reflexivity.
  - destruct (parse_line raw (p, rs)) as [[p1 rs1]|e] eqn:E1;
      cbn [bind_result]; [|discriminate].
    intros H. rewrite (IH _ _ H), (parse_line_open _ _ _ _ _ E1).
    reflexivity.
Qed.

(** X5. When a file parses, the number of records is read off the kinds of
    its lines: one record for every terminator line, and one more exactly
    when a block is left open at the end, that is, when a line that opens
    with [NAME], [ACC] or [LENG] comes after the last terminator line. *)
Theorem from_file_record_count (content : string) (rs : list HMM) :
  from_file content = Ok rs ->
  length rs
  = (count_terminators (Py.readlines content)
     + if block_open (Py.readlines content) false then 1 else 0)%nat.
Proof.
  unfold from_file. intros H.
  destruct (parse_lines (Py.readlines content) (no_properties, []))
    as [[p rs0]|e] eqn:E; cbn [bind_result] in H; [|discriminate].
  destruct (parse_lines_count _ _ _ _ _ E) as [L _]. cbn [length] in L.
  rewrite <- (parse_lines_open _ _ _ _ _ E : _ = block_open _ false).
  unfold finish in H. destruct (nonempty p).
  - destruct (HMM_init p); cbn [bind_result] in H; inversion H; subst.
    rewrite length_app. cbn [length]. lia.
  - inversion H; subst. lia.
Qed.

Lemma from_file_record_count_witness :
  length [mkHMM (-1) (-1) (-1) None "foo" 120;
          mkHMM (-1) (-1) (-1) None "bar" 50] = (1 + 1)%nat
  /\ length [mkHMM (-1) (-1) (-1) None "foo" 120] = (1 + 0)%nat.
Proof.
  split.
  - exact (from_file_record_count
             ("NAME foo" ++ nl ++ "LENG 120" ++ nl ++ "//" ++ nl
              ++ "NAME bar" ++ nl ++ "LENG 50" ++ nl)
             [mkHMM (-1) (-1) (-1) None "foo" 120;
              mkHMM (-1) (-1) (-1) None "bar" 50] eq_refl).
  - exact (from_file_record_count
             ("NAME foo" ++ nl ++ "LENG 120" ++ nl ++ "// " ++ nl
              ++ "HMM  A  C" ++ nl)
             [mkHMM (-1) (-1) (-1) None "foo" 120] eq_refl).
Defined.

(** * The member-level save: further properties *)

(** X6. Saving a model a second time changes nothing: after a successful
    [__save__], the same call on the model as it was or as it was left
    returns the same identifier and the database is untouched. *)
Theorem HMM_save_idempotent (h h' : HMM) (db db' : Database) :
  HMM_save h db = (db', Ok h') ->
  HMM_save h db' = (db', Ok h') /\ HMM_save h' db' = (db', Ok h').
Proof.
  intros Hrun.
  destruct (Z_lt_le_dec (-1) (db_id h)) as [Hid|Hid].
  2:{ rewrite (HMM_save_unassigned _ _ Hid) in Hrun. discriminate Hrun. }
  pose proof Hrun as Hc. rewrite (HMM_save_cases _ _ Hid) in Hc.
  assert (G : exists row, hmm_by_name (name h) (db_id h) db' = [row]
                          /\ r_model_length row = model_length h
                          /\ h' = set_id (r_id row) h).
  { destruct (hmm_by_name (name h) (db_id h) db) as [|row [|row' rest]] eqn:Hq.
    - inversion Hc; subst; clear Hc. eexists. split; [|split].
      + rewrite hmm_by_name_with_new_hmm, Hq, String.eqb_refl. reflexivity.
      + reflexivity.
      + reflexivity.
    - destruct (Z.eqb_spec (model_length h) (r_model_length row));
        [|discriminate Hc].
      inversion Hc; subst; clear Hc. exists row. now repeat split.
    - discriminate Hc. }
  destruct G as (row & Hq' & Hlen & ->).
  assert (Hid' : -1 < db_id (set_id (r_id row) h)) by exact Hid.
  rewrite (HMM_save_cases _ _ Hid), (HMM_save_cases _ _ Hid').
  cbn [name db_id model_length set_id]. rewrite Hq', Hlen, Z.eqb_refl.
  now split.
Qed.

Lemma HMM_save_idempotent_witness :
  let h := mkHMM (-1) (-1) 1 None "pfamA" 10 in
  let h' := mkHMM 1 (-1) 1 None "pfamA" 10 in
  let db' := mkDatabase [mkHmmDbRow 1 "a" "b"] [mkHmmRow 1 1 "pfamA" None 10] [] in
  HMM_save h db' = (db', Ok h').
Proof.
  intros h h' db'.
  exact (proj1 (HMM_save_idempotent h h'
                  (mkDatabase [mkHmmDbRow 1 "a" "b"] [] []) db' eq_refl)).
Defined.

(** X7. A [__save__] that raises has inserted nothing, and it raises only
    the failed assertion or the conflict exception. *)
Theorem HMM_save_raise_unchanged (h : HMM) (db db' : Database) (e : exn) :
  HMM_save h db = (db', Raise e) ->
  db' = db
  /\ (e = AssertionError \/ e = Exception (conflict_message (name h))).
Proof.
  destruct (Z_lt_le_dec (-1) (db_id h)) as [Hid|Hid].
  - rewrite (HMM_save_cases _ _ Hid).
    destruct (hmm_by_name (name h) (db_id h) db) as [|row [|row' rest]].
    + discriminate.
    + destruct (model_length h =? r_model_length row); [discriminate|].
      intros H; inversion H. split; [reflexivity | now right].
    + intros H; inversion H. split; [reflexivity | now left].
  - rewrite (HMM_save_unassigned _ _ Hid).
    intros H; inversion H. split; [reflexivity | now left].
Qed.

Lemma HMM_save_raise_unchanged_witness :
  let db := mkDatabase [mkHmmDbRow 1 "a" "b"]
              [mkHmmRow 1 1 "pfamA" None 10; mkHmmRow 2 1 "pfamA" None 10] [] in
  db = db /\ (AssertionError = AssertionError
              \/ AssertionError = Exception (conflict_message "pfamA")).
Proof.
  intros db.
  exact (HMM_save_raise_unchanged (mkHMM (-1) (-1) 1 None "pfamA" 10)
           db db AssertionError eq_refl).
Defined.

(** X8. A record straight from the parser cannot be saved on its own: its
    [db_id] is -1, so [__save__] fails its first assertion and the database
    is untouched. *)
Theorem parsed_record_not_saved (content : string) (rs : list HMM) (h : HMM)
  (db : Database) :
  from_file content = Ok rs -> In h rs ->
  HMM_save h db = (db, Raise AssertionError).
Proof.
  intros Hp Hin. apply HMM_save_unassigned.
  pose proof (proj1 (Forall_forall _ _) (parsed_unassigned _ _ Hp) h Hin)
    as (_ & _ & E).
  rewrite E. lia.
Qed.

Lemma parsed_record_not_saved_witness :
  HMM_save (mkHMM (-1) (-1) (-1) None "bar" 50) (mkDatabase [] [] [])
  = (mkDatabase [] [] [], Raise AssertionError).
Proof.
  apply (parsed_record_not_saved ("NAME bar" ++ nl ++ "LENG 50" ++ nl)
           [mkHMM (-1) (-1) (-1) None "bar" 50]).
  - reflexivity.
  - now left.
Defined.

(** X9. What [__save__] stores, the lookup of [save] finds: after a
    successful [__save__] the name of the model has exactly one row under
    its group, with the identifier the model was given and its model
    length, and the lookup by name and group returns the model as it was
    left. *)
Theorem HMM_save_then_lookup (h h' : HMM) (db db' : Database) :
  HMM_save h db = (db', Ok h') ->
  (exists row,
      hmm_by_name (name h) (db_id h) db' = [row]
      /\ r_id row = id h' /\ r_model_length row = model_length h)
  /\ rehydrate_biosyn (db_id h) h db' = (db', Ok h').
Proof.
  intros Hrun.
  destruct (Z_lt_le_dec (-1) (db_id h)) as [Hid|Hid].
  2:{ rewrite (HMM_save_unassigned _ _ Hid) in Hrun. discriminate Hrun. }
  pose proof Hrun as Hc. rewrite (HMM_save_cases _ _ Hid) in Hc.
  assert (G : exists row, hmm_by_name (name h) (db_id h) db' = [row]
                          /\ r_model_length row = model_length h
                          /\ h' = set_id (r_id row) h).
  { destruct (hmm_by_name (name h) (db_id h) db) as [|row [|row' rest]] eqn:Hq.
    - inversion Hc; subst; clear Hc. eexists. split; [|split].
      + rewrite hmm_by_name_with_new_hmm, Hq, String.eqb_refl. reflexivity.
      + reflexivity.
      + reflexivity.
    - destruct (Z.eqb_spec (model_length h) (r_model_length row));
        [|discriminate Hc].
      inversion Hc; subst; clear Hc. exists row. now repeat split.
    - discriminate Hc. }
  destruct G as (row & Hq' & Hlen & ->). split.
  - exists row. now repeat split.
  - rewrite rehydrate_biosyn_run. unfold lookup_biosyn. now rewrite Hq'.
Qed.

Lemma HMM_save_then_lookup_witness :
  let h := mkHMM (-1) (-1) 1 None "pfamA" 10 in
  let db' := mkDatabase [mkHmmDbRow 1 "a" "b"] [mkHmmRow 1 1 "pfamA" None 10] [] in
  rehydrate_biosyn 1 h db' = (db', Ok (mkHMM 1 (-1) 1 None "pfamA" 10)).
Proof.
  intros h db'.
  exact (proj2 (HMM_save_then_lookup h (mkHMM 1 (-1) 1 None "pfamA" 10)
                  (mkDatabase [mkHmmDbRow 1 "a" "b"] [] []) db' eq_refl)).
Defined.

(** * The group-level save: what it writes, and what it keeps *)

Section Trace.

Lemma insertions_trans (db1 db2 db3 : Database) :
  insertions db1 db2 -> insertions db2 db3 -> insertions db1 db3.
Proof.
  intros H12 H23. induction H23 as [|db2 db3 db4 _ IH Hs]; [exact H12|].
  eapply insertions_more; [apply IH; exact H12 | exact Hs].
Qed.

Lemma insertions_one (db db' : Database) :
  insertion db db' -> insertions db db'.
Proof. intros H. eapply insertions_more; [apply insertions_none | exact H]. Qed.

Lemma insertion_extends (db db' : Database) :
  insertion db db' -> extends db db'.
Proof.
  intros [db0 a b _|db0 gid nm acc len _ _|db0 i p _]; cbn;
    repeat split; cbn; try (eexists; reflexivity);
    exists []; now rewrite app_nil_r.
Qed.

Lemma extends_refl (db : Database) : extends db db.
Proof. repeat split; exists []; now rewrite app_nil_r. Qed.

Lemma extends_trans (db1 db2 db3 : Database) :
  extends db1 db2 -> extends db2 db3 -> extends db1 db3.
Proof.
  intros ([g1 G1] & [h1 H1] & [s1 S1]) ([g2 G2] & [h2 H2] & [s2 S2]).
  repeat split.
  - exists (g1 ++ g2)%list. now rewrite G2, G1, app_assoc.
  - exists (h1 ++ h2)%list. now rewrite H2, H1, app_assoc.
  - exists (s1 ++ s2)%list. now rewrite S2, S1, app_assoc.
Qed.

Lemma insertions_extends (db db' : Database) :
  insertions db db' -> extends db db'.
Proof.
  induction 1 as [|db1 db2 db3 _ IH Hs]; [apply extends_refl|].
  eapply extends_trans; [exact IH | now apply insertion_extends].
Qed.

Lemma extends_hmm_db_id (db db' : Database) (gid : Z) :
  extends db db' -> In gid (map r_db_id (hmm_db_table db)) ->
  In gid (map r_db_id (hmm_db_table db')).
Proof.
  intros ([gs E] & _) H. rewrite E, map_app. apply in_or_app. now left.
Qed.

Lemma extends_hmm_id (db db' : Database) (i : Z) :
  extends db db' -> In i (map r_id (hmm_table db)) ->
  In i (map r_id (hmm_table db')).
Proof.
  intros (_ & [hs E] & _) H. rewrite E, map_app. apply in_or_app. now left.
Qed.

(** An invariant of a loop, whatever its outcome. *)
Lemma for_each_any {A B} (f : A -> M B) (I : Database -> Prop) :
  (forall a db db' r, I db -> f a db = (db', r) -> I db') ->
  forall l db db' r, I db -> for_each f l db = (db', r) -> I db'.
Proof.
  intros Hf l. induction l as [|a l IH]; intros db db' r HI; cbn [for_each].
  - intros H; inversion H; now subst.
  - unfold bind at 1. destruct (f a db) as [db1 [b|e]] eqn:Ea.
    + unfold bind at 1.
      destruct (for_each f l db1) as [db2 [bs|e]] eqn:El;
        intros H; inversion H; subst;
        eapply IH; [eapply Hf; eassumption | exact El
                   |eapply Hf; eassumption | exact El].
    + intros H; inversion H; subst. eapply Hf; eassumption.
Qed.

(** The element a failed loop failed at, and the state it was met in. *)
Lemma for_each_raise {A B} (f : A -> M B) (I : Database -> Prop) :
  (forall a db db' r, I db -> f a db = (db', r) -> I db') ->
  forall l db db' e, I db -> for_each f l db = (db', Raise e) ->
  exists a dba, In a l /\ I dba /\ f a dba = (db', Raise e).
Proof.
  intros Hf l. induction l as [|a l IH]; intros db db' e HI; cbn [for_each].
  - discriminate.
  - unfold bind at 1. destruct (f a db) as [db1 [b|e1]] eqn:Ea.
    + unfold bind at 1.
      destruct (for_each f l db1) as [db2 [bs|e2]] eqn:El;
        intros H; inversion H; subst.
      destruct (IH _ _ _ (Hf _ _ _ _ HI Ea) El) as (x & dbx & Hx & Ix & Ex).
      exists x, dbx. split; [now right | now split].
    + intros H; inversion H; subst. exists a, db. split; [now left | now split].
Qed.

(** One [__save__] under a stored entry. *)
Lemma HMM_save_insertions (h : HMM) (db db' : Database) (r : result HMM) :
  In (db_id h) (map r_db_id (hmm_db_table db)) ->
  HMM_save h db = (db', r) -> insertions db db'.
Proof.
  intros Hg.
  destruct (Z_lt_le_dec (-1) (db_id h)) as [Hid|Hid].
  2:{ rewrite (HMM_save_unassigned _ _ Hid). intros H; inversion H.
      apply insertions_none. }
  rewrite (HMM_save_cases _ _ Hid).
  destruct (hmm_by_name (name h) (db_id h) db) as [|row [|row' rest]] eqn:Hq.
  - intros H; inversion H; subst; clear H. unfold with_new_hmm.
    pose proof (insertion_hmm db (db_id h) (name h) (accession h)
                  (model_length h) Hg Hq) as S1.
    destruct (Z.ltb_spec (-1) (parent_id h)) as [Hpar|Hpar].
    + eapply insertions_more; [apply insertions_one; exact S1|].
      match goal with |- insertion ?d _ =>
        pose proof (insertion_subpfam d
                      (next_id (map r_id (hmm_table db))) (parent_id h)) as S2
      end.
      cbn [hmm_db_table hmm_table subpfam_table] in S2. apply S2.
      rewrite map_app. apply in_or_app. right. now left.
    + apply insertions_one. exact S1.
  - destruct (model_length h =? r_model_length row);
      intros H; inversion H; apply insertions_none.
  - intros H; inversion H; apply insertions_none.
Qed.

(** A loop of [__save__] under a stored entry. *)
Lemma for_each_save_insertions {A} (prepare : A -> HMM) (gid : Z)
  (l : list A) (db db' : Database) (r : result (list HMM)) :
  (forall a, db_id (prepare a) = gid) ->
  In gid (map r_db_id (hmm_db_table db)) ->
  for_each (fun a => HMM_save (prepare a)) l db = (db', r) ->
  insertions db db'.
Proof.
  intros Hprep Hg Hl.
  refine (for_each_any (fun a => HMM_save (prepare a))
            (fun d => insertions db d) _ l db db' r (insertions_none db) Hl).
  intros a d d' r' Hd Hs. eapply insertions_trans; [exact Hd|].
  eapply HMM_save_insertions; [|exact Hs]. rewrite Hprep.
  eapply extends_hmm_db_id; [apply insertions_extends|]; eassumption.
Qed.

Lemma insert_family_insertions (gid : Z) (entry : string * list HMM)
  (db db' : Database) (r : result (string * list HMM)) :
  In gid (map r_db_id (hmm_db_table db)) ->
  insert_family gid entry db = (db', r) -> insertions db db'.
Proof.
  intros Hg. destruct entry as [acc subs]. rewrite insert_family_cases.
  destruct (hmm_by_accession acc gid db) as [|prow rest] eqn:Hp.
  - intros H; inversion H. apply insertions_none.
  - destruct (for_each (insert_sub gid (r_id prow)) subs db)
      as [db1 r1] eqn:Hl.
    assert (G : insertions db db1).
    { apply (for_each_save_insertions
               (fun s => set_parent_id (r_id prow) (set_db_id gid s))
               gid subs db db1 r1); auto. }
    destruct r1; intros H; inversion H; now subst.
Qed.

(** Whatever its outcome, [save] has only inserted rows, each in the way
    of [insertion]. *)
Lemma save_insertions (self : HMMDatabase) (db db' : Database)
  (r : result HMMDatabase) :
  save self db = (db', r) -> insertions db db'.
Proof.
  destruct (snd (select_hmm_db (md5_biosyn_pfam self) (md5_sub_pfam self) db))
    as [[|row rest]|e] eqn:Hsel; [| |discriminate Hsel].
  - rewrite (save_new_run _ _ Hsel).
    set (gid := new_hmm_db_id db).
    assert (S0 : insertion db (with_new_hmm_db self db)).
    { apply insertion_hmm_db. unfold select_hmm_db in Hsel. cbn in Hsel.
      now inversion Hsel. }
    assert (Hg : In gid (map r_db_id (hmm_db_table (with_new_hmm_db self db)))).
    { cbn. rewrite map_app. apply in_or_app. right. now left. }
    destruct (for_each (insert_biosyn gid) _ _) as [db_b rb] eqn:Hb.
    assert (Gb : insertions (with_new_hmm_db self db) db_b).
    { apply (for_each_save_insertions (set_db_id gid) gid _ _ _ _
               (fun _ => eq_refl) Hg Hb). }
    assert (G0 : insertions db db_b)
      by (eapply insertions_trans; [apply insertions_one; exact S0 | exact Gb]).
    destruct rb as [biosyn|e]; [|intros H; inversion H; now subst].
    destruct (for_each (insert_family gid) _ _) as [db1 rf] eqn:Hf.
    assert (Gf : insertions db_b db1).
    { refine (for_each_any (insert_family gid)
                (fun d => insertions db_b d) _ _ _ _ _
                (insertions_none db_b) Hf).
      intros a d d' r' Hd Hs. eapply insertions_trans; [exact Hd|].
      eapply insert_family_insertions; [|exact Hs].
      apply (extends_hmm_db_id (with_new_hmm_db self db) d gid);
        [apply insertions_extends; eapply insertions_trans;
         [exact Gb | exact Hd]
        |exact Hg]. }
    destruct rf; intros H; inversion H; subst;
      eapply insertions_trans; eassumption.
  - rewrite (save_existing_run _ _ _ _ Hsel).
    intros H; inversion H. apply insertions_none.
Qed.

End Trace.

Section Invariants.

Lemma insertions_keep (P : Database -> Prop) :
  (forall db db', P db -> insertion db db' -> P db') ->
  forall db db', P db -> insertions db db' -> P db'.
Proof.
  intros Hstep db db' HP H. induction H as [|db1 db2 db3 _ IH Hs]; eauto.
Qed.

Lemma NoDup_snoc {A} (l : list A) (x : A) :
  NoDup l -> ~ In x l -> NoDup (l ++ [x]).
Proof.
  intros Hl Hx. apply NoDup_app; [exact Hl | repeat constructor; intros [] |].
  intros a Ha [<-|[]]. now apply Hx.
Qed.

Lemma insertion_keeps_referential_integrity (db db' : Database) :
  referential_integrity db -> insertion db db' -> referential_integrity db'.
Proof.
  intros RI H; revert RI.
  destruct H as [db0 a b _|db0 gid nm acc len Hg _|db0 i p _];
    intros RI r Hr; cbn [hmm_table hmm_db_table] in *.
  - rewrite map_app. apply in_or_app. left. now apply RI.
  - apply in_app_or in Hr. cbn [In] in Hr.
    destruct Hr as [Hr|[<-|[]]]; [now apply RI | exact Hg].
  - now apply RI.
Qed.

Lemma insertion_keeps_subpfam_integrity (db db' : Database) :
  subpfam_integrity db -> insertion db db' -> subpfam_integrity db'.
Proof.
  intros SI H; revert SI.
  destruct H as [db0 a b _|db0 gid nm acc len _ _|db0 i p Hi];
    intros SI s Hs; cbn [hmm_table subpfam_table] in *.
  - now apply SI.
  - rewrite map_app. apply in_or_app. left. now apply SI.
  - apply in_app_or in Hs. cbn [In] in Hs.
    destruct Hs as [Hs|[<-|[]]]; [now apply SI | exact Hi].
Qed.

Lemma insertion_keeps_names_unique (db db' : Database) :
  names_unique db -> insertion db db' -> names_unique db'.
Proof.
  intros NU H; revert NU.
  destruct H as [db0 a b _|db0 gid nm acc len _ Hnone|db0 i p _];
    intros NU nm' gid'; try exact (NU nm' gid').
  unfold hmm_by_name in *. cbn [hmm_table]. rewrite filter_app, length_app.
  cbn [filter r_name r_hmm_db_id].
  destruct (String.eqb_spec nm nm') as [<-|]; cbn [andb length];
    [|specialize (NU nm' gid'); unfold hmm_by_name in NU; lia].
  destruct (Z.eqb_spec gid gid') as [<-|]; cbn [length];
    [|specialize (NU nm gid'); unfold hmm_by_name in NU; lia].
  rewrite Hnone. cbn. lia.
Qed.

Lemma insertion_keeps_checksums_unique (db db' : Database) :
  checksums_unique db -> insertion db db' -> checksums_unique db'.
Proof.
  intros CU H; revert CU.
  destruct H as [db0 a b Hnone|db0 gid nm acc len _ _|db0 i p _];
    intros CU a' b'; try exact (CU a' b').
  unfold hmm_db_by_checksums in *. cbn [hmm_db_table].
  rewrite filter_app, length_app.
  cbn [filter r_md5_biosyn_pfam r_md5_sub_pfam].
  destruct (String.eqb_spec a a') as [<-|]; cbn [andb length];
    [|specialize (CU a' b'); unfold hmm_db_by_checksums in CU; lia].
  destruct (String.eqb_spec b b') as [<-|]; cbn [length];
    [|specialize (CU a b'); unfold hmm_db_by_checksums in CU; lia].
  rewrite Hnone. cbn. lia.
Qed.

Lemma insertion_keeps_ids_unique (db db' : Database) :
  ids_unique db -> insertion db db' -> ids_unique db'.
Proof.
  intros U H; revert U.
  destruct H as [db0 a b _|db0 gid nm acc len _ _|db0 i p _];
    intros [U1 U2]; split;
    cbn [hmm_table hmm_db_table]; try assumption;
    rewrite map_app; apply NoDup_snoc; try assumption; apply next_id_fresh.
Qed.

(** The group row is there once [save] has run, whatever the outcome. *)
Lemma save_leaves_hmm_db_row (self : HMMDatabase) (db db' : Database)
  (r : result HMMDatabase) :
  save self db = (db', r) ->
  hmm_db_by_checksums (md5_biosyn_pfam self) (md5_sub_pfam self) db' <> [].
Proof.
  intros Hrun. pose proof (save_insertions _ _ _ _ Hrun) as Hins.
  destruct (snd (select_hmm_db (md5_biosyn_pfam self) (md5_sub_pfam self) db))
    as [[|row rest]|e] eqn:Hsel; [| |discriminate Hsel].
  - rewrite (save_new_run _ _ Hsel) in Hrun.
    set (gid := new_hmm_db_id db) in *.
    assert (X : extends (with_new_hmm_db self db) db').
    { destruct (for_each (insert_biosyn gid) _ _) as [db_b rb] eqn:Hb.
      assert (Hg : In gid (map r_db_id
                             (hmm_db_table (with_new_hmm_db self db))))
        by (cbn; rewrite map_app; apply in_or_app; right; now left).
      pose proof (for_each_save_insertions (set_db_id gid) gid _ _ _ _
                    (fun _ => eq_refl) Hg Hb) as Gb.
      destruct rb as [biosyn|e];
        [|inversion Hrun; subst; now apply insertions_extends].
      destruct (for_each (insert_family gid) _ _) as [db1 rf] eqn:Hf.
      assert (Gf : insertions db_b db1).
      { refine (for_each_any (insert_family gid)
                  (fun d => insertions db_b d) _ _ _ _ _
                  (insertions_none db_b) Hf).
        intros a d d' r' Hd Hs. eapply insertions_trans; [exact Hd|].
        eapply insert_family_insertions; [|exact Hs].
        apply (extends_hmm_db_id (with_new_hmm_db self db) d gid);
          [apply insertions_extends; eapply insertions_trans;
           [exact Gb | exact Hd]
          |exact Hg]. }
      apply insertions_extends.
      destruct rf; inversion Hrun; subst;
        eapply insertions_trans; eassumption. }
    destruct X as ([gs E] & _). unfold hmm_db_by_checksums. rewrite E.
    cbn [with_new_hmm_db hmm_db_table]. rewrite !filter_app.
    cbn [filter r_md5_biosyn_pfam r_md5_sub_pfam].
    rewrite !String.eqb_refl. cbn [andb].
    intros H. apply app_eq_nil in H. destruct H as [H _].
    apply app_eq_nil in H. destruct H as [_ H]. discriminate H.
  - rewrite (save_existing_run _ _ _ _ Hsel) in Hrun. inversion Hrun; subst.
    unfold select_hmm_db in Hsel. cbn in Hsel. inversion Hsel as [Hsel'].
    unfold hmm_db_by_checksums. rewrite Hsel'. discriminate.
Qed.

End Invariants.

(** X10. [save] only appends: whether it returns or raises, every row that
    was in the database is still there, unchanged and in its place; rows
    are never deleted or rewritten. *)
Theorem save_append_only (self : HMMDatabase) (db db' : Database)
  (r : result HMMDatabase) :
  save self db = (db', r) -> extends db db'.
Proof. intros H. apply insertions_extends. eapply save_insertions, H. Qed.

Lemma save_append_only_witness :
  extends (mkDatabase [] [] [])
          (mkDatabase [mkHmmDbRow 1 "md5a" "md5b"]
                      [mkHmmRow 1 1 "pfamA" (Some "PA") 10] []).
Proof.
  eapply (save_append_only
            (mkHMMDatabase (-1) "md5a" "md5b"
               [mkHMM (-1) (-1) (-1) (Some "PA") "pfamA" 10] [])).
  reflexivity.
Defined.

(** X11. [save] keeps the references between the relations valid, whether
    it returns or raises: if every [hmm] row pointed to an [hmm_db] row and
    every [subpfam] row was the row of a model in [hmm], this still holds
    afterwards. *)
Theorem save_keeps_references (self : HMMDatabase) (db db' : Database)
  (r : result HMMDatabase) :
  referential_integrity db -> subpfam_integrity db ->
  save self db = (db', r) ->
  referential_integrity db' /\ subpfam_integrity db'.
Proof.
  intros RI SI H. pose proof (save_insertions _ _ _ _ H) as Hins. split.
  - eapply (insertions_keep referential_integrity); eauto.
    apply insertion_keeps_referential_integrity.
  - eapply (insertions_keep subpfam_integrity); eauto.
    apply insertion_keeps_subpfam_integrity.
Qed.

Lemma save_keeps_references_witness :
  referential_integrity
    (mkDatabase [mkHmmDbRow 1 "md5a" "md5b"]
                [mkHmmRow 1 1 "pfamA" (Some "PA") 10] []).
Proof.
  refine (proj1 (save_keeps_references
                   (mkHMMDatabase (-1) "md5a" "md5b"
                      [mkHMM (-1) (-1) (-1) (Some "PA") "pfamA" 10] [])
                   (mkDatabase [] [] []) _ _ _ _ eq_refl)).
  - intros r [].
  - intros s [].
Defined.

(** X12. [save] keeps the two uniqueness conditions its assertions rely on,
    whether it returns or raises: if no pair of checksums had two [hmm_db]
    rows and no name had two [hmm] rows under one entry, this still holds
    afterwards. *)
Theorem save_keeps_unique (self : HMMDatabase) (db db' : Database)
  (r : result HMMDatabase) :
  checksums_unique db -> names_unique db ->
  save self db = (db', r) ->
  checksums_unique db' /\ names_unique db'.
Proof.
  intros CU NU H. pose proof (save_insertions _ _ _ _ H) as Hins. split.
  - eapply (insertions_keep checksums_unique); eauto.
    apply insertion_keeps_checksums_unique.
  - eapply (insertions_keep names_unique); eauto.
    apply insertion_keeps_names_unique.
Qed.

Lemma save_keeps_unique_witness :
  names_unique
    (mkDatabase [mkHmmDbRow 1 "md5a" "md5b"]
                [mkHmmRow 1 1 "pfamA" (Some "PA") 10] []).
Proof.
  refine (proj2 (save_keeps_unique
                   (mkHMMDatabase (-1) "md5a" "md5b"
                      [mkHMM (-1) (-1) (-1) (Some "PA") "pfamA" 10] [])
                   (mkDatabase [] [] []) _ _ _ _ eq_refl)).
  - intros a b. cbn. lia.
  - intros nm gid. cbn. lia.
Defined.

(** X13. [save] never gives out an identifier twice: if the identifiers of
    [hmm_db] and those of [hmm] were pairwise distinct, they still are
    afterwards, whether the call returns or raises. *)
Theorem save_keeps_ids_unique (self : HMMDatabase) (db db' : Database)
  (r : result HMMDatabase) :
  ids_unique db -> save self db = (db', r) -> ids_unique db'.
Proof.
  intros U H. eapply (insertions_keep ids_unique); eauto.
  - apply insertion_keeps_ids_unique.
  - eapply save_insertions, H.
Qed.

Lemma save_keeps_ids_unique_witness :
  ids_unique
    (mkDatabase [mkHmmDbRow 1 "md5a" "md5b"]
                [mkHmmRow 1 1 "pfamA" (Some "PA") 10] []).
Proof.
  refine (save_keeps_ids_unique
            (mkHMMDatabase (-1) "md5a" "md5b"
               [mkHMM (-1) (-1) (-1) (Some "PA") "pfamA" 10] [])
            (mkDatabase [] [] []) _ _ _ eq_refl).
  split; constructor.
Defined.

Lemma later_save_inserts_nothing (self self2 : HMMDatabase)
  (db db1 : Database) (r : result HMMDatabase) :
  save self db = (db1, r) ->
  md5_biosyn_pfam self2 = md5_biosyn_pfam self ->
  md5_sub_pfam self2 = md5_sub_pfam self ->
  fst (save self2 db1) = db1.
Proof.
  intros Hrun E1 E2. pose proof (save_leaves_hmm_db_row _ _ _ _ Hrun) as Hne.
  destruct (hmm_db_by_checksums (md5_biosyn_pfam self) (md5_sub_pfam self) db1)
    as [|row rest] eqn:Hq; [now elim Hne|].
  rewrite (save_existing_run self2 db1 row rest); [reflexivity|].
  rewrite E1, E2. unfold select_hmm_db. cbn [snd]. f_equal. exact Hq.
Qed.

(** X14. Once [save] has been called for a pair of checksums, whatever the
    outcome, every later call for those checksums inserts nothing: the
    [hmm_db] row is written before anything can fail, so a failed first
    call is not repaired by calling again. *)
Theorem save_after_save_inserts_nothing (self self2 : HMMDatabase)
  (db db1 : Database) (r : result HMMDatabase) :
  save self db = (db1, r) ->
  md5_biosyn_pfam self2 = md5_biosyn_pfam self ->
  md5_sub_pfam self2 = md5_sub_pfam self ->
  fst (save self2 db1) = db1.
Proof. apply later_save_inserts_nothing. Qed.

Lemma save_after_save_inserts_nothing_witness :
  let self := mkHMMDatabase (-1) "md5a" "md5b"
                [mkHMM (-1) (-1) (-1) (Some "PA") "pfamA" 10;
                 mkHMM (-1) (-1) (-1) (Some "PA") "pfamA" 20] [] in
  let db1 := mkDatabase [mkHmmDbRow 1 "md5a" "md5b"]
               [mkHmmRow 1 1 "pfamA" (Some "PA") 10] [] in
  fst (save self db1) = db1.
Proof.
  intros self db1.
  apply (save_after_save_inserts_nothing self self (mkDatabase [] [] []) db1
           (Raise (Exception "conflicting HMM entry for pfamA")));
    reflexivity.
Defined.

Section Exceptions.

Lemma HMM_save_raise_unique (h : HMM) (db db' : Database) (e : exn) :
  names_unique db -> -1 < db_id h ->
  HMM_save h db = (db', Raise e) ->
  e = Exception (conflict_message (name h)).
Proof.
  intros NU Hid. rewrite (HMM_save_cases _ _ Hid).
  specialize (NU (name h) (db_id h)).
  destruct (hmm_by_name (name h) (db_id h) db) as [|row [|row' rest]].
  - discriminate.
  - destruct (model_length h =? r_model_length row); [discriminate|].
    now inversion 1.
  - cbn in NU. lia.
Qed.

Variable gid : Z.
Hypothesis gid_assigned : -1 < gid.

Lemma stored_under_insertions (d d' : Database) :
  stored_under gid d -> insertions d d' -> stored_under gid d'.
Proof.
  intros [NU Hg] Hins. split.
  - eapply (insertions_keep names_unique); eauto.
    apply insertion_keeps_names_unique.
  - eapply extends_hmm_db_id; [apply insertions_extends|]; eassumption.
Qed.

Lemma saves_raise_conflict {A} (prepare : A -> HMM) (l : list A)
  (d d' : Database) (e : exn) :
  (forall a, db_id (prepare a) = gid) -> stored_under gid d ->
  for_each (fun a => HMM_save (prepare a)) l d = (d', Raise e) ->
  exists nm, e = Exception (conflict_message nm).
Proof.
  intros Hprep Hst Hl.
  destruct (for_each_raise (fun a => HMM_save (prepare a))
              (stored_under gid)) with (3 := Hl)
    as (a & da & _ & [NU _] & Ha); [|exact Hst|].
  - intros a x x' r Hx Hs. eapply stored_under_insertions; [exact Hx|].
    eapply HMM_save_insertions; [|exact Hs]. rewrite Hprep. apply Hx.
  - exists (name (prepare a)).
    eapply HMM_save_raise_unique; [exact NU | | exact Ha].
    now rewrite Hprep.
Qed.

Lemma insert_family_raise (entry : string * list HMM) (d d' : Database)
  (e : exn) :
  stored_under gid d -> insert_family gid entry d = (d', Raise e) ->
  e = IndexError \/ exists nm, e = Exception (conflict_message nm).
Proof.
  intros Hst. destruct entry as [acc subs]. rewrite insert_family_cases.
  destruct (hmm_by_accession acc gid d) as [|prow rest];
    [intros H; inversion H; now left|].
  destruct (for_each (insert_sub gid (r_id prow)) subs d) as [d1 [subs'|e1]]
    eqn:Hl; [discriminate|].
  intros H; inversion H; subst. right.
  apply (saves_raise_conflict
           (fun s => set_parent_id (r_id prow) (set_db_id gid s))
           subs d d' e (fun _ => eq_refl) Hst Hl).
Qed.

End Exceptions.

(** X15. On a database where no pair of checksums has two rows and no name
    has two rows under one entry, [save] fails in two ways only: with
    [IndexError], when a lookup finds nothing, or with the conflict
    exception of [__save__]; its assertions never fail. *)
Theorem save_raises_lookup_or_conflict (self : HMMDatabase)
  (db db' : Database) (e : exn) :
  checksums_unique db -> names_unique db ->
  save self db = (db', Raise e) ->
  e = IndexError \/ exists nm, e = Exception (conflict_message nm).
Proof.
  intros CU NU.
  destruct (snd (select_hmm_db (md5_biosyn_pfam self) (md5_sub_pfam self) db))
    as [[|row rest]|e0] eqn:Hsel; [| |discriminate Hsel].
  - rewrite (save_new_run _ _ Hsel).
    set (gid := new_hmm_db_id db).
    pose proof (new_hmm_db_id_assigned db) as Hgid. fold gid in Hgid.
    assert (S0 : insertion db (with_new_hmm_db self db)).
    { apply insertion_hmm_db. unfold select_hmm_db in Hsel. cbn in Hsel.
      now inversion Hsel. }
    assert (St0 : names_unique (with_new_hmm_db self db)
                  /\ In gid (map r_db_id
                               (hmm_db_table (with_new_hmm_db self db)))).
    { split; [eapply insertion_keeps_names_unique; eassumption|].
      cbn. rewrite map_app. apply in_or_app. right. now left. }
    destruct (for_each (insert_biosyn gid) _ _) as [db_b [biosyn|eb]] eqn:Hb.
    2:{ intros H; inversion H; subst. right.
        apply (saves_raise_conflict gid Hgid (set_db_id gid) _ _ _ _
                 (fun _ => eq_refl) St0 Hb). }
    assert (Stb : names_unique db_b
                  /\ In gid (map r_db_id (hmm_db_table db_b))).
    { eapply stored_under_insertions; [exact St0|].
      apply (for_each_save_insertions (set_db_id gid) gid _ _ _ _
               (fun _ => eq_refl) (proj2 St0) Hb). }
    destruct (for_each (insert_family gid) _ _) as [db1 [subs|ef]] eqn:Hf;
      [discriminate|].
    intros H; inversion H; subst.
    destruct (for_each_raise (insert_family gid)
                (fun d => names_unique d
                          /\ In gid (map r_db_id (hmm_db_table d))))
      with (3 := Hf) as (a & da & _ & Sta & Ha); [|exact Stb|].
    + intros a x x' r Hx Hs. eapply stored_under_insertions; [exact Hx|].
      eapply insert_family_insertions; [|exact Hs]. apply Hx.
    + eapply insert_family_raise; eassumption.
  - rewrite (save_existing_run _ _ _ _ Hsel).
    assert (rest = []) as ->.
    { specialize (CU (md5_biosyn_pfam self) (md5_sub_pfam self)).
      unfold select_hmm_db in Hsel. cbn in Hsel. inversion Hsel as [Hsel'].
      unfold hmm_db_by_checksums in CU. rewrite Hsel' in CU.
      destruct rest; [reflexivity | cbn in CU; lia]. }
    intros H; inversion H as [[Hd Hl]]. left. eapply lookup_all_exn, Hl.
Qed.

Lemma save_raises_lookup_or_conflict_witness :
  IndexError = IndexError
  \/ exists nm, IndexError = Exception (conflict_message nm).
Proof.
  apply (save_raises_lookup_or_conflict
           (mkHMMDatabase (-1) "md5a" "md5b" []
              [("PY", [mkHMM (-1) (-1) (-1) None "pfamY.1" 3])])
           (mkDatabase [] [] [])
           (mkDatabase [mkHmmDbRow 1 "md5a" "md5b"] [] [])).
  - intros a b. cbn. lia.
  - intros nm gid. cbn. lia.
  - reflexivity.
Defined.

Section FreshEntry.

Variable gid : Z.
Hypothesis gid_assigned : -1 < gid.

(** A loop of [__save__] over models of new names: every one gets a fresh
    row, and a relation row when it carries a parent. *)
Lemma saves_fresh (hs : list HMM) :
  Forall (fun h => db_id h = gid) hs ->
  forall (d : Database) (ks : list (string * option string)),
    covered gid ks d ->
    NoDup (map fst ks ++ map name hs) ->
    exists d' hs',
      for_each HMM_save hs d = (d', Ok hs')
      /\ hmm_db_table d' = hmm_db_table d
      /\ length (hmm_table d') = (length (hmm_table d) + length hs)%nat
      /\ length (subpfam_table d')
         = (length (subpfam_table d) + length (with_parent hs))%nat
      /\ covered gid (ks ++ map key hs) d'
      /\ grows gid d d'
      /\ forall h, In h hs ->
           exists row, In row (hmm_table d') /\ r_hmm_db_id row = gid
                       /\ r_accession row = accession h.
Proof.
  induction 1 as [|h hs Hh _ IH]; intros d ks C Hnd.
  - exists d, []. cbn. rewrite app_nil_r, !Nat.add_0_r.
    refine (conj eq_refl (conj eq_refl (conj eq_refl (conj eq_refl
              (conj C (conj (grows_refl gid d) _)))))).
    intros h [].
  - assert (Hid : -1 < db_id h) by (rewrite Hh; exact gid_assigned).
    assert (Hfresh : hmm_by_name (name h) (db_id h) d = []).
    { rewrite Hh. eapply covered_fresh; [exact C|].
      cbn [map] in Hnd. apply NoDup_remove_2 in Hnd.
      intros Hin. apply Hnd. apply in_or_app. now left. }
    pose proof (HMM_save_cases h d Hid) as Hrun. rewrite Hfresh in Hrun.
    destruct (HMM_save_step _ _ _ _ Hid Hrun) as (_ & G1 & _ & C1 & _).
    rewrite Hh in G1, C1.
    destruct (IH (with_new_hmm h d) (ks ++ [key h])%list (C1 _ C))
      as (d' & hs' & Hl & E1 & E2 & E3 & C' & G' & Hrows).
    { rewrite map_app. cbn [map key fst]. rewrite <- app_assoc. exact Hnd. }
    exists d', (set_id (next_id (map r_id (hmm_table d))) h :: hs').
    split; [|split; [|split; [|split; [|split; [|split]]]]].
    + cbn [for_each]. unfold bind at 1. rewrite Hrun.
      unfold bind at 1. rewrite Hl. reflexivity.
    + rewrite E1. reflexivity.
    + rewrite E2. cbn [with_new_hmm hmm_table]. rewrite length_app. cbn. lia.
    + rewrite E3. unfold with_parent. cbn [with_new_hmm subpfam_table filter].
      destruct (-1 <? parent_id h); [rewrite length_app|]; cbn; lia.
    + cbn [map]. now rewrite <- app_assoc in C'.
    + eapply grows_trans; eassumption.
    + intros x [<-|Hx]; [|now apply Hrows].
      exists (mkHmmRow (next_id (map r_id (hmm_table d))) (db_id h) (name h)
                       (accession h) (model_length h)).
      split; [|split; [exact Hh | reflexivity]].
      eapply grows_in_hmm; [exact G'|].
      cbn [with_new_hmm hmm_table]. apply in_or_app. right. now left.
Qed.

Lemma for_each_map {A B C} (f : B -> M C) (g : A -> B) (l : list A)
  (d : Database) :
  for_each (fun a => f (g a)) l d = for_each f (map g l) d.
Proof.
  revert d. induction l as [|a l IH]; intros d; [reflexivity|].
  cbn [for_each map]. unfold bind at 1 3.
  destruct (f (g a) d) as [d1 [c|e]]; [|reflexivity].
  unfold bind at 1 2. now rewrite IH.
Qed.

Lemma with_parent_all (parent : Z) (hs : list HMM) :
  -1 < parent -> Forall (fun h => parent_id h = parent) hs ->
  with_parent hs = hs.
Proof.
  intros Hp. unfold with_parent. induction 1 as [|h hs Hh _ IH]; cbn [filter].
  - reflexivity.
  - rewrite Hh. apply Z.ltb_lt in Hp. now rewrite Hp, IH.
Qed.

Lemma with_parent_set_db_id (l : list HMM) :
  length (with_parent (map (set_db_id gid) l)) = length (with_parent l).
Proof.
  unfold with_parent. induction l as [|b l IHl]; [reflexivity|].
  cbn [map filter parent_id set_db_id].
  destruct (-1 <? parent_id b); cbn [length]; now rewrite IHl.
Qed.

(** The loop over the parent accessions, when every key has a row and the
    names are new. *)
Lemma families_fresh (fams : list (string * list HMM)) :
  forall (d : Database) (ks : list (string * option string)),
    covered gid ks d ->
    NoDup (map fst ks ++ map name (concat (map snd fams))) ->
    (forall acc subs, In (acc, subs) fams ->
                      hmm_by_accession acc gid d <> []) ->
    exists d' fams',
      for_each (insert_family gid) fams d = (d', Ok fams')
      /\ hmm_db_table d' = hmm_db_table d
      /\ length (hmm_table d')
         = (length (hmm_table d) + length (concat (map snd fams)))%nat
      /\ length (subpfam_table d')
         = (length (subpfam_table d) + length (concat (map snd fams)))%nat.
Proof.
  induction fams as [|[acc subs] fams IH]; intros d ks C Hnd Hacc.
  - exists d, []. cbn. rewrite !Nat.add_0_r. now repeat split.
  - destruct (hmm_by_accession acc gid d) as [|prow rest] eqn:Hp;
      [exfalso; apply (Hacc acc subs); [now left | exact Hp]|].
    assert (Hpar : -1 < r_id prow).
    { assert (Hin : In prow (hmm_by_accession acc gid d))
        by (rewrite Hp; now left).
      apply hmm_by_accession_in in Hin. destruct Hin as (Hin & _ & Hg).
      destruct (C prow Hin Hg) as [Hpos _]. lia. }
    set (prep := fun s => set_parent_id (r_id prow) (set_db_id gid s)).
    cbn [map concat snd] in Hnd. rewrite map_app, app_assoc in Hnd.
    destruct (saves_fresh (map prep subs)) with (d := d) (ks := ks)
      as (d1 & subs' & Hl & E1 & E2 & E3 & C1 & G1 & _).
    { apply Forall_forall. intros h Hh. apply in_map_iff in Hh.
      destruct Hh as (x & <- & _). reflexivity. }
    { exact C. }
    { rewrite map_map. cbn [prep name set_parent_id set_db_id].
      now apply NoDup_app_remove_r in Hnd. }
    assert (Ek : map key (map prep subs) = map key subs)
      by (rewrite map_map; reflexivity).
    rewrite Ek in C1.
    assert (Ew : with_parent (map prep subs) = map prep subs).
    { apply (with_parent_all (r_id prow)); [exact Hpar|].
      apply Forall_forall. intros h Hh. apply in_map_iff in Hh.
      destruct Hh as (x & <- & _). reflexivity. }
    rewrite Ew, length_map in E3. rewrite length_map in E2.
    destruct (IH d1 (ks ++ map key subs)%list C1) as (d' & fams' & Hf & F1 & F2 & F3).
    { rewrite map_app, map_fst_key. exact Hnd. }
    { intros acc' subs0 Hin.
      specialize (Hacc acc' subs0 (or_intror Hin)).
      destruct (hmm_by_accession acc' gid d) as [|r0 rest0] eqn:Hq;
        [now elim Hacc|].
      destruct (grows_first_accession _ _ _ _ _ _ G1 Hq) as [rest1 ->].
      discriminate. }
    exists d', ((acc, subs') :: fams').
    split; [|split; [|split]].
    + cbn [for_each]. unfold bind at 1. rewrite insert_family_cases, Hp.
      change (insert_sub gid (r_id prow)) with (fun s => HMM_save (prep s)).
      rewrite for_each_map, Hl. unfold bind at 1. rewrite Hf. reflexivity.
    + congruence.
    + cbn [map concat snd]. rewrite length_app. lia.
    + cbn [map concat snd]. rewrite length_app. lia.
Qed.

End FreshEntry.

Lemma new_entry_saved (self : HMMDatabase) (db : Database) :
  hmm_db_by_checksums (md5_biosyn_pfam self) (md5_sub_pfam self) db = [] ->
  referential_integrity db ->
  NoDup (member_names self) ->
  (forall acc subs, In (acc, subs) (sub_pfams self) ->
     exists b, In b (biosyn_pfams self) /\ accession b = Some acc) ->
  exists db' self',
    save self db = (db', Ok self')
    /\ length (hmm_db_table db') = S (length (hmm_db_table db))
    /\ length (hmm_table db')
       = (length (hmm_table db) + length (biosyn_pfams self)
          + length (all_sub_pfams self))%nat
    /\ length (subpfam_table db')
       = (length (subpfam_table db) + length (with_parent (biosyn_pfams self))
          + length (all_sub_pfams self))%nat.
Proof.
  intros Hnone Hri Hnd Hpar.
  assert (Hsel : snd (select_hmm_db (md5_biosyn_pfam self)
                                    (md5_sub_pfam self) db) = Ok [])
    by (unfold select_hmm_db; cbn [snd]; f_equal; exact Hnone).
  rewrite (save_new_run _ _ Hsel).
  set (gid := new_hmm_db_id db).
  pose proof (new_hmm_db_id_assigned db) as Hgid. fold gid in Hgid.
  pose proof (covered_new_hmm_db self db Hri) as C0. fold gid in C0.
  unfold member_names in Hnd.
  change (insert_biosyn gid) with (fun b => HMM_save (set_db_id gid b)).
  rewrite for_each_map.
  destruct (saves_fresh gid Hgid (map (set_db_id gid) (biosyn_pfams self)))
    with (d := with_new_hmm_db self db) (ks := @nil (string * option string))
    as (db_b & bs' & Hb & E1 & E2 & E3 & Cb & Gb & Hrows).
  { apply Forall_forall. intros h Hh. apply in_map_iff in Hh.
    destruct Hh as (x & <- & _). reflexivity. }
  { exact C0. }
  { cbn [map app]. rewrite map_map. cbn [name set_db_id].
    now apply NoDup_app_remove_r in Hnd. }
  rewrite Hb. cbn [app] in Cb.
  assert (Ek : map key (map (set_db_id gid) (biosyn_pfams self))
               = map key (biosyn_pfams self))
    by (rewrite map_map; reflexivity).
  rewrite Ek in Cb.
  destruct (families_fresh gid Hgid (sub_pfams self) db_b
              (map key (biosyn_pfams self)) Cb)
    as (db' & fams' & Hf & F1 & F2 & F3).
  { now rewrite map_fst_key. }
  { intros acc subs Hin. destruct (Hpar acc subs Hin) as (b & Hbin & Hacc).
    destruct (Hrows (set_db_id gid b)) as (row & Hrow & Hg & Ha).
    { apply in_map. exact Hbin. }
    intros Hq.
    assert (Hr : In row (hmm_by_accession acc gid db_b)).
    { apply hmm_by_accession_in. repeat split; auto.
      rewrite Ha. exact Hacc. }
    rewrite Hq in Hr. exact Hr. }
  rewrite Hf. eexists. eexists. split; [reflexivity|].
  rewrite length_map in E2. rewrite (with_parent_set_db_id gid) in E3.
  unfold all_sub_pfams. split; [|split].
  - rewrite F1, E1. cbn [with_new_hmm_db hmm_db_table].
    rewrite length_app. cbn. lia.
  - rewrite F2, E2. reflexivity.
  - rewrite F3, E3. reflexivity.
Qed.

(** X16. On an entry whose checksums are not stored, whose models have
    pairwise distinct names and whose parent accessions are each the
    accession of a top-level model, in a database where every [hmm] row
    points to an [hmm_db] row, [save] succeeds, and it writes each thing
    once: one [hmm_db] row, one [hmm] row for every model, one [subpfam]
    row for every sub-model (and for every top-level model that came with
    a parent). *)
Theorem save_new_entry_succeeds (self : HMMDatabase) (db : Database) :
  hmm_db_by_checksums (md5_biosyn_pfam self) (md5_sub_pfam self) db = [] ->
  referential_integrity db ->
  NoDup (member_names self) ->
  (forall acc subs, In (acc, subs) (sub_pfams self) ->
     exists b, In b (biosyn_pfams self) /\ accession b = Some acc) ->
  exists db' self',
    save self db = (db', Ok self')
    /\ length (hmm_db_table db') = S (length (hmm_db_table db))
    /\ length (hmm_table db')
       = (length (hmm_table db) + length (biosyn_pfams self)
          + length (all_sub_pfams self))%nat
    /\ length (subpfam_table db')
       = (length (subpfam_table db) + length (with_parent (biosyn_pfams self))
          + length (all_sub_pfams self))%nat.
Proof. apply new_entry_saved. Qed.

Lemma save_new_entry_succeeds_witness :
  let self := mkHMMDatabase (-1) "md5a" "md5b"
                [mkHMM (-1) (-1) (-1) (Some "PF00001") "pfamA" 120]
                [("PF00001", [mkHMM (-1) (-1) (-1) None "pfamA.1" 60])] in
  exists db' self',
    save self (mkDatabase [] [] []) = (db', Ok self')
    /\ length (hmm_db_table db') = 1%nat
    /\ length (hmm_table db') = 2%nat
    /\ length (subpfam_table db') = 1%nat.
Proof.
  intros self.
  apply (save_new_entry_succeeds self (mkDatabase [] [] [])).
  - reflexivity.
  - intros r [].
  - repeat constructor; cbn; intuition discriminate.
  - intros acc subs [H|[]]. inversion H; subst.
    eexists. split; [now left | reflexivity].
Defined.

Section LookupByName.

Variable gid : Z.
Variable db : Database.

Lemma lookup_biosyn_by_name (p q : HMM) :
  name p = name q ->
  alike (fun p' q' => id p' = id q')
        (lookup_biosyn gid db p) (lookup_biosyn gid db q).
Proof.
  intros En. unfold lookup_biosyn. rewrite <- En.
  destruct (hmm_by_name (name p) gid db); cbn [alike]; reflexivity.
Qed.

Lemma lookup_sub_by_name (parent : Z) (p q : HMM) :
  name p = name q ->
  alike (fun p' q' => id p' = id q' /\ parent_id p' = parent_id q')
        (lookup_sub gid parent db p) (lookup_sub gid parent db q).
Proof.
  intros En. unfold lookup_sub. rewrite <- En.
  destruct (hmm_join_subpfam parent (name p) gid db); cbn [alike];
    [reflexivity | now split].
Qed.

Lemma lookup_family_by_name (e f : string * list HMM) :
  fst e = fst f /\ Forall2 (fun p q => name p = name q) (snd e) (snd f) ->
  alike (fun e' f' =>
           fst e' = fst f'
           /\ Forall2 (fun p' q' => id p' = id q'
                                    /\ parent_id p' = parent_id q')
                      (snd e') (snd f'))
        (lookup_family gid db e) (lookup_family gid db f).
Proof.
  intros [Ek Hs]. unfold lookup_family. rewrite <- Ek.
  destruct (hmm_by_accession (fst e) gid db) as [|r rest]; cbn [alike];
    [reflexivity|].
  pose proof (map_result_alike _ _ (lookup_sub gid (r_id r) db) (snd e) (snd f)
                (lookup_sub_by_name (r_id r)) Hs) as H.
  destruct (map_result _ (snd e)) as [se|e1], (map_result _ (snd f)) as [sf|e2];
    cbn [alike bind_result] in *; try contradiction; [|exact H].
  split; [reflexivity | exact H].
Qed.

Lemma lookup_all_by_name (g h : HMMDatabase) :
  same_names g h ->
  alike (fun g' h' => identifiers g' = identifiers h')
        (lookup_all gid db g) (lookup_all gid db h).
Proof.
  intros (Ea & Eb & Hb & Hf). unfold lookup_all.
  pose proof (map_result_alike _ _ (lookup_biosyn gid db)
                _ _ lookup_biosyn_by_name Hb) as H1.
  destruct (map_result _ (biosyn_pfams g)) as [bg|e1],
           (map_result _ (biosyn_pfams h)) as [bh|e2];
    cbn [alike bind_result] in *; try contradiction; [|exact H1].
  pose proof (map_result_alike _ _ (lookup_family gid db)
                _ _ lookup_family_by_name Hf) as H2.
  destruct (map_result _ (sub_pfams g)) as [fg|e1],
           (map_result _ (sub_pfams h)) as [fh|e2];
    cbn [alike bind_result] in *; try contradiction; [|exact H2].
  unfold identifiers. cbn. f_equal; [f_equal|].
  - clear - H1. induction H1 as [|x y l1 l2 E _ IH]; cbn [map];
      [reflexivity | now rewrite E, IH].
  - clear - H2. induction H2 as [|x y l1 l2 [Ek Es] _ IH]; cbn [map];
      [reflexivity|]. rewrite Ek, IH. do 2 f_equal.
    clear - Es. induction Es as [|u v m1 m2 [E1 E2] _ IH]; cbn [map];
      [reflexivity | now rewrite E1, E2, IH].
Qed.

End LookupByName.

(** X17. When the checksums are stored, [save] resolves every model by its
    name alone: two entries that agree on checksums, keys and names end
    alike, with the same exception or with the same identifiers, even when
    their accessions or model lengths differ, so this branch detects no
    conflict. *)
Theorem save_existing_by_name_only (g h : HMMDatabase) (db : Database) :
  hmm_db_by_checksums (md5_biosyn_pfam g) (md5_sub_pfam g) db <> [] ->
  same_names g h ->
  alike (fun g' h' => identifiers g' = identifiers h')
        (snd (save g db)) (snd (save h db)).
Proof.
  intros Hne Hs.
  destruct (hmm_db_by_checksums (md5_biosyn_pfam g) (md5_sub_pfam g) db)
    as [|row rest] eqn:Hq; [now elim Hne|].
  assert (Sg : snd (select_hmm_db (md5_biosyn_pfam g) (md5_sub_pfam g) db)
               = Ok (row :: rest))
    by (unfold select_hmm_db; cbn [snd]; f_equal; exact Hq).
  assert (Sh : snd (select_hmm_db (md5_biosyn_pfam h) (md5_sub_pfam h) db)
               = Ok (row :: rest))
    by (destruct Hs as (E1 & E2 & _); now rewrite <- E1, <- E2).
  rewrite (save_existing_run _ _ _ _ Sg), (save_existing_run _ _ _ _ Sh).
  cbn [snd]. destruct rest; [|reflexivity].
  now apply lookup_all_by_name.
Qed.

Lemma save_existing_by_name_only_witness :
  let db := mkDatabase [mkHmmDbRow 1 "md5a" "md5b"]
              [mkHmmRow 1 1 "pfamA" (Some "PF00001") 120] [] in
  let g := mkHMMDatabase (-1) "md5a" "md5b"
             [mkHMM (-1) (-1) (-1) (Some "PF00001") "pfamA" 120] [] in
  let h := mkHMMDatabase (-1) "md5a" "md5b"
             [mkHMM (-1) (-1) (-1) (Some "PF99999") "pfamA" 7] [] in
  alike (fun g' h' => identifiers g' = identifiers h')
        (snd (save g db)) (snd (save h db)).
Proof.
  intros db g h. apply (save_existing_by_name_only g h db).
  - discriminate.
  - refine (conj eq_refl (conj eq_refl (conj _ _))); repeat constructor.
Defined.

(** * The loader *)

Section PathLemmas.

Lemma split_app_sep (sep : ascii) (d t : string) :
  Py.split sep (d ++ String sep t) = (Py.split sep d ++ Py.split sep t)%list.
Proof.
  induction d as [|c d IH].
  - cbn [append Py.split app]. now rewrite Ascii.eqb_refl.
  - cbn [append Py.split]. rewrite IH.
    destruct (c =? sep)%char; [reflexivity|].
    pose proof (split_nonempty sep d) as Hne.
    destruct (Py.split sep d) as [|w ws]; [contradiction | reflexivity].
Qed.

Lemma split_no_sep (sep : ascii) (t : string) :
  ~ In sep (list_ascii_of_string t) -> Py.split sep t = [t].
Proof.
  induction t as [|c t IH]; intros H; [reflexivity|].
  cbn [Py.split]. destruct (Ascii.eqb_spec c sep) as [->|Hc].
  - exfalso. apply H. now left.
  - rewrite IH; [reflexivity|]. intros Hin. apply H. now right.
Qed.

Lemma last_app_singleton (l : list string) (x : string) :
  Py.last_item (l ++ [x]) = x.
Proof. unfold Py.last_item. apply last_last. Qed.

(** The base name of a file in a directory. *)
Lemma basename_in_dir (dir file : string) :
  no_slash file -> Path.basename (dir ++ "/" ++ file) = file.
Proof.
  intros H. unfold Path.basename.
  change (dir ++ "/" ++ file)%string with (dir ++ String "/" file)%string.
  rewrite split_app_sep, (split_no_sep _ _ H). apply last_app_singleton.
Qed.

Lemma prefix_app (p w : string) : String.prefix p (p ++ w) = true.
Proof.
  induction p as [|c p IH]; [now destruct w|].
  cbn [append String.prefix]. destruct (ascii_dec c c); [exact IH | congruence].
Qed.

Lemma prefix_inv (p s : string) :
  String.prefix p s = true -> exists w, s = (p ++ w)%string.
Proof.
  revert s. induction p as [|c p IH]; intros s H.
  - exists s. reflexivity.
  - destruct s as [|c' s]; [discriminate H|]. cbn [String.prefix] in H.
    destruct (ascii_dec c c') as [<-|]; [|discriminate H].
    destruct (IH _ H) as [w ->]. exists w. reflexivity.
Qed.

(** The suffix of the file names overlaps itself nowhere: a text before
    it either is empty or holds it already, when the whole starts with
    it. *)
Lemma subpfams_suffix_no_border (a rest w : string) :
  (a ++ ".subpfams.hmm" ++ rest)%string = (".subpfams.hmm" ++ w)%string ->
  a = "" \/ occurs ".subpfams.hmm" a.
Proof.
  intros H.
  destruct a as [|c1 a]; [now left|].
  right. cbn [append] in H. injection H as -> H.
  do 12 (destruct a as [|? a]; cbn [append] in H;
         [discriminate H | injection H as -> H]).
  exists ""%string, a. reflexivity.
Qed.

Lemma before_suffix (acc rest : string) :
  ~ occurs ".subpfams.hmm" acc ->
  before ".subpfams.hmm" (acc ++ ".subpfams.hmm" ++ rest) = acc.
Proof.
  induction acc as [|c acc IH]; intros Hno.
  - change ("" ++ ".subpfams.hmm" ++ rest)%string
      with (".subpfams.hmm" ++ rest)%string.
    destruct (".subpfams.hmm" ++ rest)%string eqn:E; [reflexivity|].
    cbn [before]. rewrite <- E, prefix_app. reflexivity.
  - change (before ".subpfams.hmm" (String c acc ++ ".subpfams.hmm" ++ rest))
      with (if String.prefix ".subpfams.hmm"
                 (String c acc ++ ".subpfams.hmm" ++ rest)
            then EmptyString
            else String c (before ".subpfams.hmm"
                             (acc ++ ".subpfams.hmm" ++ rest))).
    destruct (String.prefix ".subpfams.hmm"
                (String c acc ++ ".subpfams.hmm" ++ rest)) eqn:Ep.
    + exfalso. destruct (prefix_inv _ _ Ep) as [w Hw].
      destruct (subpfams_suffix_no_border _ _ _ Hw) as [E|Ho];
        [discriminate E | now apply Hno].
    + rewrite IH; [reflexivity|]. intros (pre & post & ->). apply Hno.
      exists (String c pre), post. reflexivity.
Qed.

End PathLemmas.

(** X18. The key of a file of sub-models is its file name without the
    suffix: for a path [dir/acc.subpfams.hmm], where [acc] holds no slash
    and not the suffix itself, the key is [acc], whatever the directory
    and whatever dots [acc] holds. *)
Theorem parent_acc_of_glob_path (dir acc : string) :
  no_slash acc -> ~ occurs ".subpfams.hmm" acc ->
  parent_acc_of (dir ++ "/" ++ acc ++ ".subpfams.hmm") = acc.
Proof.
  intros Hs Ho. unfold parent_acc_of. rewrite basename_in_dir.
  - rewrite <- (append_nil_r ".subpfams.hmm"). now apply before_suffix.
  - unfold no_slash in *. intros Hin. apply Hs.
    clear - Hin. induction acc as [|c acc IH]; cbn in *.
    + repeat (destruct Hin as [Hin|Hin]; [discriminate Hin|]). exact Hin.
    + destruct Hin as [Hin|Hin]; [now left | right; now apply IH].
Qed.

Lemma parent_acc_of_glob_path_witness :
  parent_acc_of ("db/sub_pfams/hmm" ++ "/" ++ "PF00109.26" ++ ".subpfams.hmm")
  = "PF00109.26".
Proof.
  apply parent_acc_of_glob_path.
  - unfold no_slash. cbn. intuition discriminate.
  - intros (pre & post & H).
    do 10 (destruct pre as [|? pre]; cbn [append] in H;
           [discriminate H | injection H as _ H]).
    destruct pre; cbn in H; discriminate H.
Defined.

Section LoaderLemmas.

Variable fs : FileSystem.

Lemma dict_set_new {V} (key : string) (value : V) (d : list (string * V)) :
  ~ In key (map fst d) -> dict_set key value d = (d ++ [(key, value)])%list.
Proof.
  induction d as [|[k v] d IH]; intros H; [reflexivity|].
  cbn [dict_set app]. destruct (String.eqb_spec k key) as [->|Hk].
  - exfalso. apply H. now left.
  - rewrite IH; [reflexivity|]. intros Hin. apply H. now right.
Qed.

Lemma dict_set_keys {V} (key : string) (value : V) (d : list (string * V)) :
  (In key (map fst d) -> map fst (dict_set key value d) = map fst d)
  /\ (~ In key (map fst d) ->
      map fst (dict_set key value d) = (map fst d ++ [key])%list).
Proof.
  induction d as [|[k v] d [IH1 IH2]]; cbn [dict_set map fst].
  - split; [intros [] | reflexivity].
  - destruct (String.eqb_spec k key) as [->|Hk]; cbn [map fst].
    + split; [reflexivity|]. intros H. exfalso. apply H. now left.
    + split.
      * intros [E|Hin]; [now elim Hk|]. now rewrite IH1.
      * intros H. rewrite IH2; [reflexivity|].
        intros Hin. apply H. now right.
Qed.

Lemma dict_set_keys_NoDup {V} (key : string) (value : V)
  (d : list (string * V)) :
  NoDup (map fst d) -> NoDup (map fst (dict_set key value d)).
Proof.
  intros Hd. destruct (in_dec string_dec key (map fst d)) as [Hin|Hin].
  - now rewrite (proj1 (dict_set_keys key value d) Hin).
  - rewrite (proj2 (dict_set_keys key value d) Hin). now apply NoDup_snoc.
Qed.

Lemma dict_set_in {V} (key : string) (value : V) (d : list (string * V))
  (e : string * V) :
  In e (dict_set key value d) -> e = (key, value) \/ In e d.
Proof.
  induction d as [|[k v] d IH]; cbn [dict_set].
  - intros [<-|[]]. now left.
  - destruct (String.eqb_spec k key) as [->|Hk].
    + intros [<-|Hin]; [now left | right; now right].
    + intros [<-|Hin]; [right; now left|].
      destruct (IH Hin) as [E|Hd]; [now left | right; now right].
Qed.

(** The loop over the files: keys stay distinct and every list of records
    comes from the parser. *)
Lemma load_sub_pfams_invariant (paths : list string) :
  forall d subs,
    load_sub_pfams fs paths d = Done subs ->
    NoDup (map fst d) -> Forall unassigned (concat (map snd d)) ->
    NoDup (map fst subs) /\ Forall unassigned (concat (map snd subs)).
Proof.
  induction paths as [|path paths IH]; intros d subs; cbn [load_sub_pfams].
  - intros H; inversion H; subst. auto.
  - destruct (from_path fs path) as [rs|e|q] eqn:Ep; try discriminate.
    intros Hl Hnd Hun. apply (IH _ _ Hl).
    + now apply dict_set_keys_NoDup.
    + apply Forall_forall. intros h Hh. apply in_concat in Hh.
      destruct Hh as (l & Hl' & Hh). apply in_map_iff in Hl'.
      destruct Hl' as ([k v] & <- & Hin).
      destruct (dict_set_in _ _ _ _ Hin) as [E|Hd].
      * inversion E; subst. cbn [snd] in Hh.
        unfold from_path in Ep. destruct (read fs path); [|discriminate].
        destruct (from_file s) as [rs'|e] eqn:Ef; inversion Ep; subst.
        exact (proj1 (Forall_forall _ _) (parsed_unassigned _ _ Ef) h Hh).
      * apply (proj1 (Forall_forall _ _) Hun). apply in_concat.
        exists v. split; [|exact Hh].
        apply in_map_iff. exists (k, v). now split.
Qed.

(** With keys that do not repeat, the loop adds one entry per file, in
    the order of the files. *)
Lemma load_sub_pfams_entries (paths : list string) :
  forall d subs,
    NoDup (map fst d ++ map parent_acc_of paths) ->
    load_sub_pfams fs paths d = Done subs ->
    exists new, subs = (d ++ new)%list /\ Forall2 (entry_of_file fs) paths new.
Proof.
  induction paths as [|path paths IH]; intros d subs Hnd; cbn [load_sub_pfams].
  - intros H; inversion H; subst. exists []. rewrite app_nil_r.
    split; [reflexivity | constructor].
  - destruct (from_path fs path) as [rs|e|q] eqn:Ep; try discriminate.
    cbn [map] in Hnd.
    assert (Hnew : ~ In (parent_acc_of path) (map fst d)).
    { apply NoDup_remove_2 in Hnd. intros Hin. apply Hnd.
      apply in_or_app. now left. }
    rewrite (dict_set_new _ _ _ Hnew). intros Hl.
    assert (Hnd' : NoDup (map fst (d ++ [(parent_acc_of path, rs)])%list
                          ++ map parent_acc_of paths)).
    { rewrite map_app, <- app_assoc. exact Hnd. }
    destruct (IH _ _ Hnd' Hl) as (new & -> & F).
    exists ((parent_acc_of path, rs) :: new). rewrite <- app_assoc.
    split; [reflexivity|]. constructor; [now split | exact F].
Qed.

(** How [load_folder] ends when it does not commit. *)
Lemma load_folder_uncommitted_cases (db_folder_path : string) (db db' : Database)
  (g : HMMDatabase) :
  load_folder fs db_folder_path false db = (db', Done g) ->
  db' = db /\ hmmdb_id g = -1
  /\ from_path fs (biosyn_pfam_path db_folder_path) = Done (biosyn_pfams g)
  /\ load_sub_pfams fs (glob fs (sub_pfam_pattern db_folder_path)) []
     = Done (sub_pfams g).
Proof.
  unfold load_folder, biosyn_pfam_path, sub_pfam_pattern.
  destruct (read fs (Path.join db_folder_path
                       ["biosynthetic_pfams"; "biopfam.md5sum"]));
    [|discriminate].
  destruct (read fs (Path.join db_folder_path
                       ["sub_pfams"; "corepfam.md5sum"]));
    [|discriminate].
  destruct (from_path fs _) as [bs|e|q]; try discriminate.
  destruct (load_sub_pfams fs _ []) as [subs|e|q]; try discriminate.
  intros H; inversion H; subst. cbn. auto.
Qed.

End LoaderLemmas.

(** X19. Loading without commit, from a folder whose files of sub-models
    give keys that do not repeat: the database is untouched, the entry is
    unassigned, its top-level models are the records of the file of
    top-level models, and its dict holds one entry per file that
    [glob.glob] returned, in that order, keyed by the file name without
    suffix and holding the records of that file. *)
Theorem load_folder_one_entry_per_file (fs : FileSystem)
  (db_folder_path : string) (db db' : Database) (g : HMMDatabase) :
  NoDup (map parent_acc_of (glob fs (sub_pfam_pattern db_folder_path))) ->
  load_folder fs db_folder_path false db = (db', Done g) ->
  db' = db /\ hmmdb_id g = -1
  /\ from_path fs (biosyn_pfam_path db_folder_path) = Done (biosyn_pfams g)
  /\ Forall2 (entry_of_file fs) (glob fs (sub_pfam_pattern db_folder_path))
             (sub_pfams g).
Proof.
  intros Hnd Hrun.
  destruct (load_folder_uncommitted_cases _ _ _ _ _ Hrun) as (E1 & E2 & E3 & E4).
  refine (conj E1 (conj E2 (conj E3 _))).
  destruct (load_sub_pfams_entries fs _ [] _ Hnd E4) as (new & -> & F).
  exact F.
Qed.

Lemma load_folder_one_entry_per_file_witness :
  Forall2 (entry_of_file sample_folder)
    ["db/sub_pfams/hmm/PF00501.28.subpfams.hmm";
     "db/sub_pfams/hmm/PF00109.26.subpfams.hmm"]
    [("PF00501.28", [mkHMM (-1) (-1) (-1) None "AMP-binding_c0" 410]);
     ("PF00109.26", [mkHMM (-1) (-1) (-1) None "ketoacyl-synt_c0" 250])].
Proof.
  refine (proj2 (proj2 (proj2
    (load_folder_one_entry_per_file sample_folder "db"
       (mkDatabase [] [] []) (mkDatabase [] [] [])
       (mkHMMDatabase (-1) "0a1b" "2c3d"
          [mkHMM (-1) (-1) (-1) (Some "PF00501.28") "AMP-binding" 423;
           mkHMM (-1) (-1) (-1) (Some "PF00109.26") "ketoacyl-synt" 253]
          [("PF00501.28", [mkHMM (-1) (-1) (-1) None "AMP-binding_c0" 410]);
           ("PF00109.26", [mkHMM (-1) (-1) (-1) None "ketoacyl-synt_c0" 250])])
       _ _)))).
  - change (NoDup ["PF00501.28"%string; "PF00109.26"%string]).
    constructor.
    + intros [H|[]]. discriminate H.
    + constructor; [intros [] | constructor].
  - reflexivity.
Defined.

(** X20. Whatever the folder holds, an entry loaded without commit is
    unassigned throughout, and the keys of its dict are pairwise distinct:
    every model, top-level or sub-model, has [id], [parent_id] and [db_id]
    at -1. *)
Theorem load_folder_unassigned (fs : FileSystem) (db_folder_path : string)
  (db db' : Database) (g : HMMDatabase) :
  load_folder fs db_folder_path false db = (db', Done g) ->
  Forall unassigned (biosyn_pfams g)
  /\ Forall unassigned (all_sub_pfams g)
  /\ NoDup (map fst (sub_pfams g)).
Proof.
  intros Hrun.
  destruct (load_folder_uncommitted_cases _ _ _ _ _ Hrun) as (_ & _ & E3 & E4).
  split.
  - unfold from_path in E3. destruct (read fs _); [|discriminate].
    destruct (from_file s) as [rs|e] eqn:Ef; inversion E3; subst.
    eapply parsed_unassigned, Ef.
  - destruct (load_sub_pfams_invariant fs _ _ _ E4) as [Hk Hu];
      [constructor | constructor |]. now split.
Qed.

Lemma load_folder_unassigned_witness :
  Forall unassigned
    [mkHMM (-1) (-1) (-1) (Some "PF00501.28") "AMP-binding" 423;
     mkHMM (-1) (-1) (-1) (Some "PF00109.26") "ketoacyl-synt" 253]
  /\ Forall unassigned
       [mkHMM (-1) (-1) (-1) None "AMP-binding_c0" 410;
        mkHMM (-1) (-1) (-1) None "ketoacyl-synt_c0" 250]
  /\ NoDup ["PF00501.28"%string; "PF00109.26"%string].
Proof.
  apply (load_folder_unassigned sample_folder "db"
           (mkDatabase [] [] []) (mkDatabase [] [] [])
           (mkHMMDatabase (-1) "0a1b" "2c3d"
              [mkHMM (-1) (-1) (-1) (Some "PF00501.28") "AMP-binding" 423;
               mkHMM (-1) (-1) (-1) (Some "PF00109.26") "ketoacyl-synt" 253]
              [("PF00501.28",
                [mkHMM (-1) (-1) (-1) None "AMP-binding_c0" 410]);
               ("PF00109.26",
                [mkHMM (-1) (-1) (-1) None "ketoacyl-synt_c0" 250])])).
  reflexivity.
Defined.

(** X21. Loading a folder with commit a second time inserts nothing,
    whatever the first attempt came to: if it failed before [save], the
    database was untouched and the second attempt fails the same way; if
    [save] ran, the entry's [hmm_db] row is there and the second [save]
    only looks up. *)
Theorem load_folder_twice (fs : FileSystem) (db_folder_path : string)
  (db db1 : Database) (r : outcome HMMDatabase) :
  load_folder fs db_folder_path true db = (db1, r) ->
  fst (load_folder fs db_folder_path true db1) = db1.
Proof.
  unfold load_folder.
  destruct (read fs (Path.join db_folder_path
                       ["biosynthetic_pfams"; "biopfam.md5sum"]));
    [|intros H; inversion H; reflexivity].
  destruct (read fs (Path.join db_folder_path
                       ["sub_pfams"; "corepfam.md5sum"]));
    [|intros H; inversion H; reflexivity].
  destruct (from_path fs _) as [bs|e|q];
    try (intros H; inversion H; reflexivity).
  destruct (load_sub_pfams fs _ []) as [subs|e|q];
    try (intros H; inversion H; reflexivity).
  set (result := mkHMMDatabase (-1) _ _ bs subs).
  destruct (save result db) as [d rr] eqn:Hs.
  assert (E : d = db1 -> fst (save result db1) = db1).
  { intros ->. eapply later_save_inserts_nothing; [exact Hs| |]; reflexivity. }
  intros H.
  assert (Ed : d = db1) by (destruct rr; now inversion H).
  specialize (E Ed).
  destruct (save result db1) as [d2 rr2]. cbn [fst] in E. subst d2.
  destruct rr2; reflexivity.
Qed.

Lemma load_folder_twice_witness :
  let db1 :=
    mkDatabase [mkHmmDbRow 1 "0a1b" "2c3d"]
      [mkHmmRow 1 1 "AMP-binding" (Some "PF00501.28") 423;
       mkHmmRow 2 1 "ketoacyl-synt" (Some "PF00109.26") 253;
       mkHmmRow 3 1 "AMP-binding_c0" None 410;
       mkHmmRow 4 1 "ketoacyl-synt_c0" None 250]
      [mkSubpfamRow 3 1; mkSubpfamRow 4 2] in
  fst (load_folder sample_folder "db" true db1) = db1.
Proof.
  intros db1.
  apply (load_folder_twice sample_folder "db" (mkDatabase [] [] []) db1
           (Done (mkHMMDatabase 1 "0a1b" "2c3d"
              [mkHMM 1 (-1) 1 (Some "PF00501.28") "AMP-binding" 423;
               mkHMM 2 (-1) 1 (Some "PF00109.26") "ketoacyl-synt" 253]
              [("PF00501.28", [mkHMM 3 1 1 None "AMP-binding_c0" 410]);
               ("PF00109.26", [mkHMM 4 2 1 None "ketoacyl-synt_c0" 250])]))).
  reflexivity.
Defined.

Section CommittedLoad.

Variable fs : FileSystem.

Lemma with_parent_unassigned (hs : list HMM) :
  Forall unassigned hs -> with_parent hs = [].
Proof.
  induction 1 as [|h hs (_ & Hp & _) _ IH]; [reflexivity|].
  unfold with_parent in *. cbn [filter]. rewrite Hp, IH. reflexivity.
Qed.

(** The committing load is the load without commit followed by [save]. *)
Lemma load_folder_commit (db_folder_path : string) (db db0 : Database)
  (g : HMMDatabase) :
  load_folder fs db_folder_path false db = (db0, Done g) ->
  load_folder fs db_folder_path true db
  = match save g db with
    | (db', Ok saved) => (db', Done saved)
    | (db', Raise e) => (db', Failed e)
    end.
Proof.
  unfold load_folder.
  destruct (read fs (Path.join db_folder_path
                       ["biosynthetic_pfams"; "biopfam.md5sum"]));
    [|discriminate].
  destruct (read fs (Path.join db_folder_path
                       ["sub_pfams"; "corepfam.md5sum"]));
    [|discriminate].
  destruct (from_path fs _) as [bs|e|q]; try discriminate.
  destruct (load_sub_pfams fs _ []) as [subs|e|q]; try discriminate.
  intros H; inversion H; subst. reflexivity.
Qed.

End CommittedLoad.

(** X22. A committed load of a folder that is new to the database: when
    the folder loads (without commit) to an entry whose checksums are not
    stored, whose models have pairwise distinct names and whose file names
    each give the accession of a top-level model, and every [hmm] row of
    the database points to an [hmm_db] row, then the committed load
    succeeds and adds exactly one [hmm_db] row, one [hmm] row for every
    model of the folder and one [subpfam] row for every sub-model -- none
    for the top-level models, which the parser leaves without parent. *)
Theorem load_folder_new_folder_commits (fs : FileSystem)
  (db_folder_path : string) (db db0 : Database) (g : HMMDatabase) :
  load_folder fs db_folder_path false db = (db0, Done g) ->
  hmm_db_by_checksums (md5_biosyn_pfam g) (md5_sub_pfam g) db = [] ->
  referential_integrity db ->
  NoDup (member_names g) ->
  (forall acc subs, In (acc, subs) (sub_pfams g) ->
     exists b, In b (biosyn_pfams g) /\ accession b = Some acc) ->
  exists db' g',
    load_folder fs db_folder_path true db = (db', Done g')
    /\ length (hmm_db_table db') = S (length (hmm_db_table db))
    /\ length (hmm_table db')
       = (length (hmm_table db) + length (biosyn_pfams g)
          + length (all_sub_pfams g))%nat
    /\ length (subpfam_table db')
       = (length (subpfam_table db) + length (all_sub_pfams g))%nat.
Proof.
  intros Hload Hnone Hri Hnd Hpar.
  rewrite (load_folder_commit fs _ _ _ _ Hload).
  destruct (new_entry_saved g db Hnone Hri Hnd Hpar)
    as (db' & g' & Hs & E1 & E2 & E3).
  rewrite Hs. exists db', g'.
  refine (conj eq_refl (conj E1 (conj E2 _))).
  rewrite E3.
  destruct (load_folder_uncommitted_cases fs _ _ _ _ Hload) as (_ & _ & E & _).
  unfold from_path in E. destruct (read fs _); [|discriminate].
  destruct (from_file s) as [rs|e] eqn:Ef; inversion E; subst.
  rewrite (with_parent_unassigned _ (parsed_unassigned _ _ Ef)).
  cbn [length]. lia.
Qed.

Lemma load_folder_new_folder_commits_witness :
  exists db' g',
    load_folder sample_folder "db" true (mkDatabase [] [] []) = (db', Done g')
    /\ length (hmm_db_table db') = 1%nat
    /\ length (hmm_table db') = 4%nat
    /\ length (subpfam_table db') = 2%nat.
Proof.
  apply (load_folder_new_folder_commits sample_folder "db"
           (mkDatabase [] [] []) (mkDatabase [] [] [])
           (mkHMMDatabase (-1) "0a1b" "2c3d"
              [mkHMM (-1) (-1) (-1) (Some "PF00501.28") "AMP-binding" 423;
               mkHMM (-1) (-1) (-1) (Some "PF00109.26") "ketoacyl-synt" 253]
              [("PF00501.28",
                [mkHMM (-1) (-1) (-1) None "AMP-binding_c0" 410]);
               ("PF00109.26",
                [mkHMM (-1) (-1) (-1) None "ketoacyl-synt_c0" 250])])).
  - reflexivity.
  - reflexivity.
  - intros r [].
  - repeat constructor; cbn; intuition discriminate.
  - intros acc subs [H|[H|[]]]; inversion H; subst.
    + eexists. split; [left; reflexivity | reflexivity].
    + eexists. split; [right; left; reflexivity | reflexivity].
Defined.
